(** * WeatherData: the sampling-and-alerting engine of [weather_monitor.py]

    A shallow embedding of [WeatherMonitor] (unit conversion, the alert
    hysteresis counters, the daily aggregation and one pass of the [run]
    loop) and the properties of its specification.

    Conventions.
    - A Python [float] is an IEEE binary64 number: Rocq's primitive [float],
      with the operations of [PrimFloat] and their specification in
      [FloatAxioms] / [SpecFloat].
    - A Python [int] is a [Z]; a [str] is a [string] (its UTF-8 bytes).
    - [self.alert_counter] (a [dict]) is a [gmap string Z].
    - The two SQLite tables are lists of rows in insertion order: the
      database is the file that [setup_database] created, and it stays
      reachable. The rows are rows as this program writes them, every
      column with a value of its declared type. A REAL column never holds
      the negative zero (SQLite keeps it as 0.0) and holds NULL for NaN,
      which pandas reads back as NaN: a row's NaN stands for that NULL.
    - Methods that read and write [self], the database and the log are
      computations in the state-and-exception monad [M]. *)

From Stdlib Require Import ZArith QArith Floats List String Ascii Bool Lia.
From Stdlib Require Import Sorting.Sorted Sorting.Permutation.
From stdpp Require Import gmap strings.

Set Warnings "-inexact-float".
#[local] Open Scope string_scope.
#[local] Open Scope Z_scope.

(* ===================================================================== *)
(** * Binary64 numbers *)
(* ===================================================================== *)

Module F64.

(** [a > b], [a >= b], [a <= b] on Python floats. *)
Definition gt (a b : float) : bool := PrimFloat.ltb b a.
Definition ge (a b : float) : bool := PrimFloat.leb b a.
Definition le (a b : float) : bool := PrimFloat.leb a b.

(** The exact rational value of a finite float ([None] for infinities and
    NaN): [(-1)^s * m * 2^e]. *)
Definition pow2 (e : Z) : Q :=
  match e with
  | Z0 => 1%Q
  | Zpos p => inject_Z (2 ^ Zpos p)
  | Zneg p => (1 # Pos.pow 2 p)%Q
  end.

Definition SF2Q (x : spec_float) : option Q :=
  match x with
  | S754_zero _ => Some 0%Q
  | S754_finite s m e =>
      Some ((inject_Z (if s then Zneg m else Zpos m)) * pow2 e)%Q
  | S754_infinity _ | S754_nan => None
  end.

Definition to_Q (x : float) : option Q := SF2Q (Prim2SF x).

(** [within x c eps]: [x] is finite and [|x - c| <= eps], exactly. *)
Definition within (x : float) (c eps : Q) : Prop :=
  match to_Q x with
  | Some q => (c - eps <= q /\ q <= c + eps)%Q
  | None => False
  end.

(** One step of numpy's running maximum and minimum. *)
Definition fmax (acc x : float) : float := if ge acc x then acc else x.
Definition fmin (acc x : float) : float := if le acc x then acc else x.

(** A count as a float, as numpy divides a sum by a length. *)
Definition of_nat (n : nat) : float :=
  PrimFloat.of_uint63 (Uint63.of_Z (Z.of_nat n)).

(** Everything but NaN. *)
Definition not_nan (x : spec_float) : Prop := x <> S754_nan.

(** The order on floats. *)
Definition fle (a b : float) : Prop := le a b = true.

End F64.

(* ===================================================================== *)
(** * Configuration ([WeatherConfig]) *)
(* ===================================================================== *)

Record WeatherConfig := {
  api_key : string;
  interval : Z;                       (* in seconds *)
  cities : list string;
  temp_unit : string;                 (* 'celsius' or 'fahrenheit' *)
  high_temp_threshold : float;
  consecutive_alerts : Z;
  db_path : string;
  email_config : option (gmap string string)
}.

(** The two unit names the configuration documents. *)
Definition unit_supported (cfg : WeatherConfig) : Prop :=
  temp_unit cfg = "celsius" \/ temp_unit cfg = "fahrenheit".

(* ===================================================================== *)
(** * Unit conversion *)
(* ===================================================================== *)

Definition kelvin_to_celsius (kelvin : float) : float :=
  (kelvin - 273.15)%float.

Definition kelvin_to_fahrenheit (kelvin : float) : float :=
  let celsius := kelvin_to_celsius kelvin in
  ((celsius * 9 / 5) + 32)%float.

Definition convert_temperature (cfg : WeatherConfig) (kelvin : float) : float :=
  if String.eqb (temp_unit cfg) "celsius"
  then kelvin_to_celsius kelvin
  else kelvin_to_fahrenheit kelvin.

(** The standard formulas over exact rationals, as the specification words
    them: Celsius = Kelvin - 273.15, Fahrenheit = Celsius * 9/5 + 32. *)
Definition celsius_of_kelvin_exact (k : Q) : Q := (k - (27315 # 100))%Q.
Definition fahrenheit_of_celsius_exact (c : Q) : Q := (c * (9 # 5) + 32)%Q.

(* ===================================================================== *)
(** * The monitor's state and its effects *)
(* ===================================================================== *)

(** A reading: the [dict] built by [get_weather_data]. *)
Record Reading := {
  city : string;
  temperature : float;
  feels_like : float;
  main_condition : string;
  timestamp : Z
}.

(** A calendar date is its proleptic Gregorian ordinal ([date.toordinal]),
    so [d - timedelta(days=1)] is [d - 1]. *)
Definition Date := Z.

Record DateTime := {
  dt_date : Date;
  hour : Z;
  minute : Z;
  second : Z
}.

(** Rows of the tables [weather_data] and [daily_summaries]. *)
Record WeatherRow := {
  wr_id : Z;
  wr_city : string;
  wr_temperature : float;
  wr_feels_like : float;
  wr_main_condition : string;
  wr_timestamp : Z
}.

Record SummaryRow := {
  sr_id : Z;
  sr_city : string;
  sr_date : string;
  sr_avg_temp : float;
  sr_max_temp : float;
  sr_min_temp : float;
  sr_dominant_condition : string;
  sr_summary_data : string
}.

(** The [summary] dict returned by [calculate_daily_summary]. *)
Record Summary := {
  s_city : string;
  s_date : string;
  avg_temp : float;
  max_temp : float;
  min_temp : float;
  dominant_condition : string;
  summary_data : string
}.

Inductive Level := INFO | WARNING | ERROR.

Inductive Exn :=
| IndexError (msg : string)
| KeyError (key : string)
| ValueError (msg : string)
| OverflowError (msg : string)
| OtherError (msg : string).

(** [str(e)]. *)
Definition str_exn (e : Exn) : string :=
  match e with
  | IndexError msg => msg
  | KeyError key => "'" +:+ key +:+ "'"
  | ValueError msg => msg
  | OverflowError msg => msg
  | OtherError msg => msg
  end.

(** The calls the monitor makes, in order: a history kept beside the state
    so that properties about what was invoked can be stated. *)
Inductive Call :=
| CallFetch (c : string)
| CallStore (r : Reading)
| CallCheck (r : Reading)
| CallTrigger (message : string)
| CallSummary (c : string) (d : Date)
| CallSleep (seconds : Z).

Record Mail := {
  mail_subject : string;
  mail_from : string;
  mail_to : string;
  mail_body : string
}.

Record Monitor := {
  alert_counter : gmap string Z;
  weather_data : list WeatherRow;
  daily_summaries : list SummaryRow;
  log : list (Level * string);
  sent : list Mail;            (* the mails of the sessions with the mail
                                  server that ended without an exception *)
  calls : list Call
}.

(** [WeatherMonitor(config)] on a fresh database. *)
Definition init : Monitor := {|
  alert_counter := ∅;
  weather_data := [];
  daily_summaries := [];
  log := [];
  sent := [];
  calls := []
|}.

Definition set_alert_counter (f : gmap string Z -> gmap string Z) (m : Monitor) : Monitor :=
  {| alert_counter := f (alert_counter m); weather_data := weather_data m;
     daily_summaries := daily_summaries m; log := log m; sent := sent m;
     calls := calls m |}.

Definition set_weather_data (f : list WeatherRow -> list WeatherRow) (m : Monitor) : Monitor :=
  {| alert_counter := alert_counter m; weather_data := f (weather_data m);
     daily_summaries := daily_summaries m; log := log m; sent := sent m;
     calls := calls m |}.

Definition set_daily_summaries (f : list SummaryRow -> list SummaryRow) (m : Monitor) : Monitor :=
  {| alert_counter := alert_counter m; weather_data := weather_data m;
     daily_summaries := f (daily_summaries m); log := log m; sent := sent m;
     calls := calls m |}.

Definition set_log (f : list (Level * string) -> list (Level * string)) (m : Monitor) : Monitor :=
  {| alert_counter := alert_counter m; weather_data := weather_data m;
     daily_summaries := daily_summaries m; log := f (log m); sent := sent m;
     calls := calls m |}.

Definition set_sent (f : list Mail -> list Mail) (m : Monitor) : Monitor :=
  {| alert_counter := alert_counter m; weather_data := weather_data m;
     daily_summaries := daily_summaries m; log := log m; sent := f (sent m);
     calls := calls m |}.

Definition set_calls (f : list Call -> list Call) (m : Monitor) : Monitor :=
  {| alert_counter := alert_counter m; weather_data := weather_data m;
     daily_summaries := daily_summaries m; log := log m; sent := sent m;
     calls := f (calls m) |}.

(** ** The state-and-exception monad

    A computation takes the monitor and returns the monitor it leaves
    behind together with a value or the exception it raised. *)

Inductive outcome (A : Type) :=
| Ok (a : A)
| Raise (e : Exn).
Arguments Ok {A} a.
Arguments Raise {A} e.

Definition M (A : Type) : Type := Monitor -> Monitor * outcome A.

Definition ret {A} (a : A) : M A := fun m => (m, Ok a).

Definition raise {A} (e : Exn) : M A := fun m => (m, Raise e).

Definition bind {A B} (c : M A) (k : A -> M B) : M B :=
  fun m =>
    match c m with
    | (m', Ok a) => k a m'
    | (m', Raise e) => (m', Raise e)
    end.

(** [try: c except Exception as e: h e]. *)
Definition try_except {A} (c : M A) (h : Exn -> M A) : M A :=
  fun m =>
    match c m with
    | (m', Ok a) => (m', Ok a)
    | (m', Raise e) => h e m'
    end.

Definition modify (f : Monitor -> Monitor) : M unit := fun m => (f m, Ok tt).

Definition get : M Monitor := fun m => (m, Ok m).

(** [M] with stdpp's monad notations: [x ← c; k] and [c;; k]. *)
#[global] Instance M_ret : MRet M := @ret.
#[global] Instance M_bind : MBind M := fun A B k c => bind c k.

(** [for x in xs: body x]. *)
Fixpoint for_each {A} (xs : list A) (body : A -> M unit) : M unit :=
  match xs with
  | [] => ret tt
  | x :: xs' => body x;; for_each xs' body
  end.

Definition logger (lvl : Level) (msg : string) : M unit :=
  modify (set_log (fun l => (l ++ [(lvl, msg)])%list)).

Definition record (c : Call) : M unit :=
  modify (set_calls (fun l => (l ++ [c])%list)).

(* ===================================================================== *)
(** * What the monitor calls but does not define *)
(* ===================================================================== *)

(** Library functions whose results the properties below never inspect. *)
Record Runtime := {
  (** [f"{x:.1f}"] *)
  format_1f : float -> string;
  (** [date.strftime('%Y-%m-%d')] *)
  strftime_ymd : Date -> string;
  (** [int(datetime.combine(date, datetime.min.time()).timestamp())] and the
      same with [datetime.max.time()], in the local time zone *)
  start_of_day : Date -> Z;
  end_of_day : Date -> Z;
  (** [df.to_json()] of the selected columns *)
  to_json : list (float * string) -> string;
  (** [s[0].upper()] for a string [s] whose first character is not an
      ASCII character (Unicode's upper-case mapping of that character,
      which may be several characters long) *)
  upper_first : string -> string
}.

(** The fields [get_weather_data] reads from the response's JSON. *)
Record Payload := {
  p_temp : float;
  p_feels_like : float;
  p_main : string;
  p_dt : Z
}.

(** The outside world during one pass of the loop: the weather service,
    the mail server, the clock and the platform's timer. Anything the [try]
    blocks can catch (network errors, bad status, malformed JSON, refused
    logins) is an exception the world answers with. *)
Record World := {
  http_get : string -> list (string * string) -> outcome Payload;
  (** [smtplib.SMTP(host, port)] *)
  smtp_connect : string -> Z -> option Exn;
  (** [server.starttls()], [server.login(user, password)] and
      [server.send_message(msg)] *)
  smtp_starttls : option Exn;
  smtp_login : string -> string -> option Exn;
  smtp_send_message : Mail -> option Exn;
  (** what leaving the [with] block raises: [SMTP.__exit__] sends QUIT and
      raises on a reply other than 221 *)
  smtp_quit : option Exn;
  now : DateTime;
  (** what the operating system answers to a pause of that many seconds *)
  pause : Z -> option Exn
}.

(* ===================================================================== *)
(** * pandas reductions used by the daily summary *)
(* ===================================================================== *)

(** pandas is a library the monitor imports: its reductions are modelled as
    pandas documents them. [mean], [max] and [min] skip NaN (and give NaN
    when nothing is left); [mode] gives the most frequent values in
    ascending order. [mean] is the sum that numpy computes, divided by the
    number of values that are not NaN. *)

Module Series.

Definition dropna (xs : list float) : list float :=
  List.filter (fun x => negb (PrimFloat.is_nan x)) xs.

(** ** [numpy.add.reduce] on a contiguous array of doubles

    numpy sums pairwise. Fewer than eight values are added one after the
    other. Up to 128 values are added into eight running sums, the value at
    position [i] into the sum [i mod 8]; the eight sums are then added as
    a balanced tree, and the values after the last full group of eight are
    added to the result one after the other. More than 128 values are
    split in two parts, the first of them half as long rounded down to a
    multiple of eight, whose sums are added. *)

Record Lanes := {
  r0 : float; r1 : float; r2 : float; r3 : float;
  r4 : float; r5 : float; r6 : float; r7 : float
}.

(** [r[j] += a[i + j]] for every full group of eight; what is left over
    is returned with the sums. *)
Fixpoint accumulate (r : Lanes) (xs : list float) : Lanes * list float :=
  match xs with
  | a0 :: a1 :: a2 :: a3 :: a4 :: a5 :: a6 :: a7 :: rest =>
      accumulate {| r0 := r0 r + a0; r1 := r1 r + a1; r2 := r2 r + a2;
                    r3 := r3 r + a3; r4 := r4 r + a4; r5 := r5 r + a5;
                    r6 := r6 r + a6; r7 := r7 r + a7 |}%float rest
  | _ => (r, xs)
  end.

(** [((r[0] + r[1]) + (r[2] + r[3])) + ((r[4] + r[5]) + (r[6] + r[7]))] *)
Definition tree (r : Lanes) : float :=
  (((r0 r + r1 r) + (r2 r + r3 r)) + ((r4 r + r5 r) + (r6 r + r7 r)))%float.

(** A block of at most 128 values. *)
Definition block_sum (xs : list float) : float :=
  match xs with
  | a0 :: a1 :: a2 :: a3 :: a4 :: a5 :: a6 :: a7 :: rest =>
      let '(r, tail) :=
        accumulate {| r0 := a0; r1 := a1; r2 := a2; r3 := a3;
                      r4 := a4; r5 := a5; r6 := a6; r7 := a7 |} rest in
      fold_left PrimFloat.add tail (tree r)
  | _ => fold_left PrimFloat.add xs 0%float
  end.

(** The length of the first part of a split. *)
Definition half (n : nat) : nat := (n / 2 - (n / 2) mod 8)%nat.

(** [depth] bounds the number of nested splits; the length of the values
    is always enough. *)
Fixpoint pairwise_sum (depth : nat) (xs : list float) : float :=
  match depth with
  | O => block_sum xs
  | S depth' =>
      if (length xs <=? 128)%nat then block_sum xs
      else (pairwise_sum depth' (firstn (half (length xs)) xs)
            + pairwise_sum depth' (skipn (half (length xs)) xs))%float
  end.

(** The reduction starts from the identity of the addition. *)
Definition sum (xs : list float) : float :=
  (0 + pairwise_sum (length xs) xs)%float.

(** [nanmean]: the NaN are replaced by [0.0] where they stand, the sum is
    divided by the number of the other values. *)
Definition fillna (xs : list float) : list float :=
  map (fun x => if PrimFloat.is_nan x then 0%float else x) xs.

Definition mean (xs : list float) : float :=
  match dropna xs with
  | [] => PrimFloat.nan
  | ys => (sum (fillna xs) / F64.of_nat (length ys))%float
  end.

Definition max (xs : list float) : float :=
  match dropna xs with
  | [] => PrimFloat.nan
  | y :: ys => fold_left F64.fmax ys y
  end.

Definition min (xs : list float) : float :=
  match dropna xs with
  | [] => PrimFloat.nan
  | y :: ys => fold_left F64.fmin ys y
  end.

(** ** [mode]: the most frequent values, sorted *)

Definition count (x : string) (l : list string) : nat :=
  count_occ string_dec l x.

(** The distinct values, in order of first appearance. *)
Fixpoint unique (l : list string) : list string :=
  match l with
  | [] => []
  | x :: l' => x :: List.filter (fun y => negb (String.eqb x y)) (unique l')
  end.

Definition max_count (l : list string) : nat :=
  fold_right Nat.max 0%nat (map (fun x => count x l) l).

Fixpoint insert_sorted (x : string) (l : list string) : list string :=
  match l with
  | [] => [x]
  | y :: l' => if String.leb x y then x :: y :: l' else y :: insert_sorted x l'
  end.

(** Ascending order of Python strings (code points; on UTF-8 bytes the
    same order). *)
Definition sort (l : list string) : list string :=
  fold_right insert_sorted [] l.

Definition mode (l : list string) : list string :=
  sort (List.filter (fun x => Nat.eqb (count x l) (max_count l)) (unique l)).

(** The order of Python strings, and a column without NaN. *)
Definition sle (x y : string) : Prop := String.leb x y = true.

Definition numbers (xs : list float) : Prop :=
  Forall (fun t => PrimFloat.is_nan t = false) xs.

(** What it is to be a sum of some values in binary64, whatever the order
    and the grouping of the additions: [adds_up xs s] when [s] is the
    result of adding the values of [xs], each of them once. An empty sum is
    [0.0]. *)
Inductive adds_up : list float -> float -> Prop :=
| adds_nil : adds_up [] 0%float
| adds_one x : adds_up [x] x
| adds_app l1 l2 s1 s2 :
    adds_up l1 s1 -> adds_up l2 s2 -> adds_up (l1 ++ l2)%list (s1 + s2)%float
| adds_perm l l' s :
    Permutation l l' -> adds_up l s -> adds_up l' s.

End Series.

(* ===================================================================== *)
(** * The methods of [WeatherMonitor] *)
(* ===================================================================== *)

Section Monitor.

Variable rt : Runtime.
Variable cfg : WeatherConfig.

Definition base_url : string := "http://api.openweathermap.org/data/2.5/weather".

(** [d[k]] on a dict of strings. *)
Definition dict_item (d : gmap string string) (k : string) : M string :=
  match d !! k with
  | Some v => ret v
  | None => raise (KeyError k)
  end.

(** [self.alert_counter[k]]. *)
Definition counter_item (k : string) : M Z :=
  m ← get;
  match alert_counter m !! k with
  | Some v => ret v
  | None => raise (KeyError k)
  end.

(** What the world answered, as a computation. *)
Definition answer {A} (o : outcome A) : M A :=
  match o with
  | Ok a => ret a
  | Raise e => raise e
  end.

Definition attempt (o : option Exn) : M unit :=
  match o with
  | None => ret tt
  | Some e => raise e
  end.

Definition get_weather_data (w : World) (c : string) : M (option Reading) :=
  record (CallFetch c);;
  let params := [("q", c +:+ ",IN"); ("appid", api_key cfg)] in
  try_except
    (data ← answer (http_get w base_url params);
     ret (Some {| city := c;
                  temperature := convert_temperature cfg (p_temp data);
                  feels_like := convert_temperature cfg (p_feels_like data);
                  main_condition := p_main data;
                  timestamp := p_dt data |}))
    (fun e =>
       logger ERROR ("Error fetching data for " +:+ c +:+ ": " +:+ str_exn e);;
       ret None).

(** What SQLite makes of the values bound to an INSERT. An integer must
    fit in 64 bits: [sqlite3] raises [OverflowError] otherwise, before
    anything is written. A REAL is kept as it is, except that the negative
    zero comes back as [0.0] (and NaN as NULL, for which the row keeps
    NaN). *)
Definition sqlite_integer (n : Z) : bool :=
  (- 2 ^ 63 <=? n) && (n <? 2 ^ 63).

Definition sqlite_real (x : float) : float :=
  if PrimFloat.eqb x 0 then 0%float else x.

(** [INSERT INTO weather_data]: rows are never deleted, so the next
    AUTOINCREMENT id is the number of rows plus one. The method has no
    [try]: what the INSERT raises, it raises. *)
Definition store_weather_data (data : option Reading) : M unit :=
  match data with
  | None => ret tt
  | Some r =>
      record (CallStore r);;
      if sqlite_integer (timestamp r) then
        modify (set_weather_data (fun t =>
          (t ++ [{| wr_id := Z.of_nat (length t) + 1;
                    wr_city := city r;
                    wr_temperature := sqlite_real (temperature r);
                    wr_feels_like := sqlite_real (feels_like r);
                    wr_main_condition := main_condition r;
                    wr_timestamp := timestamp r |}])%list))
      else
        raise (OverflowError "Python int too large to convert to SQLite INTEGER")
  end.

(** The rows of [SELECT temperature, main_condition FROM weather_data
    WHERE city = ? AND timestamp BETWEEN ? AND ?]. *)
Definition in_range (c : string) (lo hi : Z) (r : WeatherRow) : bool :=
  String.eqb (wr_city r) c && (lo <=? wr_timestamp r) && (wr_timestamp r <=? hi).

Definition read_sql_query (c : string) (lo hi : Z) (t : list WeatherRow)
  : list (float * string) :=
  map (fun r => (wr_temperature r, wr_main_condition r))
      (List.filter (in_range c lo hi) t).

(** The row [INSERT INTO daily_summaries] adds for a summary: rows are
    never deleted, so the next AUTOINCREMENT id is the number of rows
    plus one. *)
Definition summary_row (id : Z) (summary : Summary) : SummaryRow :=
  {| sr_id := id;
     sr_city := s_city summary;
     sr_date := s_date summary;
     sr_avg_temp := sqlite_real (avg_temp summary);
     sr_max_temp := sqlite_real (max_temp summary);
     sr_min_temp := sqlite_real (min_temp summary);
     sr_dominant_condition := dominant_condition summary;
     sr_summary_data := summary_data summary |}.

(** [series[0]] *)
Definition first_item (l : list string) : M string :=
  match l with
  | x :: _ => ret x
  | [] => raise (KeyError "0")
  end.

Definition calculate_daily_summary (c : string) (d : Date) : M (option Summary) :=
  record (CallSummary c d);;
  m ← get;
  let start_timestamp := start_of_day rt d in
  let end_timestamp := end_of_day rt d in
  let df := read_sql_query c start_timestamp end_timestamp (weather_data m) in
  match df with
  | [] => ret None
  | _ :: _ =>
      let temps := map fst df in
      dominant ← first_item (Series.mode (map snd df));
      let summary := {| s_city := c;
                        s_date := strftime_ymd rt d;
                        avg_temp := Series.mean temps;
                        max_temp := Series.max temps;
                        min_temp := Series.min temps;
                        dominant_condition := dominant;
                        summary_data := to_json rt df |} in
      modify (set_daily_summaries (fun t =>
        (t ++ [summary_row (Z.of_nat (length t) + 1) summary])%list));;
      ret (Some summary)
  end.

(** Truth value of [self.config.email_config]: neither [None] nor [{}]. *)
Definition email_enabled : option (gmap string string) :=
  match email_config cfg with
  | Some d => if decide (d = ∅) then None else Some d
  | None => None
  end.

(** [with smtplib.SMTP(...) as server: body]: however the body ends, the
    block is left through [SMTP.__exit__]; what that raises replaces the
    exception of the body, if there was one. *)
Definition smtp_session {A} (w : World) (body : M A) : M A :=
  fun m =>
    match body m, smtp_quit w with
    | (m', _), Some e => (m', Raise e)
    | (m', o), None => (m', o)
    end.

Definition send_email_alert (w : World) (message : string) : M unit :=
  match email_enabled with
  | None => ret tt
  | Some d =>
      try_except
        (from ← dict_item d "from";
         to ← dict_item d "to";
         let msg := {| mail_subject := "Weather Alert"; mail_from := from;
                       mail_to := to; mail_body := message |} in
         server ← dict_item d "smtp_server";
         attempt (smtp_connect w server 587);;
         smtp_session w
           (attempt (smtp_starttls w);;
            username ← dict_item d "username";
            password ← dict_item d "password";
            attempt (smtp_login w username password);;
            attempt (smtp_send_message w msg));;
         modify (set_sent (fun l => (l ++ [msg])%list)))
        (fun e => logger ERROR ("Failed to send email alert: " +:+ str_exn e))
  end.

Definition trigger_alert (w : World) (message : string) : M unit :=
  record (CallTrigger message);;
  logger WARNING ("ALERT: " +:+ message);;
  match email_enabled with
  | Some _ => send_email_alert w message
  | None => ret tt
  end.

(** [c.upper()] for an ASCII character: the letters [a] to [z] become
    [A] to [Z], every other character is left as it is. *)
Definition upper (a : ascii) : ascii :=
  let n := nat_of_ascii a in
  if (97 <=? n)%nat && (n <=? 122)%nat then ascii_of_nat (n - 32) else a.

(** [s[0].upper()]: the first character of [s] in upper case, [None] when
    [s] is empty. A first byte below 128 is an ASCII character; any other
    begins a longer character, whose upper case is the library's. *)
Definition first_upper (s : string) : option string :=
  match s with
  | EmptyString => None
  | String a _ =>
      if (nat_of_ascii a <? 128)%nat then Some (String (upper a) "")
      else Some (upper_first rt s)
  end.

(** [self.config.temp_unit[0].upper()] *)
Definition unit_letter : M string :=
  match first_upper (temp_unit cfg) with
  | Some letter => ret letter
  | None => raise (IndexError "string index out of range")
  end.

Definition counter_key (c : string) : string := c +:+ "_high_temp".

Definition check_temperature_alert (w : World) (data : Reading) : M unit :=
  record (CallCheck data);;
  if F64.gt (temperature data) (high_temp_threshold cfg) then
    let city_key := counter_key (city data) in
    modify (set_alert_counter (fun ac =>
      <[city_key := default 0 (ac !! city_key) + 1]> ac));;
    n ← counter_item city_key;
    if consecutive_alerts cfg <=? n then
      letter ← unit_letter;
      trigger_alert w ("High temperature alert for " +:+ city data +:+ ": "
                       +:+ format_1f rt (temperature data) +:+ "Â°" +:+ letter);;
      modify (set_alert_counter (fun ac => <[city_key := 0]> ac))
    else ret tt
  else
    modify (set_alert_counter (fun ac => <[counter_key (city data) := 0]> ac)).

(** [time.sleep(seconds)] for an [int]. The length is first converted to
    a 64-bit count of nanoseconds, which raises [OverflowError] beyond
    9223372036 seconds either way; a negative length is then refused with
    [ValueError]; any other is handed to the operating system, which may
    refuse it too. *)
Definition time_limit : Z := 9223372036.

Definition sleep (w : World) (seconds : Z) : M unit :=
  if (seconds <? - time_limit) || (time_limit <? seconds)
  then raise (OverflowError "timestamp too large to convert to C _PyTime_t")
  else if seconds <? 0
  then raise (ValueError "sleep length must be non-negative")
  else attempt (pause w seconds);; record (CallSleep seconds).

(** The [for city in self.config.cities] loop that fetches, stores and
    checks. *)
Definition sample_city (w : World) (c : string) : M unit :=
  data ← get_weather_data w c;
  match data with
  | Some r => store_weather_data (Some r);; check_temperature_alert w r
  | None => ret tt
  end.

(** Daily summaries for the previous day at midnight. *)
Definition midnight (t : DateTime) : bool :=
  (hour t =? 0) && (minute t =? 0).

Definition summarise_yesterday (w : World) : M unit :=
  let current_time := now w in
  if midnight current_time then
    let yesterday := dt_date current_time - 1 in
    for_each (cities cfg) (fun c =>
      _ ← calculate_daily_summary c yesterday; ret tt)
  else ret tt.

(** One iteration of [while True]. *)
Definition cycle (w : World) : M unit :=
  for_each (cities cfg) (sample_city w);;
  summarise_yesterday w;;
  sleep w (interval cfg).

(** The first [n] iterations of the loop, in the worlds [ws 0], [ws 1], ... *)
Fixpoint iterate (ws : nat -> World) (i n : nat) : M unit :=
  match n with
  | O => ret tt
  | S n' => cycle (ws i);; iterate ws (S i) n'
  end.

Definition run (ws : nat -> World) (n : nat) : M unit :=
  logger INFO "Starting weather monitoring system...";;
  iterate ws 0 n.

End Monitor.

(* ===================================================================== *)
(** * What the properties observe *)
(* ===================================================================== *)

(** The counter of a location, 0 when the location has none yet
    ([alert_counter.get(key, 0)]). *)
Definition counter (m : Monitor) (c : string) : Z :=
  default 0 (alert_counter m !! counter_key c).

Definition is_trigger (c : Call) : bool :=
  match c with CallTrigger _ => true | _ => false end.

(** Number of alerts fired so far (calls of [trigger_alert]). *)
Definition fired (m : Monitor) : nat :=
  length (List.filter is_trigger (calls m)).

(** A reading breaches when its temperature exceeds the threshold. *)
Definition breaching (cfg : WeatherConfig) (r : Reading) : bool :=
  F64.gt (temperature r) (high_temp_threshold cfg).

(** The message [check_temperature_alert] passes to [trigger_alert]. *)
Definition alert_message (rt : Runtime) (r : Reading) (letter : string)
  : string :=
  "High temperature alert for " +:+ city r +:+ ": "
  +:+ format_1f rt (temperature r) +:+ "Â°" +:+ letter.

(** Feeding a sequence of readings to [check_temperature_alert]. *)
Definition feed (rt : Runtime) (cfg : WeatherConfig) (w : World)
    (rs : list Reading) : M unit :=
  for_each rs (check_temperature_alert rt cfg w).

(** What is observed after a run: how it ended, the number of alerts fired
    so far and the counter of location [c]. *)
Definition observe (c : string) (x : Monitor * outcome unit)
  : outcome unit * nat * Z :=
  (snd x, fired (fst x), counter (fst x) c).

(** The counter and the number of alerts after one more reading of [c],
    by whether it breaches. *)
Definition hyst2 (st : nat * Z) (breach : bool) : nat * Z :=
  let '(f, n) := st in
  if breach then (if n =? 0 then (f, 1) else (S f, 0)) else (f, 0).

(** The states of the alert engine: a fresh monitor, then any number of
    readings checked, each in whatever world, however the check ended. *)
Inductive reachable (rt : Runtime) (cfg : WeatherConfig) : Monitor -> Prop :=
| reachable_init : reachable rt cfg init
| reachable_check m w r :
    reachable rt cfg m ->
    reachable rt cfg (fst (check_temperature_alert rt cfg w r m)).

Definition counters_nonneg (m : Monitor) : Prop :=
  forall k v, alert_counter m !! k = Some v -> 0 <= v.

(** The data frame [calculate_daily_summary] reads for a location and a
    date: temperature and condition of the stored readings in range. *)
Definition day_frame (rt : Runtime) (c : string) (d : Date) (m : Monitor)
  : list (float * string) :=
  read_sql_query c (start_of_day rt d) (end_of_day rt d) (weather_data m).

(** The [summary] dict built from a non-empty frame. *)
Definition summary_of (rt : Runtime) (c : string) (d : Date)
    (df : list (float * string)) (dominant : string) : Summary :=
  {| s_city := c;
     s_date := strftime_ymd rt d;
     avg_temp := Series.mean (map fst df);
     max_temp := Series.max (map fst df);
     min_temp := Series.min (map fst df);
     dominant_condition := dominant;
     summary_data := to_json rt df |}.

(** [n] invocations in a row for the same location and date. *)
Definition summarise_times (rt : Runtime) (c : string) (d : Date) (n : nat)
  : M unit :=
  for_each (List.repeat tt n)
           (fun _ => _ ← calculate_daily_summary rt c d; ret tt).

(** The frame of the test suite, in any row order. *)
Definition test_frame : list (float * string) :=
  [(25%float, "Clear"); (30%float, "Clear"); (28%float, "Clouds")].

(** The history of calls, by method. *)
Definition fetched (m : Monitor) : list string :=
  flat_map (fun c => match c with CallFetch x => [x] | _ => [] end) (calls m).

Definition stored (m : Monitor) : list Reading :=
  flat_map (fun c => match c with CallStore r => [r] | _ => [] end) (calls m).

Definition checked (m : Monitor) : list Reading :=
  flat_map (fun c => match c with CallCheck r => [r] | _ => [] end) (calls m).

Definition summarised (m : Monitor) : list (string * Date) :=
  flat_map (fun c => match c with CallSummary x d => [(x, d)] | _ => [] end)
           (calls m).

(** The readings kept in [weather_data], without their ids. *)
Definition row_reading (row : WeatherRow) : Reading :=
  {| city := wr_city row; temperature := wr_temperature row;
     feels_like := wr_feels_like row; main_condition := wr_main_condition row;
     timestamp := wr_timestamp row |}.

(** A reading as the table keeps it. *)
Definition kept (r : Reading) : Reading :=
  {| city := city r; temperature := sqlite_real (temperature r);
     feels_like := sqlite_real (feels_like r);
     main_condition := main_condition r; timestamp := timestamp r |}.

(** A reading that the table can take: its timestamp fits in 64 bits. *)
Definition storable (r : Reading) : Prop :=
  - 2 ^ 63 <= timestamp r < 2 ^ 63.

(** The pause at the end of a pass is one that [time.sleep] accepts and
    that the operating system grants. *)
Definition pause_granted (cfg : WeatherConfig) (w : World) : Prop :=
  0 <= interval cfg <= time_limit /\ pause w (interval cfg) = None.

(** The stored readings of a location on a day, as the specification
    words them: the rows of the location whose timestamp lies between the
    first and the last second of the day, both included. *)
Definition in_day (rt : Runtime) (c : string) (d : Date) (row : WeatherRow)
  : Prop :=
  wr_city row = c /\ start_of_day rt d <= wr_timestamp row <= end_of_day rt d.

#[global] Instance in_day_dec rt c d row : Decision (in_day rt c d row) :=
  ltac:(unfold in_day; apply _).

Definition day_rows (rt : Runtime) (c : string) (d : Date) (m : Monitor)
  : list WeatherRow :=
  filter (in_day rt c d) (weather_data m).

(** The request [get_weather_data] sends for a location, and the reading
    it builds from an answer. *)
Definition request (cfg : WeatherConfig) (w : World) (c : string)
  : outcome Payload :=
  http_get w base_url [("q", c +:+ ",IN"); ("appid", api_key cfg)].

Definition reading_of (cfg : WeatherConfig) (c : string) (p : Payload) : Reading :=
  {| city := c;
     temperature := convert_temperature cfg (p_temp p);
     feels_like := convert_temperature cfg (p_feels_like p);
     main_condition := p_main p;
     timestamp := p_dt p |}.

(** The readings of the locations whose fetch succeeds, in order. *)
Definition readings (cfg : WeatherConfig) (w : World) (l : list string)
  : list Reading :=
  flat_map (fun c => match request cfg w c with
                     | Ok p => [reading_of cfg c p]
                     | Raise _ => []
                     end) l.

(** The worlds of [n] passes in a row, from the pass [i] on, give answers
    that the table can take and grant the pause. *)
Definition runs_on (cfg : WeatherConfig) (ws : nat -> World) (i n : nat)
  : Prop :=
  forall j, (i <= j < i + n)%nat ->
    Forall storable (readings cfg (ws j) (cities cfg)) /\
    pause_granted cfg (ws j).

(** The dates the loop asks summaries for: the previous day for every
    configured location, when the clock shows 00:00. *)
Definition due (cfg : WeatherConfig) (w : World) : list (string * Date) :=
  if (hour (now w) =? 0) && (minute (now w) =? 0)
  then map (fun c => (c, dt_date (now w) - 1)) (cities cfg)
  else [].

(** The log record of a failed fetch. *)
Definition fetch_error (c : string) (e : Exn) : Level * string :=
  (ERROR, "Error fetching data for " +:+ c +:+ ": " +:+ str_exn e).

(** [prepend L C m] is [m] with [L] before its log and [C] before its
    history of calls; a computation is framed when it never reads either. *)
Definition prepend (L : list (Level * string)) (C : list Call) (m : Monitor)
  : Monitor :=
  {| alert_counter := alert_counter m; weather_data := weather_data m;
     daily_summaries := daily_summaries m; log := (L ++ log m)%list;
     sent := sent m; calls := (C ++ calls m)%list |}.

Definition framed {A} (k : M A) : Prop :=
  forall L C m, k (prepend L C m) = (prepend L C (fst (k m)), snd (k m)).

(** [forget c entry m]: [m] without the calls [CallFetch c] in its history
    and without the log record [entry]. *)
Definition not_fetch (c : string) (x : Call) : bool :=
  match x with
  | CallFetch c' => negb (String.eqb c' c)
  | _ => true
  end.

Definition not_entry (entry : Level * string) (x : Level * string) : bool :=
  match fst entry, fst x with
  | INFO, INFO | WARNING, WARNING | ERROR, ERROR =>
      negb (String.eqb (snd x) (snd entry))
  | _, _ => true
  end.

Definition forget (c : string) (entry : Level * string) (m : Monitor) : Monitor :=
  set_log (List.filter (not_entry entry))
    (set_calls (List.filter (not_fetch c)) m).

(** [m] with an empty log and an empty history. *)
Definition strip (m : Monitor) : Monitor :=
  set_log (fun _ => []) (set_calls (fun _ => []) m).

(** The locations without [c]. *)
Definition without (c : string) (l : list string) : list string :=
  List.filter (fun c' => negb (String.eqb c' c)) l.

(* ===================================================================== *)
(** * Further observations *)
(* ===================================================================== *)

(** The counter of a location after one more of its readings, by whether
    the reading breaches: what [check_temperature_alert] does to it when
    the alert message can be built. *)
Definition next_count (cfg : WeatherConfig) (breach : bool) (n : Z) : Z :=
  if breach
  then (if consecutive_alerts cfg <=? n + 1 then 0 else n + 1)
  else 0.

(** The readings of one location. *)
Definition of_city (c : string) (r : Reading) : bool := String.eqb (city r) c.

(** The log records of the fetches that fail, in order. *)
Definition fetch_errors (cfg : WeatherConfig) (w : World) (l : list string)
  : list (Level * string) :=
  flat_map (fun c => match request cfg w c with
                     | Ok _ => []
                     | Raise e => [fetch_error c e]
                     end) l.

(** [m'] holds the rows of [m], in order, and possibly more after them. *)
Definition extends (m m' : Monitor) : Prop :=
  (exists rows, weather_data m' = (weather_data m ++ rows)%list) /\
  (exists rows, daily_summaries m' = (daily_summaries m ++ rows)%list).

Definition append_only {A} (k : M A) : Prop :=
  forall m, extends m (fst (k m)).

(** The stores and checks of the history, in order. *)
Definition is_store_or_check (c : Call) : bool :=
  match c with
  | CallStore _ | CallCheck _ => true
  | _ => false
  end.

Definition stores_and_checks (m : Monitor) : list Call :=
  List.filter is_store_or_check (calls m).

(** The sleeps of the history, in order. *)
Definition slept (m : Monitor) : list Z :=
  flat_map (fun c => match c with CallSleep s => [s] | _ => [] end) (calls m).

(* ===================================================================== *)
(** * Mail settings *)
(* ===================================================================== *)

(** A mail configuration with every key [send_email_alert] reads. *)
Record MailSettings (cfg : WeatherConfig) := {
  ms_dict : gmap string string;
  ms_from : string;
  ms_to : string;
  ms_server : string;
  ms_username : string;
  ms_password : string;
  ms_config : email_config cfg = Some ms_dict;
  ms_has_from : ms_dict !! "from" = Some ms_from;
  ms_has_to : ms_dict !! "to" = Some ms_to;
  ms_has_server : ms_dict !! "smtp_server" = Some ms_server;
  ms_has_username : ms_dict !! "username" = Some ms_username;
  ms_has_password : ms_dict !! "password" = Some ms_password
}.
Arguments ms_dict {cfg}.
Arguments ms_from {cfg}.
Arguments ms_to {cfg}.
Arguments ms_server {cfg}.
Arguments ms_username {cfg}.
Arguments ms_password {cfg}.

(** The mail [send_email_alert] builds for a message. *)
Definition alert_mail {cfg} (ms : MailSettings cfg) (message : string) : Mail :=
  {| mail_subject := "Weather Alert"; mail_from := ms_from ms;
     mail_to := ms_to ms; mail_body := message |}.

(** What the mail server did with a mail: the exception that came out of
    the session, if any. It is raised while connecting; or, once
    connected, when the session is closed; or else by the first of
    STARTTLS, the login and the sending that fails. *)
Definition sink_failure {cfg} (w : World) (ms : MailSettings cfg) (mail : Mail)
  : option Exn :=
  match smtp_connect w (ms_server ms) 587 with
  | Some e => Some e
  | None =>
      match smtp_quit w with
      | Some e => Some e
      | None =>
          match smtp_starttls w with
          | Some e => Some e
          | None =>
              match smtp_login w (ms_username ms) (ms_password ms) with
              | Some e => Some e
              | None => smtp_send_message w mail
              end
          end
      end
  end.

(* ===================================================================== *)
(** * Concrete configurations and worlds used by the examples *)
(* ===================================================================== *)

Module Sample.

(** The configuration of the test suite. *)
Definition config : WeatherConfig := {|
  api_key := "test_key";
  interval := 300;
  cities := ["Delhi"; "Mumbai"];
  temp_unit := "celsius";
  high_temp_threshold := 35%float;
  consecutive_alerts := 2;
  db_path := "weather_data.db";
  email_config := None
|}.

Definition with_unit (u : string) (c : WeatherConfig) : WeatherConfig := {|
  api_key := api_key c; interval := interval c; cities := cities c;
  temp_unit := u; high_temp_threshold := high_temp_threshold c;
  consecutive_alerts := consecutive_alerts c; db_path := db_path c;
  email_config := email_config c
|}.

(** A runtime in UTC whose day [d] starts [86400 * d] seconds after the
    epoch; the text it produces is immaterial. *)
Definition runtime : Runtime := {|
  format_1f := fun _ => "36.0";
  strftime_ymd := fun _ => "2024-01-01";
  start_of_day := fun d => d * 86400;
  end_of_day := fun d => d * 86400 + 86399;
  to_json := fun _ => "{}";
  upper_first := fun s => s
|}.

Definition reading (c : string) (t : float) (cond : string) (ts : Z) : Reading := {|
  city := c; temperature := t; feels_like := t;
  main_condition := cond; timestamp := ts
|}.

Definition payload (t : float) (cond : string) (ts : Z) : Payload := {|
  p_temp := t; p_feels_like := t; p_main := cond; p_dt := ts
|}.

(** A world in which the weather service answers for Delhi only (310 K,
    36.85 degrees Celsius), the mail server refuses connections and the
    clock shows a quarter past noon. *)
Definition world : World := {|
  http_get := fun _ params =>
    match params with
    | (_, "Delhi,IN") :: _ => Ok (payload 310 "Clear" 1000)
    | _ => Raise (OtherError "404 Client Error")
    end;
  smtp_connect := fun _ _ => Some (OtherError "Connection refused");
  smtp_starttls := None;
  smtp_login := fun _ _ => None;
  smtp_send_message := fun _ => None;
  smtp_quit := None;
  now := {| dt_date := 739000; hour := 12; minute := 15; second := 0 |};
  pause := fun _ => None
|}.

Definition at_time (h mi : Z) (w : World) : World := {|
  http_get := http_get w; smtp_connect := smtp_connect w;
  smtp_starttls := smtp_starttls w; smtp_login := smtp_login w;
  smtp_send_message := smtp_send_message w; smtp_quit := smtp_quit w;
  now := {| dt_date := dt_date (now w); hour := h; minute := mi;
            second := second (now w) |};
  pause := pause w
|}.

Definition hot : Reading := reading "Delhi" 36 "Clear" 1000.
Definition cool : Reading := reading "Delhi" 30 "Clouds" 1300.

(** The day the summaries of the examples are about, and three readings
    of Delhi stored during it (the test suite's data). *)
Definition day : Date := 738999.

Definition stored : Monitor :=
  fst (for_each
         [reading "Delhi" 25 "Clear" (day * 86400 + 3600);
          reading "Delhi" 30 "Clear" (day * 86400 + 43200);
          reading "Delhi" 28 "Clouds" (day * 86400 + 82800)]
         (fun r => store_weather_data (Some r)) init).

(** The test configuration with mail settings, and its settings. *)
Definition mail_dict : gmap string string :=
  list_to_map [("smtp_server", "smtp.test.com"); ("username", "test@test.com");
               ("password", "test_password"); ("from", "test@test.com");
               ("to", "recipient@test.com")].

Definition mail_config : WeatherConfig := {|
  api_key := "test_key";
  interval := 300;
  cities := ["Delhi"; "Mumbai"];
  temp_unit := "celsius";
  high_temp_threshold := 35%float;
  consecutive_alerts := 2;
  db_path := "weather_data.db";
  email_config := Some mail_dict
|}.

Definition mail_settings : MailSettings mail_config :=
  Build_MailSettings mail_config mail_dict
    "test@test.com" "recipient@test.com" "smtp.test.com"
    "test@test.com" "test_password"
    eq_refl eq_refl eq_refl eq_refl eq_refl eq_refl.

(** Four readings of Delhi on the sample day in which Rain and Clear tie. *)
Definition tied : Monitor :=
  fst (for_each
         [reading "Delhi" 24 "Rain" (day * 86400 + 3600);
          reading "Delhi" 31 "Clear" (day * 86400 + 43200);
          reading "Delhi" 25 "Rain" (day * 86400 + 50000);
          reading "Delhi" 29 "Clear" (day * 86400 + 82800)]
         (fun r => store_weather_data (Some r)) init).

End Sample.

(* ===================================================================== *)
(** * The configuration of [config.py] *)
(* ===================================================================== *)

Module Shipped.

Definition email : gmap string string :=
  list_to_map [("smtp_server", "smtp.gmail.com"); ("username", "username");
               ("password", "password"); ("from", "sender@gmail.com");
               ("to", "receiver@gmail.com")].

Definition config : WeatherConfig := {|
  api_key := "API-KEY-HERE";
  interval := 300;
  cities := ["Delhi"; "Mumbai"; "Chennai"; "Bangalore"; "Kolkata"; "Hyderabad"];
  temp_unit := "celsius";
  high_temp_threshold := 35%float;
  consecutive_alerts := 2;
  db_path := "weather_data.db";
  email_config := Some email
|}.

(** The same with other values of single fields. *)
Definition with_count (n : Z) (c : WeatherConfig) : WeatherConfig := {|
  api_key := api_key c; interval := interval c; cities := cities c;
  temp_unit := temp_unit c; high_temp_threshold := high_temp_threshold c;
  consecutive_alerts := n; db_path := db_path c;
  email_config := email_config c
|}.

Definition with_interval (n : Z) (c : WeatherConfig) : WeatherConfig := {|
  api_key := api_key c; interval := n; cities := cities c;
  temp_unit := temp_unit c; high_temp_threshold := high_temp_threshold c;
  consecutive_alerts := consecutive_alerts c; db_path := db_path c;
  email_config := email_config c
|}.

(** A world in which every request times out. *)
Definition outage : World := {|
  http_get := fun _ _ => Raise (OtherError "Read timed out");
  smtp_connect := fun _ _ => None;
  smtp_starttls := None;
  smtp_login := fun _ _ => None;
  smtp_send_message := fun _ => None;
  smtp_quit := None;
  now := {| dt_date := 739000; hour := 9; minute := 30; second := 12 |};
  pause := fun _ => None
|}.

(** A world in which every location reports 310 K (36.85 degrees Celsius)
    and the mail server accepts everything. *)
Definition heat : World := {|
  http_get := fun _ _ => Ok (Sample.payload 310 "Clear" (739000 * 86400 + 100));
  smtp_connect := fun _ _ => None;
  smtp_starttls := None;
  smtp_login := fun _ _ => None;
  smtp_send_message := fun _ => None;
  smtp_quit := None;
  now := {| dt_date := 739000; hour := 9; minute := 30; second := 12 |};
  pause := fun _ => None
|}.

(** A world in which every location answers with a timestamp of 2^63
    seconds. *)
Definition far_future : World := {|
  http_get := fun _ _ => Ok (Sample.payload 310 "Clear" 9223372036854775808);
  smtp_connect := fun _ _ => None;
  smtp_starttls := None;
  smtp_login := fun _ _ => None;
  smtp_send_message := fun _ => None;
  smtp_quit := None;
  now := {| dt_date := 739000; hour := 9; minute := 30; second := 12 |};
  pause := fun _ => None
|}.

End Shipped.

(* ===================================================================== *)
(** * The order of binary64 numbers

    [SFcompare] orders everything but NaN: it is antisymmetric and
    transitive, so [<=] is a total preorder away from NaN. *)

Module F64Order.

Lemma compare_cont_refl m : Pos.compare_cont Eq m m = Eq.
Proof. change (Pos.compare m m = Eq). apply Pos.compare_refl. Qed.

Lemma SFcompare_antisym x y :
  SFcompare y x = option_map CompOpp (SFcompare x y).
Proof.
  destruct x as [sx|sx| |sx mx ex], y as [sy|sy| |sy my ey]; simpl;
    try reflexivity;
    try (destruct sx; reflexivity);
    try (destruct sy; reflexivity);
    try (destruct sx, sy; reflexivity).
  destruct sx, sy; simpl; try reflexivity;
    rewrite (Z.compare_antisym ex ey);
    destruct (ex ?= ey)%Z eqn:E; simpl; try reflexivity;
    change (Pos.compare_cont Eq my mx) with (Pos.compare my mx);
    change (Pos.compare_cont Eq mx my) with (Pos.compare mx my);
    rewrite (Pos.compare_antisym mx my);
    destruct (mx ?= my)%positive; reflexivity.
Qed.

Lemma SFcompare_not_nan x y :
  F64.not_nan x -> F64.not_nan y -> exists c, SFcompare x y = Some c.
Proof.
  unfold F64.not_nan.
  destruct x as [sx|sx| |sx mx ex], y as [sy|sy| |sy my ey]; simpl;
    intros Hx Hy; try congruence; eauto.
Qed.

Lemma SFcompare_refl x : F64.not_nan x -> SFcompare x x = Some Eq.
Proof.
  unfold F64.not_nan. destruct x as [s|s| |s m e]; simpl; intros H;
    try congruence.
  - destruct s; reflexivity.
  - rewrite Z.compare_refl, compare_cont_refl. destruct s; reflexivity.
Qed.

(** [x > y] is false exactly when [x <= y], away from NaN. *)
Lemma SFltb_false_SFleb x y :
  F64.not_nan x -> F64.not_nan y -> SFltb y x = false <-> SFleb x y = true.
Proof.
  intros Hx Hy. unfold SFltb, SFleb. rewrite (SFcompare_antisym x y).
  destruct (SFcompare_not_nan x y Hx Hy) as [c ->].
  destruct c; simpl; split; congruence.
Qed.

Lemma SFleb_total x y :
  F64.not_nan x -> F64.not_nan y -> SFleb x y = true \/ SFleb y x = true.
Proof.
  intros Hx Hy. unfold SFleb. rewrite (SFcompare_antisym x y).
  destruct (SFcompare_not_nan x y Hx Hy) as [c ->].
  destruct c; simpl; auto.
Qed.

Lemma SFleb_trans x y z :
  SFleb x y = true -> SFleb y z = true -> SFleb x z = true.
Proof.
  unfold SFleb.
  destruct x as [sx|sx| |sx mx ex], y as [sy|sy| |sy my ey],
           z as [sz|sz| |sz mz ez]; simpl;
    try discriminate; try reflexivity;
    try (destruct sx; simpl; try discriminate; try reflexivity);
    try (destruct sy; simpl; try discriminate; try reflexivity);
    try (destruct sz; simpl; try discriminate; try reflexivity);
    change (Pos.compare_cont Eq mx my) with (Pos.compare mx my);
    change (Pos.compare_cont Eq my mz) with (Pos.compare my mz);
    change (Pos.compare_cont Eq mx mz) with (Pos.compare mx mz);
    destruct (Z.compare_spec ex ey), (Z.compare_spec ey ez),
             (Z.compare_spec ex ez);
    subst; simpl; try discriminate; try reflexivity; try lia;
    destruct (Pos.compare_spec mx my), (Pos.compare_spec my mz),
             (Pos.compare_spec mx mz);
    subst; simpl; try discriminate; try reflexivity; lia.
Qed.

Lemma SFleb_refl x : F64.not_nan x -> SFleb x x = true.
Proof. intros H. unfold SFleb. now rewrite SFcompare_refl. Qed.

Lemma is_nan_false x : PrimFloat.is_nan x = false -> F64.not_nan (Prim2SF x).
Proof.
  unfold PrimFloat.is_nan, F64.not_nan. rewrite FloatAxioms.eqb_spec. intros H E.
  rewrite E in H. discriminate H.
Qed.

Lemma gt_false_le a b :
  PrimFloat.is_nan a = false -> PrimFloat.is_nan b = false ->
  F64.gt a b = false <-> F64.le a b = true.
Proof.
  intros Ha Hb. unfold F64.gt, F64.le.
  rewrite FloatAxioms.ltb_spec, FloatAxioms.leb_spec.
  apply SFltb_false_SFleb; now apply is_nan_false.
Qed.

Lemma fle_refl a : PrimFloat.is_nan a = false -> F64.fle a a.
Proof.
  intros H. unfold F64.fle, F64.le. rewrite FloatAxioms.leb_spec.
  apply SFleb_refl. now apply is_nan_false.
Qed.

Lemma fle_trans a b c : F64.fle a b -> F64.fle b c -> F64.fle a c.
Proof.
  unfold F64.fle, F64.le. rewrite !FloatAxioms.leb_spec. apply SFleb_trans.
Qed.

Lemma fle_total a b :
  PrimFloat.is_nan a = false -> PrimFloat.is_nan b = false ->
  F64.fle a b \/ F64.fle b a.
Proof.
  intros Ha Hb. unfold F64.fle, F64.le. rewrite !FloatAxioms.leb_spec.
  apply SFleb_total; now apply is_nan_false.
Qed.

Lemma fold_fmax ys : forall y,
  Forall (fun t => PrimFloat.is_nan t = false) (y :: ys) ->
  In (fold_left F64.fmax ys y) (y :: ys) /\
  forall t, In t (y :: ys) -> F64.fle t (fold_left F64.fmax ys y).
Proof.
induction ys as [|x ys IH]; intros y Hall.
- simpl. split; [now left|]. intros t [<-|[]]. apply fle_refl.
  now inversion Hall.
- apply List.Forall_cons_iff in Hall as [Hy Hall].
  pose proof Hall as Hall'. apply List.Forall_cons_iff in Hall' as [Hx Hys].
  simpl. destruct (F64.le x y) eqn:E.
  + assert (F64.fmax y x = y) as ->.
    { unfold F64.fmax, F64.ge. change (PrimFloat.leb x y) with (F64.le x y).
      now rewrite E. }
    destruct (IH y ltac:(constructor; assumption)) as [Hin Hle].
    split.
    * destruct Hin as [<-|Hin]; [now left|right; right; exact Hin].
    * intros t [<-|[<-|Ht]].
      -- apply Hle. now left.
      -- apply (fle_trans _ y); [exact E|apply Hle; now left].
      -- apply Hle. now right.
  + assert (F64.fmax y x = x) as ->.
    { unfold F64.fmax, F64.ge. change (PrimFloat.leb x y) with (F64.le x y).
      now rewrite E. }
    destruct (IH x Hall) as [Hin Hle].
    split; [now right|].
    intros t [<-|Ht]; [|now apply Hle].
    apply (fle_trans _ x); [|apply Hle; now left].
    destruct (fle_total y x Hy Hx) as [H|H]; [exact H|].
    unfold F64.fle in H. congruence.
Qed.

Lemma fold_fmin ys : forall y,
  Forall (fun t => PrimFloat.is_nan t = false) (y :: ys) ->
  In (fold_left F64.fmin ys y) (y :: ys) /\
  forall t, In t (y :: ys) -> F64.fle (fold_left F64.fmin ys y) t.
Proof.
induction ys as [|x ys IH]; intros y Hall.
- simpl. split; [now left|]. intros t [<-|[]]. apply fle_refl.
  now inversion Hall.
- apply List.Forall_cons_iff in Hall as [Hy Hall].
  pose proof Hall as Hall'. apply List.Forall_cons_iff in Hall' as [Hx Hys].
  simpl. destruct (F64.le y x) eqn:E.
  + assert (F64.fmin y x = y) as -> by (unfold F64.fmin; now rewrite E).
    destruct (IH y ltac:(constructor; assumption)) as [Hin Hle].
    split.
    * destruct Hin as [<-|Hin]; [now left|right; right; exact Hin].
    * intros t [<-|[<-|Ht]].
      -- apply Hle. now left.
      -- apply (fle_trans _ y); [apply Hle; now left|exact E].
      -- apply Hle. now right.
  + assert (F64.fmin y x = x) as -> by (unfold F64.fmin; now rewrite E).
    destruct (IH x Hall) as [Hin Hle].
    split; [now right|].
    intros t [<-|Ht]; [|now apply Hle].
    apply (fle_trans _ x); [apply Hle; now left|].
    destruct (fle_total x y Hx Hy) as [H|H]; [exact H|].
    unfold F64.fle in H. congruence.
Qed.

End F64Order.

(* ===================================================================== *)
(** * Unit conversion: properties *)
(* ===================================================================== *)

Lemma convert_temperature_celsius cfg k :
  temp_unit cfg = "celsius" ->
  convert_temperature cfg k = (k - 273.15)%float.
Proof. intros H. unfold convert_temperature. rewrite H. reflexivity. Qed.

Lemma convert_temperature_other cfg k :
  temp_unit cfg <> "celsius" ->
  convert_temperature cfg k = ((k - 273.15) * 9 / 5 + 32)%float.
Proof.
  intros H. unfold convert_temperature.
  destruct (String.eqb_spec (temp_unit cfg) "celsius") as [E|_]; [contradiction|].
  reflexivity.
Qed.

(** C3: unit conversion depends on the configured unit and the input only
    and is the standard formula evaluated directly in binary64 (one
    subtraction for Celsius; then times 9, over 5, plus 32 for Fahrenheit),
    with no rounding to a number of decimals in between. For the input 300
    the Celsius result lies within 0.005 of 26.85 and the Fahrenheit result
    within 0.005 of 80.33 (in fact within 10^-12 of the exact formulas), and
    for the input 300.125 the results lie within 10^-12 of 26.975 and of
    80.555, which have three decimals. *)
Theorem convert_temperature_standard :
  (forall cfg k, temp_unit cfg = "celsius" ->
     convert_temperature cfg k = (k - 273.15)%float) /\
  (forall cfg k, temp_unit cfg = "fahrenheit" ->
     convert_temperature cfg k = ((k - 273.15) * 9 / 5 + 32)%float) /\
  (forall cfg, temp_unit cfg = "celsius" ->
     F64.within (convert_temperature cfg 300) (2685 # 100) (1 # 200) /\
     F64.within (convert_temperature cfg 300)
       (celsius_of_kelvin_exact 300) (1 # 10 ^ 12) /\
     F64.within (convert_temperature cfg 300.125)
       (celsius_of_kelvin_exact (300125 # 1000)) (1 # 10 ^ 12)) /\
  (forall cfg, temp_unit cfg = "fahrenheit" ->
     F64.within (convert_temperature cfg 300) (8033 # 100) (1 # 200) /\
     F64.within (convert_temperature cfg 300)
       (fahrenheit_of_celsius_exact (celsius_of_kelvin_exact 300)) (1 # 10 ^ 12) /\
     F64.within (convert_temperature cfg 300.125)
       (fahrenheit_of_celsius_exact (celsius_of_kelvin_exact (300125 # 1000)))
       (1 # 10 ^ 12)) /\
  (celsius_of_kelvin_exact 300 == 2685 # 100)%Q /\
  (fahrenheit_of_celsius_exact (celsius_of_kelvin_exact 300) == 8033 # 100)%Q /\
  (celsius_of_kelvin_exact (300125 # 1000) == 26975 # 1000)%Q /\
  (fahrenheit_of_celsius_exact (celsius_of_kelvin_exact (300125 # 1000))
   == 80555 # 1000)%Q.
Proof.
  split; [intros; now apply convert_temperature_celsius|].
  split.
  { intros cfg k H. apply convert_temperature_other. rewrite H. discriminate. }
  split.
  { intros cfg H. rewrite !convert_temperature_celsius by exact H.
    repeat split; vm_compute; discriminate. }
  split.
  { intros cfg H.
    rewrite !convert_temperature_other by (rewrite H; discriminate).
    repeat split; vm_compute; discriminate. }
  repeat split; reflexivity.
Qed.

(** The two conversions evaluated at 300 in the test configuration. *)
Lemma convert_temperature_standard_witness :
  F64.within (convert_temperature Sample.config 300) (2685 # 100) (1 # 200) /\
  F64.within
    (convert_temperature (Sample.with_unit "fahrenheit" Sample.config) 300)
    (8033 # 100) (1 # 200).
Proof.
  destruct convert_temperature_standard as (_ & _ & HC & HF & _).
  split.
  - exact (proj1 (HC Sample.config eq_refl)).
  - exact (proj1 (HF (Sample.with_unit "fahrenheit" Sample.config) eq_refl)).
Defined.

(* ===================================================================== *)
(** * The alert engine: step lemmas *)
(* ===================================================================== *)

Ltac unfold_monad :=
  cbv beta iota zeta delta
    [mbind M_bind bind mret M_ret ret raise modify get record logger
     try_except answer attempt dict_item counter_item unit_letter first_item
     smtp_session].

Lemma for_each_cons {A} (body : A -> M unit) x xs m :
  for_each (x :: xs) body m =
  match body x m with
  | (m', Ok _) => for_each xs body m'
  | (m', Raise e) => (m', Raise e)
  end.
Proof. reflexivity. Qed.

Lemma bind_run {A B} (c : M A) (k : A -> M B) m :
  (c ≫= k) m =
  match c m with
  | (m', Ok a) => k a m'
  | (m', Raise e) => (m', Raise e)
  end.
Proof. reflexivity. Qed.

Lemma for_each_cons_ignore {A B} (k : A -> M B) x xs m :
  for_each (x :: xs) (fun a => _ ← k a; ret tt) m =
  match k x m with
  | (m', Ok _) => for_each xs (fun a => _ ← k a; ret tt) m'
  | (m', Raise e) => (m', Raise e)
  end.
Proof.
rewrite for_each_cons, bind_run. destruct (k x m) as [m' [b|e]]; reflexivity.
Qed.

Lemma string_length_app (s1 s2 : string) :
  String.length (s1 +:+ s2) = (String.length s1 + String.length s2)%nat.
Proof. induction s1 as [|a s1 IH]; simpl; [reflexivity|now rewrite IH]. Qed.

Lemma counter_key_inj c1 c2 : counter_key c1 = counter_key c2 -> c1 = c2.
Proof.
  unfold counter_key. revert c2.
  induction c1 as [|a c1 IH]; intros [|b c2] H; simpl in H.
  - reflexivity.
  - exfalso. apply (f_equal String.length) in H. simpl in H.
    rewrite string_length_app in H. simpl in H. lia.
  - exfalso. apply (f_equal String.length) in H. simpl in H.
    rewrite string_length_app in H. simpl in H. lia.
  - injection H as -> H. f_equal. now apply IH.
Qed.

Section AlertEngine.

Variable rt : Runtime.
Variable cfg : WeatherConfig.
Variable w : World.

(** [send_email_alert] catches everything: it returns normally and
    touches only the log and the list of recorded mails. *)
Lemma send_email_alert_ok message m :
  exists errs mails,
    send_email_alert cfg w message m =
    ({| alert_counter := alert_counter m;
        weather_data := weather_data m;
        daily_summaries := daily_summaries m;
        log := (log m ++ errs)%list;
        sent := (sent m ++ mails)%list;
        calls := calls m |}, Ok tt).
Proof.
  unfold send_email_alert.
  destruct (email_enabled cfg) as [d|].
  2:{ exists [], []. unfold_monad. rewrite !app_nil_r. now destruct m. }
  unfold_monad.
  destruct (d !! "from") as [from|]; simpl.
  2:{ eexists [_], []. rewrite app_nil_r. reflexivity. }
  destruct (d !! "to") as [to|]; simpl.
  2:{ eexists [_], []. rewrite app_nil_r. reflexivity. }
  destruct (d !! "smtp_server") as [server|]; simpl.
  2:{ eexists [_], []. rewrite app_nil_r. reflexivity. }
  destruct (smtp_connect w server 587) as [e|]; simpl.
  { eexists [_], []. rewrite app_nil_r. reflexivity. }
  destruct (smtp_quit w) as [q|], (smtp_starttls w) as [e1|]; simpl;
    try (eexists [_], []; rewrite app_nil_r; reflexivity);
    destruct (d !! "username") as [username|]; simpl;
    try (eexists [_], []; rewrite app_nil_r; reflexivity);
    destruct (d !! "password") as [password|]; simpl;
    try (eexists [_], []; rewrite app_nil_r; reflexivity);
    destruct (smtp_login w username password) as [e2|]; simpl;
    try (eexists [_], []; rewrite app_nil_r; reflexivity);
    destruct (smtp_send_message w _) as [e3|]; simpl;
    try (eexists [_], []; rewrite app_nil_r; reflexivity).
  eexists [], [_]. rewrite app_nil_r. reflexivity.
Qed.

Lemma trigger_alert_ok message m :
  exists errs mails,
    trigger_alert cfg w message m =
    ({| alert_counter := alert_counter m;
        weather_data := weather_data m;
        daily_summaries := daily_summaries m;
        log := (log m ++ (WARNING, "ALERT: " +:+ message) :: errs)%list;
        sent := (sent m ++ mails)%list;
        calls := (calls m ++ [CallTrigger message])%list |}, Ok tt).
Proof.
  unfold trigger_alert.
  destruct (email_enabled cfg) as [d|] eqn:E.
  - unfold_monad. simpl.
    match goal with
    | |- context [send_email_alert cfg w message ?m'] =>
        destruct (send_email_alert_ok message m') as (errs & mails & ->)
    end.
    simpl. exists errs, mails. rewrite <- app_assoc. reflexivity.
  - unfold_monad. simpl. exists [], []. rewrite app_nil_r. reflexivity.
Qed.

(** A reading at or below the threshold: the counter is set to 0. *)
Lemma check_cool r m :
  breaching cfg r = false ->
  check_temperature_alert rt cfg w r m =
  (set_alert_counter (fun ac => <[counter_key (city r) := 0]> ac)
     (set_calls (fun l => (l ++ [CallCheck r])%list) m), Ok tt).
Proof.
  unfold breaching. intros H. unfold check_temperature_alert.
  unfold_monad. simpl. rewrite H. reflexivity.
Qed.

(** A breach that does not reach the required count: the counter is
    incremented and nothing else happens. *)
Lemma check_hot_quiet r m :
  breaching cfg r = true ->
  counter m (city r) + 1 < consecutive_alerts cfg ->
  check_temperature_alert rt cfg w r m =
  (set_alert_counter
     (fun ac => <[counter_key (city r) := counter m (city r) + 1]> ac)
     (set_calls (fun l => (l ++ [CallCheck r])%list) m), Ok tt).
Proof.
  unfold breaching, counter. intros H Hlt. unfold check_temperature_alert.
  unfold_monad. simpl. rewrite H. simpl. rewrite lookup_insert_eq.
  destruct (Z.leb_spec (consecutive_alerts cfg)
              (default 0 (alert_counter m !! counter_key (city r)) + 1));
    [lia|reflexivity].
Qed.

(** A breach that reaches the required count: one call of
    [trigger_alert], then the counter is set to 0, whatever the mail
    server answered. *)
Lemma check_hot_fire r m letter :
  breaching cfg r = true ->
  consecutive_alerts cfg <= counter m (city r) + 1 ->
  first_upper rt (temp_unit cfg) = Some letter ->
  exists errs mails,
    check_temperature_alert rt cfg w r m =
    ({| alert_counter := <[counter_key (city r) := 0]> (alert_counter m);
        weather_data := weather_data m;
        daily_summaries := daily_summaries m;
        log := (log m ++ (WARNING, "ALERT: " +:+ alert_message rt r letter)
                      :: errs)%list;
        sent := (sent m ++ mails)%list;
        calls := (calls m ++ [CallCheck r;
                    CallTrigger (alert_message rt r letter)])%list |},
     Ok tt).
Proof.
  unfold breaching, counter. intros H Hge Hu. unfold check_temperature_alert.
  unfold_monad.
  simpl. rewrite H. simpl. rewrite lookup_insert_eq.
  destruct (Z.leb_spec (consecutive_alerts cfg)
              (default 0 (alert_counter m !! counter_key (city r)) + 1));
    [|lia].
  rewrite Hu. simpl.
  match goal with
  | |- context [trigger_alert cfg w ?msg ?m'] =>
      destruct (trigger_alert_ok msg m') as (errs & mails & ->)
  end.
  exists errs, mails. unfold set_alert_counter, alert_message. simpl.
  rewrite insert_insert_eq, <- app_assoc. reflexivity.
Qed.

(** With an empty unit name the message cannot be built: [IndexError],
    raised before the counter is reset. *)
Lemma check_hot_no_unit r m :
  breaching cfg r = true ->
  consecutive_alerts cfg <= counter m (city r) + 1 ->
  temp_unit cfg = "" ->
  check_temperature_alert rt cfg w r m =
  (set_alert_counter
     (fun ac => <[counter_key (city r) := counter m (city r) + 1]> ac)
     (set_calls (fun l => (l ++ [CallCheck r])%list) m),
   Raise (IndexError "string index out of range")).
Proof.
  unfold breaching, counter. intros H Hge Hu. unfold check_temperature_alert.
  unfold_monad.
  simpl. rewrite H. simpl. rewrite lookup_insert_eq.
  destruct (Z.leb_spec (consecutive_alerts cfg)
              (default 0 (alert_counter m !! counter_key (city r)) + 1));
    [|lia].
  rewrite Hu. reflexivity.
Qed.

(** The first character of a unit name is missing only when the name is
    empty. *)
Lemma first_upper_none s : first_upper rt s = None -> s = "".
Proof.
  destruct s as [|a u]; [reflexivity|]. unfold first_upper.
  destruct (nat_of_ascii a <? 128)%nat; discriminate.
Qed.

End AlertEngine.

(* ===================================================================== *)
(** * Alert hysteresis with two consecutive breaches *)
(* ===================================================================== *)

Lemma fired_app m l :
  fired (set_calls (fun l0 => (l0 ++ l)%list) m)
  = (fired m + length (List.filter is_trigger l))%nat.
Proof. unfold fired. simpl. now rewrite List.filter_app, length_app. Qed.

Lemma fired_set_alert_counter f m : fired (set_alert_counter f m) = fired m.
Proof. reflexivity. Qed.

Lemma counter_set_calls f m c : counter (set_calls f m) c = counter m c.
Proof. reflexivity. Qed.

Lemma counter_set_same v m c :
  counter (set_alert_counter (fun ac => <[counter_key c := v]> ac) m) c = v.
Proof. unfold counter. simpl. now rewrite lookup_insert_eq. Qed.

Lemma counter_set_other v m c c' :
  c <> c' ->
  counter (set_alert_counter (fun ac => <[counter_key c := v]> ac) m) c'
  = counter m c'.
Proof.
  intros H. unfold counter. simpl. rewrite lookup_insert_ne; [reflexivity|].
  intros E. apply H. now apply counter_key_inj.
Qed.

Lemma feed_cons rt cfg w r rs m m' :
  check_temperature_alert rt cfg w r m = (m', Ok tt) ->
  feed rt cfg w (r :: rs) m = feed rt cfg w rs m'.
Proof. intros H. unfold feed. simpl. unfold_monad. now rewrite H. Qed.

Lemma unit_supported_letter rt cfg :
  unit_supported cfg ->
  exists letter, first_upper rt (temp_unit cfg) = Some letter.
Proof. intros [H|H]; rewrite H; eexists; reflexivity. Qed.

Section TwoConsecutive.

Variable rt : Runtime.
Variable cfg : WeatherConfig.
Variable w : World.
Variable c : string.
Hypothesis two : consecutive_alerts cfg = 2.
Hypothesis unit_ok : unit_supported cfg.

Lemma check_two r m :
  city r = c ->
  counter m c = 0 \/ counter m c = 1 ->
  exists m',
    check_temperature_alert rt cfg w r m = (m', Ok tt) /\
    (fired m', counter m' c) = hyst2 (fired m, counter m c) (breaching cfg r) /\
    (counter m' c = 0 \/ counter m' c = 1).
Proof.
  intros Hr Hc. destruct (breaching cfg r) eqn:Hb.
  - destruct Hc as [Hc|Hc].
    + pose proof (check_hot_quiet rt cfg w r m Hb) as Hq.
      rewrite Hr in Hq. rewrite Hq by lia.
      eexists; split; [reflexivity|].
      rewrite fired_set_alert_counter, fired_app, counter_set_same, Hc.
      simpl. split; [f_equal; lia|now right].
    + destruct (unit_supported_letter rt cfg unit_ok) as (letter & Hu).
      pose proof (check_hot_fire rt cfg w r m letter Hb) as Hf.
      rewrite Hr in Hf.
      destruct (Hf ltac:(lia) Hu) as (errs & mails & ->).
      eexists; split; [reflexivity|].
      unfold fired, counter at 1 3. simpl.
      rewrite lookup_insert_eq, List.filter_app, length_app. simpl.
      rewrite Hc. simpl. split; [f_equal; lia|now left].
  - rewrite (check_cool rt cfg w r m Hb), Hr.
    eexists; split; [reflexivity|].
    rewrite fired_set_alert_counter, fired_app, counter_set_same.
    simpl. split; [f_equal; lia|now left].
Qed.

Lemma feed_two rs : forall m,
  Forall (fun r => city r = c) rs ->
  counter m c = 0 \/ counter m c = 1 ->
  observe c (feed rt cfg w rs m)
  = let '(f, n) :=
      fold_left hyst2 (map (breaching cfg) rs) (fired m, counter m c) in
    (Ok tt, f, n).
Proof.
  induction rs as [|r rs IH]; intros m Hall Hc.
  - reflexivity.
  - apply List.Forall_cons_iff in Hall as [Hr Hrs].
    destruct (check_two r m Hr Hc) as (m' & Hstep & Hobs & Hc').
    rewrite (feed_cons _ _ _ _ _ _ _ Hstep), (IH m' Hrs Hc').
    simpl. now rewrite Hobs.
Qed.

End TwoConsecutive.

(** C1: with [consecutive_alerts = 2] (and one of the two documented unit
    names), for any location [c] whose counter is 0 (as in a fresh monitor)
    and readings of [c] at one fixed breaching temperature [t]: the first
    breaching reading fires no alert (counter 1); the second consecutive one
    fires exactly one alert and resets the counter to 0; a following
    non-breaching reading leaves the counter at 0 and fires nothing; after a
    non-breaching reading a single breach fires nothing and only the second
    breach in a row fires again, also when a breach preceded the
    non-breaching reading (no carry-over). *)
Theorem hysteresis_two_consecutive
    (rt : Runtime) (cfg : WeatherConfig) (w : World) (c : string) (t : float)
    (m0 : Monitor) (h1 h2 h3 h4 n : Reading) :
  consecutive_alerts cfg = 2 ->
  unit_supported cfg ->
  F64.gt t (high_temp_threshold cfg) = true ->
  Forall (fun h => city h = c /\ temperature h = t) [h1; h2; h3; h4] ->
  city n = c ->
  breaching cfg n = false ->
  counter m0 c = 0 ->
  let after rs := observe c (feed rt cfg w rs m0) in
  let f0 := fired m0 in
  after [h1] = (Ok tt, f0, 1) /\
  after [h1; h2] = (Ok tt, S f0, 0) /\
  after [h1; h2; n] = (Ok tt, S f0, 0) /\
  after [h1; h2; n; h3] = (Ok tt, S f0, 1) /\
  after [h1; h2; n; h3; h4] = (Ok tt, S (S f0), 0) /\
  after [h1; n; h2] = (Ok tt, f0, 1) /\
  after [h1; n; h2; h3] = (Ok tt, S f0, 0).
Proof.
  intros two unit_ok Ht Hhot Hn Hcool H0 after f0. subst after f0.
  repeat match goal with
         | H : Forall _ (_ :: _) |- _ => inversion H; clear H; subst
         | H : _ /\ _ |- _ => destruct H
         end.
  assert (Hb : forall h, temperature h = t -> breaching cfg h = true).
  { intros h E. unfold breaching. now rewrite E. }
  pose proof (fun rs HF =>
    feed_two rt cfg w (city n) two unit_ok rs m0 HF (or_introl H0)) as Hfeed.
  repeat split;
    (rewrite Hfeed by (repeat (apply List.Forall_cons || apply List.Forall_nil);
                       congruence));
    cbn [map];
    rewrite ?(Hb h1), ?(Hb h2), ?(Hb h3), ?(Hb h4), ?Hcool by assumption;
    simpl; rewrite H0; reflexivity.
Qed.

(** The scenario of the test suite: Delhi at 36 degrees against a threshold
    of 35, on a fresh monitor. *)
Lemma hysteresis_two_consecutive_witness :
  let after rs :=
    observe "Delhi" (feed Sample.runtime Sample.config Sample.world rs init) in
  after [Sample.hot] = (Ok tt, 0%nat, 1) /\
  after [Sample.hot; Sample.hot] = (Ok tt, 1%nat, 0) /\
  after [Sample.hot; Sample.hot; Sample.cool] = (Ok tt, 1%nat, 0) /\
  after [Sample.hot; Sample.hot; Sample.cool; Sample.hot] = (Ok tt, 1%nat, 1) /\
  after [Sample.hot; Sample.hot; Sample.cool; Sample.hot; Sample.hot]
    = (Ok tt, 2%nat, 0) /\
  after [Sample.hot; Sample.cool; Sample.hot] = (Ok tt, 0%nat, 1) /\
  after [Sample.hot; Sample.cool; Sample.hot; Sample.hot] = (Ok tt, 1%nat, 0).
Proof.
  apply (hysteresis_two_consecutive Sample.runtime Sample.config Sample.world
           "Delhi" 36%float init
           Sample.hot Sample.hot Sample.hot Sample.hot Sample.cool).
  - reflexivity.
  - left; reflexivity.
  - reflexivity.
  - repeat constructor.
  - reflexivity.
  - reflexivity.
  - reflexivity.
Defined.

(* ===================================================================== *)
(** * The counters are non-negative and reset in two situations only *)
(* ===================================================================== *)

(** The four ways a check can go. *)
Lemma check_cases rt cfg w r m :
  let n := counter m (city r) in
  let checked := set_calls (fun l => (l ++ [CallCheck r])%list) m in
  (breaching cfg r = false /\
   check_temperature_alert rt cfg w r m =
   (set_alert_counter (fun ac => <[counter_key (city r) := 0]> ac) checked,
    Ok tt)) \/
  (breaching cfg r = true /\ n + 1 < consecutive_alerts cfg /\
   check_temperature_alert rt cfg w r m =
   (set_alert_counter (fun ac => <[counter_key (city r) := n + 1]> ac) checked,
    Ok tt)) \/
  (breaching cfg r = true /\ consecutive_alerts cfg <= n + 1 /\
   check_temperature_alert rt cfg w r m =
   (set_alert_counter (fun ac => <[counter_key (city r) := n + 1]> ac) checked,
    Raise (IndexError "string index out of range"))) \/
  (breaching cfg r = true /\ consecutive_alerts cfg <= n + 1 /\
   exists m',
     check_temperature_alert rt cfg w r m = (m', Ok tt) /\
     alert_counter m' = <[counter_key (city r) := 0]> (alert_counter m) /\
     fired m' = S (fired m)).
Proof.
  intros n checked. subst n checked.
  destruct (breaching cfg r) eqn:Hb.
  2:{ left. split; [reflexivity|]. now apply check_cool. }
  right.
  destruct (Z.lt_ge_cases (counter m (city r) + 1) (consecutive_alerts cfg))
    as [Hlt|Hge].
  { left. repeat split; [assumption|]. now apply check_hot_quiet. }
  right.
  destruct (first_upper rt (temp_unit cfg)) as [letter|] eqn:Hu.
  2:{ left. repeat split; [assumption|].
      apply check_hot_no_unit; [assumption|assumption|].
      now apply (first_upper_none rt). }
  right. repeat split; [assumption|].
  destruct (check_hot_fire rt cfg w r m letter Hb Hge Hu) as (errs & mails & ->).
  eexists; split; [reflexivity|]. split; [reflexivity|].
  unfold fired. simpl. rewrite List.filter_app, length_app. simpl. lia.
Qed.

Lemma counters_nonneg_counter m c : counters_nonneg m -> 0 <= counter m c.
Proof.
  intros H. unfold counter.
  destruct (alert_counter m !! counter_key c) as [v|] eqn:E; simpl; [|lia].
  exact (H _ _ E).
Qed.

Lemma counters_nonneg_insert m k v :
  counters_nonneg m -> 0 <= v ->
  forall k' v', <[k := v]> (alert_counter m) !! k' = Some v' -> 0 <= v'.
Proof.
  intros H Hv k' v'. rewrite lookup_insert. case_decide.
  - intros [= <-]. exact Hv.
  - apply H.
Qed.

Lemma check_preserves_nonneg rt cfg w r m :
  counters_nonneg m ->
  counters_nonneg (fst (check_temperature_alert rt cfg w r m)).
Proof.
  intros H. pose proof (counters_nonneg_counter m (city r) H) as Hn.
  destruct (check_cases rt cfg w r m)
    as [(_ & ->)|[(_ & _ & ->)|[(_ & _ & ->)|(_ & _ & m' & -> & Hac & _)]]];
    unfold counters_nonneg; simpl; try rewrite Hac;
    apply counters_nonneg_insert; (assumption || lia).
Qed.

Lemma reachable_nonneg rt cfg m : reachable rt cfg m -> counters_nonneg m.
Proof.
  induction 1 as [|m w r _ IH].
  - intros k v. simpl. rewrite lookup_empty. discriminate.
  - now apply check_preserves_nonneg.
Qed.

(** Only the counter of the reading's own location is written. *)
Lemma check_other_counters rt cfg w r m k :
  k <> counter_key (city r) ->
  alert_counter (fst (check_temperature_alert rt cfg w r m)) !! k
  = alert_counter m !! k.
Proof.
  intros Hk.
  destruct (check_cases rt cfg w r m)
    as [(_ & ->)|[(_ & _ & ->)|[(_ & _ & ->)|(_ & _ & m' & -> & Hac & _)]]];
    simpl; try rewrite Hac; now rewrite lookup_insert_ne.
Qed.

(** After a check the location's counter is 0 exactly when the reading did
    not breach or an alert fired. *)
Lemma check_zero_iff rt cfg w r m :
  counters_nonneg m ->
  let m' := fst (check_temperature_alert rt cfg w r m) in
  counter m' (city r) = 0 <->
  breaching cfg r = false \/ fired m' = S (fired m).
Proof.
  intros H m'. subst m'.
  pose proof (counters_nonneg_counter m (city r) H) as Hn.
  destruct (check_cases rt cfg w r m)
    as [(Hb & ->)|[(Hb & _ & ->)|[(Hb & _ & ->)|(Hb & _ & m' & -> & Hac & Hf)]]];
    simpl.
  - rewrite counter_set_same. tauto.
  - rewrite counter_set_same, fired_set_alert_counter, fired_app. simpl.
    split; [lia|]. intros [E|E]; [congruence|lia].
  - rewrite counter_set_same, fired_set_alert_counter, fired_app. simpl.
    split; [lia|]. intros [E|E]; [congruence|lia].
  - unfold counter. rewrite Hac, lookup_insert_eq. simpl. tauto.
Qed.

(** C2: in every state the alert engine reaches from a fresh monitor, all
    counters are non-negative; and a check of a reading leaves the counter
    of the reading's location at zero exactly when the reading does not
    breach or an alert has just fired for it, where for numbers (neither the
    temperature nor the threshold is NaN) "does not breach" is
    [temperature <= high_temp_threshold]; the counters of the other
    locations are left as they were. *)
Theorem counters_nonneg_reset_exactly
    (rt : Runtime) (cfg : WeatherConfig) (m : Monitor) :
  reachable rt cfg m ->
  counters_nonneg m /\
  (forall c, 0 <= counter m c) /\
  forall (w : World) (r : Reading),
    let m' := fst (check_temperature_alert rt cfg w r m) in
    (counter m' (city r) = 0 <->
     breaching cfg r = false \/ fired m' = S (fired m)) /\
    (PrimFloat.is_nan (temperature r) = false ->
     PrimFloat.is_nan (high_temp_threshold cfg) = false ->
     (counter m' (city r) = 0 <->
      F64.le (temperature r) (high_temp_threshold cfg) = true
      \/ fired m' = S (fired m))) /\
    (forall c, c <> city r -> counter m' c = counter m c) /\
    counters_nonneg m'.
Proof.
  intros Hreach. pose proof (reachable_nonneg rt cfg m Hreach) as Hnn.
  split; [exact Hnn|].
  split; [intros c; now apply counters_nonneg_counter|].
  intros w r m'. subst m'.
  pose proof (check_zero_iff rt cfg w r m Hnn) as Hz. simpl in Hz.
  split; [exact Hz|]. split.
  - intros Ht Hthr. rewrite Hz. unfold breaching.
    now rewrite (F64Order.gt_false_le _ _ Ht Hthr).
  - split.
    + intros c Hc. unfold counter. rewrite check_other_counters; [reflexivity|].
      intros E. apply Hc. now apply counter_key_inj.
    + now apply check_preserves_nonneg.
Qed.

(** After one breaching reading for Delhi (counter 1), a second one fires
    and leaves the counter at 0. *)
Lemma counters_nonneg_reset_exactly_witness :
  let m :=
    fst (check_temperature_alert Sample.runtime Sample.config Sample.world
           Sample.hot init) in
  let m' :=
    fst (check_temperature_alert Sample.runtime Sample.config Sample.world
           Sample.hot m) in
  counters_nonneg m /\
  (counter m' "Delhi" = 0 <->
   breaching Sample.config Sample.hot = false \/ fired m' = S (fired m)).
Proof.
  destruct (counters_nonneg_reset_exactly Sample.runtime Sample.config _
              (reachable_check _ _ _ Sample.world Sample.hot
                 (reachable_init _ _))) as (Hnn & _ & Hstep).
  split; [exact Hnn|].
  exact (proj1 (Hstep Sample.world Sample.hot)).
Defined.

(* ===================================================================== *)
(** * pandas reductions: properties *)
(* ===================================================================== *)

Module SeriesFacts.

Import Series.

(** ** Sorting strings *)

Lemma sle_refl x : sle x x.
Proof. apply Is_true_true. exact (reflexivity (R := String.le) x). Qed.

Lemma sle_trans x y z : sle x y -> sle y z -> sle x z.
Proof.
  unfold sle. rewrite <- !Is_true_true.
  exact (transitivity (R := String.le) (x := x) (y := y) (z := z)).
Qed.

Lemma sle_total x y : sle x y \/ sle y x.
Proof. apply String.leb_total. Qed.

Lemma insert_sorted_In x l y :
  In y (insert_sorted x l) <-> y = x \/ In y l.
Proof.
  induction l as [|z l IH]; simpl.
  - intuition.
  - destruct (String.leb x z); simpl; [intuition|].
    rewrite IH. intuition.
Qed.

Lemma sort_In l y : In y (sort l) <-> In y l.
Proof.
  induction l as [|x l IH]; simpl; [reflexivity|].
  rewrite insert_sorted_In, IH. intuition.
Qed.

Lemma insert_sorted_sorted x l :
  StronglySorted sle l -> StronglySorted sle (insert_sorted x l).
Proof.
  induction 1 as [|z l Hs IH Hz]; simpl.
  - repeat constructor.
  - destruct (String.leb x z) eqn:E.
    + constructor; [now constructor|].
      constructor; [exact E|].
      eapply List.Forall_impl; [|exact Hz].
      intros a Ha. now apply (sle_trans x z a).
    + constructor; [exact IH|].
      apply List.Forall_forall. intros a Ha.
      apply insert_sorted_In in Ha as [->|Ha].
      * destruct (sle_total x z) as [H|H]; [unfold sle in H; congruence|exact H].
      * rewrite List.Forall_forall in Hz. now apply Hz.
Qed.

Lemma sort_sorted l : StronglySorted sle (sort l).
Proof.
  induction l as [|x l IH]; simpl; [constructor|].
  now apply insert_sorted_sorted.
Qed.

(** The first element of a sorted series is its least element. *)
Lemma sort_head_least l x rest :
  sort l = x :: rest -> forall y, In y l -> sle x y.
Proof.
  intros E y Hy. apply sort_In in Hy. rewrite E in Hy.
  pose proof (sort_sorted l) as Hs. rewrite E in Hs.
  apply StronglySorted_inv in Hs as [_ Hall].
  destruct Hy as [<-|Hy]; [apply sle_refl|].
  rewrite List.Forall_forall in Hall. now apply Hall.
Qed.

(** ** Counting *)

Lemma unique_In l y : In y (unique l) <-> In y l.
Proof.
  induction l as [|x l IH]; simpl; [reflexivity|].
  rewrite List.filter_In, IH.
  destruct (String.eqb_spec x y) as [->|Hne]; simpl; intuition congruence.
Qed.

Lemma max_count_ge_gen (f : string -> nat) l x :
  In x l -> (f x <= fold_right Nat.max 0%nat (map f l))%nat.
Proof.
  induction l as [|y l IH]; simpl; [tauto|].
  intros [->|H]; [lia|]. specialize (IH H). lia.
Qed.

Lemma max_count_ge l x : In x l -> (count x l <= max_count l)%nat.
Proof. apply (max_count_ge_gen (fun x => count x l)). Qed.

Lemma max_attained_gen (f : string -> nat) l :
  l <> [] -> exists x, In x l /\ f x = fold_right Nat.max 0%nat (map f l).
Proof.
  induction l as [|y l IH]; [congruence|]. intros _. simpl.
  destruct l as [|z l].
  - exists y. simpl. split; [now left|lia].
  - destruct (IH ltac:(discriminate)) as (x & Hx & Ex).
    destruct (Nat.le_ge_cases (f y) (fold_right Nat.max 0%nat (map f (z :: l))))
      as [H|H].
    + exists x. split; [now right|]. rewrite Ex. lia.
    + exists y. split; [now left|]. lia.
Qed.

Lemma max_count_attained l :
  l <> [] -> exists x, In x l /\ count x l = max_count l.
Proof. apply (max_attained_gen (fun x => count x l)). Qed.

(** ** The mode *)

Lemma mode_In l x :
  In x (mode l) <-> In x l /\ count x l = max_count l.
Proof.
  unfold mode. rewrite sort_In, List.filter_In, unique_In, Nat.eqb_eq.
  reflexivity.
Qed.

Lemma mode_nonempty l : l <> [] -> mode l <> [].
Proof.
  intros H E. destruct (max_count_attained l H) as (x & Hx & Hc).
  assert (Hin : In x (mode l)) by now apply mode_In.
  rewrite E in Hin. exact Hin.
Qed.

(** [mode()[0]]: a most frequent value, and the least of them. *)
Lemma mode_head l d rest :
  mode l = d :: rest ->
  In d l /\
  (forall x, (count x l <= count d l)%nat) /\
  (forall x, In x l -> count x l = count d l -> sle d x).
Proof.
  intros E.
  assert (Hd : In d (mode l)) by (rewrite E; now left).
  apply mode_In in Hd as [Hd Hc].
  split; [exact Hd|]. split.
  - intros x. destruct (in_dec string_dec x l) as [Hx|Hx].
    + rewrite Hc. now apply max_count_ge.
    + unfold count at 1. rewrite (proj1 (count_occ_not_In string_dec l x) Hx).
      lia.
  - intros x Hx Hcx. unfold mode in E.
    apply (sort_head_least _ _ _ E).
    apply List.filter_In. rewrite unique_In, Nat.eqb_eq. split; congruence.
Qed.

(** ** Reductions of a column without NaN *)

Lemma dropna_numbers xs : numbers xs -> dropna xs = xs.
Proof.
unfold dropna. induction 1 as [|x xs Hx _ IH]; simpl; [reflexivity|].
now rewrite Hx, IH.
Qed.

Lemma fillna_numbers xs : numbers xs -> fillna xs = xs.
Proof.
unfold fillna. induction 1 as [|x xs Hx _ IH]; simpl; [reflexivity|].
now rewrite Hx, IH.
Qed.

Lemma mean_numbers xs :
  xs <> [] -> numbers xs ->
  mean xs = (sum xs / F64.of_nat (length xs))%float.
Proof.
intros Hne H. unfold mean. rewrite dropna_numbers, fillna_numbers by exact H.
destruct xs; [congruence|reflexivity].
Qed.

(** ** The sum of a column *)

Lemma adds_snoc l s x : adds_up l s -> adds_up (l ++ [x])%list (s + x)%float.
Proof. intros H. apply adds_app; [exact H|apply adds_one]. Qed.

Lemma adds_fold tail : forall l s,
  adds_up l s -> adds_up (l ++ tail)%list (fold_left PrimFloat.add tail s).
Proof.
induction tail as [|x tail IH]; intros l s H; simpl.
- now rewrite app_nil_r.
- replace (l ++ x :: tail)%list with ((l ++ [x]) ++ tail)%list
    by now rewrite <- app_assoc.
  apply IH. now apply adds_snoc.
Qed.

Lemma adds_tree r l0 l1 l2 l3 l4 l5 l6 l7 :
  adds_up l0 (r0 r) -> adds_up l1 (r1 r) -> adds_up l2 (r2 r) ->
  adds_up l3 (r3 r) -> adds_up l4 (r4 r) -> adds_up l5 (r5 r) ->
  adds_up l6 (r6 r) -> adds_up l7 (r7 r) ->
  adds_up (((l0 ++ l1) ++ (l2 ++ l3)) ++ ((l4 ++ l5) ++ (l6 ++ l7)))%list
          (tree r).
Proof. intros. unfold tree. repeat apply adds_app; assumption. Qed.

Lemma accumulate_adds n : forall rest r l0 l1 l2 l3 l4 l5 l6 l7,
  (length rest <= n)%nat ->
  adds_up l0 (r0 r) -> adds_up l1 (r1 r) -> adds_up l2 (r2 r) ->
  adds_up l3 (r3 r) -> adds_up l4 (r4 r) -> adds_up l5 (r5 r) ->
  adds_up l6 (r6 r) -> adds_up l7 (r7 r) ->
  adds_up (l0 ++ l1 ++ l2 ++ l3 ++ l4 ++ l5 ++ l6 ++ l7 ++ rest)%list
          (let '(r', tail) := accumulate r rest in
           fold_left PrimFloat.add tail (tree r')).
Proof.
induction n as [|n IH]; intros rest r l0 l1 l2 l3 l4 l5 l6 l7 Hn
  H0 H1 H2 H3 H4 H5 H6 H7.
- destruct rest; [|simpl in Hn; lia]. simpl. rewrite app_nil_r.
  eapply adds_perm; [|apply (adds_tree r l0 l1 l2 l3 l4 l5 l6 l7); assumption].
  solve_Permutation.
- destruct rest as [|a0 [|a1 [|a2 [|a3 [|a4 [|a5 [|a6 [|a7 rest]]]]]]]];
    try (cbn [accumulate];
         eapply adds_perm;
           [|apply adds_fold;
             apply (adds_tree r l0 l1 l2 l3 l4 l5 l6 l7); assumption];
         solve_Permutation).
  cbn [accumulate].
  eapply adds_perm;
    [|apply (IH rest _ (l0 ++ [a0]) (l1 ++ [a1]) (l2 ++ [a2]) (l3 ++ [a3])
                (l4 ++ [a4]) (l5 ++ [a5]) (l6 ++ [a6]) (l7 ++ [a7]))%list;
      [simpl in Hn; lia|..]; cbn [r0 r1 r2 r3 r4 r5 r6 r7];
      apply adds_snoc; assumption].
  solve_Permutation.
Qed.

Lemma block_sum_adds xs : adds_up xs (block_sum xs).
Proof.
destruct xs as [|a0 [|a1 [|a2 [|a3 [|a4 [|a5 [|a6 [|a7 rest]]]]]]]];
  try (unfold block_sum;
       match goal with
       | |- adds_up ?l _ => change l with ([] ++ l)%list
       end;
       apply adds_fold, adds_nil).
unfold block_sum.
eapply adds_perm;
  [|apply (accumulate_adds (length rest) rest _ [a0] [a1] [a2] [a3] [a4] [a5]
             [a6] [a7]); [lia|..]; apply adds_one].
reflexivity.
Qed.

Lemma pairwise_sum_adds depth : forall xs, adds_up xs (pairwise_sum depth xs).
Proof.
induction depth as [|depth IH]; intros xs; simpl.
- apply block_sum_adds.
- destruct (length xs <=? 128)%nat; [apply block_sum_adds|].
  rewrite <- (firstn_skipn (half (length xs)) xs) at 1.
  apply adds_app; apply IH.
Qed.

(** The sum numpy computes is a sum of the values. *)
Lemma sum_adds xs : adds_up xs (sum xs).
Proof.
unfold sum. change xs with ([] ++ xs)%list at 1.
apply adds_app; [apply adds_nil|apply pairwise_sum_adds].
Qed.

(** Fewer than eight values are added from left to right. *)
Lemma sum_short xs :
  (length xs < 8)%nat ->
  sum xs = (0 + fold_left PrimFloat.add xs 0)%float.
Proof.
intros H. unfold sum.
assert (E : pairwise_sum (length xs) xs = block_sum xs).
{ destruct (length xs) as [|n] eqn:En; [reflexivity|].
  simpl. rewrite En.
  destruct (Nat.leb_spec (S n) 128); [reflexivity|lia]. }
rewrite E.
destruct xs as [|a0 [|a1 [|a2 [|a3 [|a4 [|a5 [|a6 [|a7 rest]]]]]]]];
  try reflexivity.
simpl in H. lia.
Qed.

(** The number of nested splits never exceeds the depth taken by [sum]:
    with any depth that is at least the length, [pairwise_sum] follows
    numpy's recursion. *)
Lemma half_bounds n : (128 < n)%nat -> (0 < half n < n)%nat.
Proof.
intros H. unfold half.
pose proof (Nat.mod_upper_bound (n / 2) 8 ltac:(lia)).
pose proof (Nat.div_mod_eq n 2).
pose proof (Nat.mod_upper_bound n 2 ltac:(lia)).
lia.
Qed.

Lemma pairwise_sum_depth d1 : forall d2 xs,
  (length xs <= d1)%nat -> (length xs <= d2)%nat ->
  pairwise_sum d1 xs = pairwise_sum d2 xs.
Proof.
induction d1 as [|d1 IH]; intros d2 xs H1 H2.
- destruct xs; [|simpl in H1; lia]. destruct d2; reflexivity.
- destruct d2 as [|d2].
  + destruct xs; [|simpl in H2; lia]. reflexivity.
  + simpl. destruct (Nat.leb_spec (length xs) 128) as [|Hbig]; [reflexivity|].
    pose proof (half_bounds (length xs) Hbig) as Hh.
    rewrite (IH d2 (firstn _ xs)), (IH d2 (skipn _ xs));
      rewrite ?length_firstn, ?length_skipn; try lia.
    reflexivity.
Qed.

Lemma sum_split xs :
  (128 < length xs)%nat ->
  sum xs
  = (0 + (pairwise_sum (half (length xs)) (firstn (half (length xs)) xs)
          + pairwise_sum (length xs - half (length xs))
              (skipn (half (length xs)) xs)))%float.
Proof.
intros Hbig. unfold sum.
pose proof (half_bounds (length xs) Hbig) as Hh.
destruct (length xs) as [|n] eqn:En; [lia|].
cbn [pairwise_sum]. rewrite En.
destruct (Nat.leb_spec (S n) 128); [lia|].
rewrite (pairwise_sum_depth n (half (S n)) (firstn _ xs)),
        (pairwise_sum_depth n (S n - half (S n)) (skipn _ xs));
  rewrite ?length_firstn, ?length_skipn, ?En; try lia.
reflexivity.
Qed.

Lemma max_numbers xs :
  xs <> [] -> numbers xs ->
  In (max xs) xs /\ forall t, In t xs -> F64.le t (max xs) = true.
Proof.
intros Hne H. unfold max. rewrite dropna_numbers by exact H.
destruct xs as [|y ys]; [congruence|]. now apply F64Order.fold_fmax.
Qed.

Lemma min_numbers xs :
  xs <> [] -> numbers xs ->
  In (min xs) xs /\ forall t, In t xs -> F64.le (min xs) t = true.
Proof.
intros Hne H. unfold min. rewrite dropna_numbers by exact H.
destruct xs as [|y ys]; [congruence|]. now apply F64Order.fold_fmin.
Qed.

(** The orders in which three rows can come. *)
Lemma permutation_of_three {A} (a b c : A) l :
  Permutation l [a; b; c] ->
  l = [a; b; c] \/ l = [a; c; b] \/ l = [b; a; c] \/
  l = [b; c; a] \/ l = [c; a; b] \/ l = [c; b; a].
Proof.
intros H.
apply Permutation_cons_inv_r in H as (k1 & k2 & -> & H).
symmetry in H.
apply Permutation_cons_inv_r in H as (j1 & j2 & E & H).
symmetry in H. apply Permutation_singleton_r in H.
destruct j1 as [|x [|? ?]], j2 as [|y [|? ?]]; simpl in H; try discriminate H;
  injection H as ->; simpl in E;
  destruct k1 as [|x1 [|x2 [|? ?]]]; simpl in E; try discriminate E;
  try (injection E as -> ->); try (injection E as -> E);
  subst; simpl; try discriminate; auto 10;
  try (destruct k2; discriminate).
Qed.

End SeriesFacts.

(* ===================================================================== *)
(** * The aggregator: step lemmas *)
(* ===================================================================== *)

Section Aggregator.

Variable rt : Runtime.

Lemma calculate_empty c d m :
  day_frame rt c d m = [] ->
  calculate_daily_summary rt c d m =
  (set_calls (fun l => (l ++ [CallSummary c d])%list) m, Ok None).
Proof.
  unfold day_frame. intros H. unfold calculate_daily_summary.
  unfold_monad. simpl. now rewrite H.
Qed.

Lemma calculate_some c d m :
  day_frame rt c d m <> [] ->
  exists dominant rest,
    Series.mode (map snd (day_frame rt c d m)) = dominant :: rest /\
    calculate_daily_summary rt c d m =
    (set_daily_summaries
       (fun t => (t ++ [summary_row (Z.of_nat (length t) + 1)
                          (summary_of rt c d (day_frame rt c d m) dominant)])%list)
       (set_calls (fun l => (l ++ [CallSummary c d])%list) m),
     Ok (Some (summary_of rt c d (day_frame rt c d m) dominant))).
Proof.
  unfold day_frame. intros H. unfold calculate_daily_summary.
  unfold_monad. simpl.
  destruct (read_sql_query c (start_of_day rt d) (end_of_day rt d)
              (weather_data m)) as [|x df] eqn:E; [congruence|].
  destruct (Series.mode (map snd (x :: df))) as [|dominant rest] eqn:Em.
  - exfalso. now apply (SeriesFacts.mode_nonempty (map snd (x :: df))).
  - exists dominant, rest. split; reflexivity.
Qed.

(** The aggregator never raises. *)
Lemma calculate_ok c d m :
  exists r, snd (calculate_daily_summary rt c d m) = Ok r.
Proof.
  destruct (day_frame rt c d m) as [|x df] eqn:E.
  - rewrite calculate_empty by exact E. now eexists.
  - destruct (calculate_some c d m) as (dom & rest & _ & ->);
      [rewrite E; discriminate|]. now eexists.
Qed.

(** It reads the readings and never writes them. *)
Lemma calculate_weather_data c d m :
  weather_data (fst (calculate_daily_summary rt c d m)) = weather_data m.
Proof.
  destruct (day_frame rt c d m) as [|x df] eqn:E.
  - now rewrite calculate_empty by exact E.
  - destruct (calculate_some c d m) as (dom & rest & _ & ->);
      [rewrite E; discriminate|]. reflexivity.
Qed.

Lemma read_sql_query_nil c lo hi t :
  (forall row, In row t -> wr_city row = c ->
               ~ (lo <= wr_timestamp row <= hi)) ->
  read_sql_query c lo hi t = [].
Proof.
  intros H. unfold read_sql_query.
  induction t as [|row t IH]; simpl; [reflexivity|].
  destruct (in_range c lo hi row) eqn:E.
  - exfalso. unfold in_range in E.
    apply andb_prop in E as [E Ehi]. apply andb_prop in E as [Ec Elo].
    apply String.eqb_eq in Ec. apply Z.leb_le in Elo, Ehi.
    apply (H row); [now left|exact Ec|lia].
  - apply IH. intros row' Hin. apply H. now right.
Qed.

End Aggregator.

(** C5: when no stored reading of the location has its timestamp in the
    day's query range, [calculate_daily_summary] returns [None] without
    raising, and the [daily_summaries] table (like the readings, the
    counters, the log and the mails) is left as it was. *)
Theorem calculate_daily_summary_no_data
    (rt : Runtime) (c : string) (d : Date) (m : Monitor) :
  (forall row, In row (weather_data m) -> wr_city row = c ->
     ~ (start_of_day rt d <= wr_timestamp row <= end_of_day rt d)) ->
  let '(m', result) := calculate_daily_summary rt c d m in
  result = Ok None /\
  daily_summaries m' = daily_summaries m /\
  weather_data m' = weather_data m /\
  alert_counter m' = alert_counter m /\
  log m' = log m /\
  sent m' = sent m.
Proof.
  intros H. rewrite calculate_empty.
  - repeat split; reflexivity.
  - unfold day_frame. now apply read_sql_query_nil.
Qed.

(** Delhi has readings on the sample day; Mumbai has none. *)
Lemma calculate_daily_summary_no_data_witness :
  let '(m', result) :=
    calculate_daily_summary Sample.runtime "Mumbai" Sample.day Sample.stored in
  result = Ok None /\
  daily_summaries m' = daily_summaries Sample.stored /\
  weather_data m' = weather_data Sample.stored /\
  alert_counter m' = alert_counter Sample.stored /\
  log m' = log Sample.stored /\
  sent m' = sent Sample.stored.
Proof.
  apply (calculate_daily_summary_no_data Sample.runtime "Mumbai" Sample.day
           Sample.stored).
  intros row Hin Hc. simpl in Hin.
  repeat destruct Hin as [<-|Hin]; try discriminate Hc. contradiction.
Defined.

(* ===================================================================== *)
(** * Repeated aggregation *)
(* ===================================================================== *)

Lemma day_frame_set_daily_summaries rt c d f m :
  day_frame rt c d (set_daily_summaries f m) = day_frame rt c d m.
Proof. reflexivity. Qed.

Lemma day_frame_set_calls rt c d f m :
  day_frame rt c d (set_calls f m) = day_frame rt c d m.
Proof. reflexivity. Qed.

Lemma summarise_times_rows rt c d df dominant rest n : forall m,
  day_frame rt c d m = df -> df <> [] ->
  Series.mode (map snd df) = dominant :: rest ->
  let '(m', result) := summarise_times rt c d n m in
  result = Ok tt /\
  weather_data m' = weather_data m /\
  daily_summaries m' =
  (daily_summaries m ++
   map (fun i => summary_row (Z.of_nat (length (daily_summaries m) + i) + 1)
                   (summary_of rt c d df dominant))
       (seq 0 n))%list.
Proof.
  induction n as [|n IH]; intros m Hdf Hne Hmode.
  - simpl. rewrite app_nil_r. repeat split; reflexivity.
  - unfold summarise_times in *. simpl. unfold_monad.
    destruct (calculate_some rt c d m) as (dom' & rest' & Hm' & ->);
      [now rewrite Hdf|].
    rewrite Hdf in Hm'. rewrite Hmode in Hm'. injection Hm' as <- <-.
    cbv beta iota.
    match goal with
    | |- context [for_each _ _ ?m1] =>
        specialize (IH m1); destruct (for_each _ _ m1) as [m' result]
    end.
    destruct IH as (-> & Hw & Hrows); [now rewrite Hdf|exact Hne|exact Hmode|].
    split; [reflexivity|]. split; [exact Hw|].
    rewrite Hrows. simpl. rewrite Hdf, <- app_assoc. simpl.
    rewrite Nat.add_0_r, <- List.seq_shift, List.map_map.
    do 2 f_equal.
    apply List.map_ext. intros i. rewrite length_app. simpl.
    do 3 f_equal. lia.
Qed.

(** C7: aggregation is not idempotent. When the location has at least one
    reading in the day's range, every invocation returns normally and
    appends one row to [daily_summaries], whatever rows the table already
    holds; after [n] invocations the table is the old one followed by [n]
    rows that carry the same summary and differ in their id only. *)
Theorem calculate_daily_summary_duplicates
    (rt : Runtime) (c : string) (d : Date) (m : Monitor) (n : nat) :
  day_frame rt c d m <> [] ->
  exists summary,
    (let '(m1, result) := calculate_daily_summary rt c d m in
     result = Ok (Some summary) /\
     daily_summaries m1 =
     (daily_summaries m
      ++ [summary_row (Z.of_nat (length (daily_summaries m)) + 1) summary])%list) /\
    (let '(m', result) := summarise_times rt c d n m in
     result = Ok tt /\
     length (daily_summaries m') = (length (daily_summaries m) + n)%nat /\
     daily_summaries m' =
     (daily_summaries m ++
      map (fun i => summary_row (Z.of_nat (length (daily_summaries m) + i) + 1)
                      summary)
          (seq 0 n))%list).
Proof.
  intros Hne.
  destruct (calculate_some rt c d m Hne) as (dominant & rest & Hmode & Hcalc).
  exists (summary_of rt c d (day_frame rt c d m) dominant). split.
  - rewrite Hcalc. split; reflexivity.
  - pose proof (summarise_times_rows rt c d _ dominant rest n m eq_refl Hne Hmode)
      as H.
    destruct (summarise_times rt c d n m) as [m' result].
    destruct H as (-> & _ & Hrows). split; [reflexivity|].
    split; [|exact Hrows].
    rewrite Hrows, length_app, length_map, length_seq. reflexivity.
Qed.

(** Three invocations for Delhi on the sample day leave three rows. *)
Lemma calculate_daily_summary_duplicates_witness :
  length (daily_summaries
            (fst (summarise_times Sample.runtime "Delhi" Sample.day 3
                    Sample.stored))) = 3%nat.
Proof.
destruct (calculate_daily_summary_duplicates Sample.runtime "Delhi" Sample.day
            Sample.stored 3) as (summary & _ & H).
- vm_compute. discriminate.
- destruct (summarise_times Sample.runtime "Delhi" Sample.day 3 Sample.stored)
    as [m' result].
  destruct H as (_ & H & _). exact H.
Defined.

(* ===================================================================== *)
(** * The statistics of a daily summary *)
(* ===================================================================== *)

Lemma test_frame_statistics df :
  Permutation df test_frame ->
  F64.within (Series.mean (map fst df)) (2767 # 100) (1 # 100) /\
  Series.max (map fst df) = 30%float /\
  Series.min (map fst df) = 25%float /\
  Series.mode (map snd df) = ["Clear"].
Proof.
intros H. apply SeriesFacts.permutation_of_three in H.
destruct H as [->|[->|[->|[->|[->| ->]]]]];
  (split; [vm_compute; split; discriminate|]);
  repeat split; vm_compute; reflexivity.
Qed.

(** The frame that the query returns holds the temperature and the
    condition of the location's rows of the day, in the order of the
    table. *)
Lemma day_rows_filter rt c d m :
  day_rows rt c d m
  = List.filter (in_range c (start_of_day rt d) (end_of_day rt d))
      (weather_data m).
Proof.
unfold day_rows. induction (weather_data m) as [|row t IH]; [reflexivity|].
rewrite filter_cons. simpl. rewrite IH.
destruct (decide (in_day rt c d row)) as [(Hc & Hlo & Hhi)|Hn].
- assert (E : in_range c (start_of_day rt d) (end_of_day rt d) row = true).
  { unfold in_range.
    now rewrite (proj2 (String.eqb_eq _ _) Hc), (proj2 (Z.leb_le _ _) Hlo),
      (proj2 (Z.leb_le _ _) Hhi). }
  now rewrite E.
- assert (E : in_range c (start_of_day rt d) (end_of_day rt d) row = false).
  { unfold in_range.
    destruct (String.eqb_spec (wr_city row) c);
      destruct (Z.leb_spec (start_of_day rt d) (wr_timestamp row));
      destruct (Z.leb_spec (wr_timestamp row) (end_of_day rt d));
      simpl; try reflexivity.
    exfalso. apply Hn. repeat split; assumption. }
  now rewrite E.
Qed.

Lemma day_frame_rows rt c d m :
  day_frame rt c d m
  = map (fun row => (wr_temperature row, wr_main_condition row))
      (day_rows rt c d m).
Proof. now rewrite day_rows_filter. Qed.

Lemma day_rows_In rt c d m row :
  In row (day_rows rt c d m) <->
  In row (weather_data m) /\ wr_city row = c /\
  start_of_day rt d <= wr_timestamp row <= end_of_day rt d.
Proof.
unfold day_rows. rewrite <- !list_elem_of_In, list_elem_of_filter.
unfold in_day. tauto.
Qed.

(** C4: the stored readings in range are the rows of the location whose
    timestamp lies between the first and the last second of the day, both
    included. When there is at least one, [calculate_daily_summary] returns
    a summary whose dominant condition is the condition of one of them and
    occurs among them at least as often as any other. When their
    temperatures are numbers, the maximum is the temperature of one of them
    and no smaller than any, the minimum is the temperature of one of them
    and no larger than any, and the average is a sum of their temperatures
    in binary64 (each added once, in the order and grouping numpy chooses:
    from left to right when there are fewer than eight) divided by their
    number. When the readings in range are (25.0, Clear), (30.0, Clear),
    (28.0, Clouds), in any order, the average is within 0.01 of 27.67, the
    maximum is 30.0, the minimum 25.0 and the dominant condition
    "Clear". *)
Theorem calculate_daily_summary_statistics
    (rt : Runtime) (c : string) (d : Date) (m : Monitor) :
  let rows := day_rows rt c d m in
  let temps := map wr_temperature rows in
  let conds := map wr_main_condition rows in
  (exists row,
     In row (weather_data m) /\ wr_city row = c /\
     start_of_day rt d <= wr_timestamp row <= end_of_day rt d) ->
  (forall row,
     In row rows <->
     In row (weather_data m) /\ wr_city row = c /\
     start_of_day rt d <= wr_timestamp row <= end_of_day rt d) /\
  exists summary,
    snd (calculate_daily_summary rt c d m) = Ok (Some summary) /\
    In (dominant_condition summary) conds /\
    (forall x, (count_occ string_dec conds x
                <= count_occ string_dec conds (dominant_condition summary))%nat) /\
    (Forall (fun t => PrimFloat.is_nan t = false) temps ->
     (exists s,
        Series.adds_up temps s /\
        avg_temp summary = (s / F64.of_nat (length temps))%float) /\
     ((length temps < 8)%nat ->
      avg_temp summary
      = ((0 + fold_left PrimFloat.add temps 0) / F64.of_nat (length temps))%float) /\
     In (max_temp summary) temps /\
     (forall t, In t temps -> F64.le t (max_temp summary) = true) /\
     In (min_temp summary) temps /\
     (forall t, In t temps -> F64.le (min_temp summary) t = true)) /\
    (Permutation
       (map (fun row => (wr_temperature row, wr_main_condition row)) rows)
       test_frame ->
     F64.within (avg_temp summary) (2767 # 100) (1 # 100) /\
     max_temp summary = 30%float /\
     min_temp summary = 25%float /\
     dominant_condition summary = "Clear").
Proof.
intros rows temps conds (row0 & Hrow0). subst rows temps conds.
split; [intros row; apply day_rows_In|].
assert (Hne : day_frame rt c d m <> []).
{ apply day_rows_In in Hrow0. rewrite day_frame_rows.
  destruct (day_rows rt c d m); [contradiction|discriminate]. }
assert (Et : map fst (day_frame rt c d m)
             = map wr_temperature (day_rows rt c d m)).
{ rewrite day_frame_rows, List.map_map. reflexivity. }
assert (Ec : map snd (day_frame rt c d m)
             = map wr_main_condition (day_rows rt c d m)).
{ rewrite day_frame_rows, List.map_map. reflexivity. }
destruct (calculate_some rt c d m Hne) as (dominant & rest & Hmode & Hcalc).
exists (summary_of rt c d (day_frame rt c d m) dominant).
rewrite Hcalc. split; [reflexivity|]. simpl.
destruct (SeriesFacts.mode_head _ _ _ Hmode) as (Hin & Hmax & _).
rewrite <- Et, <- Ec.
split; [exact Hin|]. split; [exact Hmax|]. split.
- intros Hnum.
  assert (Hne' : map fst (day_frame rt c d m) <> []).
  { destruct (day_frame rt c d m); [congruence|discriminate]. }
  destruct (SeriesFacts.max_numbers _ Hne' Hnum) as [Hmi Hml].
  destruct (SeriesFacts.min_numbers _ Hne' Hnum) as [Hni Hnl].
  rewrite (SeriesFacts.mean_numbers _ Hne' Hnum).
  split; [eexists; split; [apply SeriesFacts.sum_adds|reflexivity]|].
  split; [intros Hlen; now rewrite SeriesFacts.sum_short|].
  auto.
- rewrite <- day_frame_rows. intros Hperm.
  destruct (test_frame_statistics _ Hperm) as (Ha & Hmx & Hmn & Hmo).
  repeat split; try assumption; try apply Ha.
  rewrite Hmo in Hmode. now injection Hmode as <- _.
Qed.

(** The test suite's three readings of Delhi. *)
Lemma calculate_daily_summary_statistics_witness :
  exists summary,
    snd (calculate_daily_summary Sample.runtime "Delhi" Sample.day Sample.stored)
    = Ok (Some summary) /\
    F64.within (avg_temp summary) (2767 # 100) (1 # 100) /\
    max_temp summary = 30%float /\
    min_temp summary = 25%float /\
    dominant_condition summary = "Clear".
Proof.
destruct (calculate_daily_summary_statistics Sample.runtime "Delhi" Sample.day
            Sample.stored) as (_ & summary & Hs & _ & _ & _ & H).
- eexists. split; [left; reflexivity|]. split; [reflexivity|].
  vm_compute. split; discriminate.
- exists summary. split; [exact Hs|]. apply H. vm_compute.
  apply Permutation_refl.
Defined.

(** C10: the dominant condition is the first of the most frequent
    conditions in ascending order: it occurs at least as often as any other
    condition in range, and it is lexicographically no larger than any
    condition that occurs as often. *)
Theorem dominant_condition_tie_break
    (rt : Runtime) (c : string) (d : Date) (m : Monitor) :
  day_frame rt c d m <> [] ->
  let conds := map snd (day_frame rt c d m) in
  exists summary rest,
    snd (calculate_daily_summary rt c d m) = Ok (Some summary) /\
    Series.mode conds = dominant_condition summary :: rest /\
    StronglySorted (fun x y => String.leb x y = true) (Series.mode conds) /\
    (forall x, In x (Series.mode conds) <->
               In x conds /\ Series.count x conds = Series.max_count conds) /\
    In (dominant_condition summary) conds /\
    (forall x, (Series.count x conds
                <= Series.count (dominant_condition summary) conds)%nat) /\
    (forall x, In x conds ->
               Series.count x conds
               = Series.count (dominant_condition summary) conds ->
               String.leb (dominant_condition summary) x = true).
Proof.
intros Hne conds. subst conds.
destruct (calculate_some rt c d m Hne) as (dominant & rest & Hmode & Hcalc).
exists (summary_of rt c d (day_frame rt c d m) dominant), rest.
rewrite Hcalc. simpl. split; [reflexivity|]. split; [exact Hmode|].
split; [apply SeriesFacts.sort_sorted|].
split; [intros x; apply SeriesFacts.mode_In|].
exact (SeriesFacts.mode_head _ _ _ Hmode).
Qed.

(** Rain and Clear occur twice each: the summary says Clear. *)
Lemma dominant_condition_tie_break_witness :
  exists summary,
    snd (calculate_daily_summary Sample.runtime "Delhi" Sample.day Sample.tied)
    = Ok (Some summary) /\
    dominant_condition summary = "Clear" /\
    String.leb (dominant_condition summary) "Rain" = true.
Proof.
destruct (dominant_condition_tie_break Sample.runtime "Delhi" Sample.day
            Sample.tied) as (summary & rest & Hs & _ & _ & _ & _ & _ & Hle).
- vm_compute. discriminate.
- exists summary. split; [exact Hs|].
  assert (E : dominant_condition summary = "Clear").
  { vm_compute in Hs. now injection Hs as <-. }
  split; [exact E|].
  apply Hle; [vm_compute; tauto|]. rewrite E. reflexivity.
Defined.

(* ===================================================================== *)
(** * Alerts and the mail server *)
(* ===================================================================== *)

Lemma email_enabled_settings cfg (ms : MailSettings cfg) :
  email_enabled cfg = Some (ms_dict ms).
Proof.
unfold email_enabled. rewrite (ms_config cfg ms).
destruct (decide (ms_dict ms = ∅)) as [E|_]; [|reflexivity].
pose proof (ms_has_from cfg ms) as H. rewrite E, lookup_empty in H.
discriminate H.
Qed.

Lemma send_email_alert_settings cfg w (ms : MailSettings cfg) message m :
  send_email_alert cfg w message m =
  (match sink_failure w ms (alert_mail ms message) with
   | Some e =>
       set_log (fun l =>
         (l ++ [(ERROR, "Failed to send email alert: " +:+ str_exn e)])%list) m
   | None => set_sent (fun l => (l ++ [alert_mail ms message])%list) m
   end, Ok tt).
Proof.
unfold send_email_alert, sink_failure. rewrite (email_enabled_settings cfg ms).
unfold_monad.
rewrite (ms_has_from cfg ms), (ms_has_to cfg ms), (ms_has_server cfg ms).
cbv beta iota. fold (alert_mail ms message).
destruct (smtp_connect w (ms_server ms) 587) as [e|]; [reflexivity|].
rewrite (ms_has_username cfg ms), (ms_has_password cfg ms). cbv beta iota.
destruct (smtp_quit w) as [q|], (smtp_starttls w) as [e1|];
  try reflexivity;
  destruct (smtp_login w (ms_username ms) (ms_password ms)) as [e2|];
  try reflexivity;
  destruct (smtp_send_message w (alert_mail ms message)) as [e3|];
  reflexivity.
Qed.

Lemma trigger_alert_settings cfg w (ms : MailSettings cfg) message m :
  trigger_alert cfg w message m =
  (let m1 := set_log (fun l => (l ++ [(WARNING, "ALERT: " +:+ message)])%list)
               (set_calls (fun l => (l ++ [CallTrigger message])%list) m) in
   match sink_failure w ms (alert_mail ms message) with
   | Some e =>
       set_log (fun l =>
         (l ++ [(ERROR, "Failed to send email alert: " +:+ str_exn e)])%list) m1
   | None => set_sent (fun l => (l ++ [alert_mail ms message])%list) m1
   end, Ok tt).
Proof.
unfold trigger_alert. rewrite (email_enabled_settings cfg ms).
unfold_monad. now rewrite (send_email_alert_settings cfg w ms).
Qed.

(** A check that fires, step by step. *)
Lemma check_hot_fire_trigger rt cfg w r m letter :
  breaching cfg r = true ->
  consecutive_alerts cfg <= counter m (city r) + 1 ->
  first_upper rt (temp_unit cfg) = Some letter ->
  check_temperature_alert rt cfg w r m =
  (set_alert_counter (fun ac => <[counter_key (city r) := 0]> ac)
     (fst (trigger_alert cfg w (alert_message rt r letter)
             (set_alert_counter
                (fun ac => <[counter_key (city r) :=
                               default 0 (ac !! counter_key (city r)) + 1]> ac)
                (set_calls (fun l => (l ++ [CallCheck r])%list) m)))),
   Ok tt).
Proof.
unfold breaching, counter. intros H Hge Hu. unfold check_temperature_alert.
unfold_monad. simpl. rewrite H. simpl. rewrite lookup_insert_eq.
destruct (Z.leb_spec (consecutive_alerts cfg)
            (default 0 (alert_counter m !! counter_key (city r)) + 1)); [|lia].
rewrite Hu. simpl. fold (alert_message rt r letter).
match goal with
| |- context [trigger_alert cfg w ?msg ?m'] =>
    destruct (trigger_alert_ok cfg w msg m') as (errs & mails & E)
end.
rewrite E. reflexivity.
Qed.

(** With a documented unit name a check never raises. *)
Lemma check_never_fails rt cfg w r m :
  unit_supported cfg ->
  snd (check_temperature_alert rt cfg w r m) = Ok tt.
Proof.
intros Hu.
destruct (check_cases rt cfg w r m)
  as [(_ & ->)|[(_ & _ & ->)|[(Hb & Hge & _)|(_ & _ & m' & -> & _)]]];
  try reflexivity.
destruct (unit_supported_letter rt cfg Hu) as (letter & E).
destruct (check_hot_fire rt cfg w r m letter Hb Hge E) as (errs & mails & ->).
reflexivity.
Qed.

(** C8: with a documented unit name, [check_temperature_alert] never
    raises. When a breaching reading reaches the required count, one alert
    fires and the location's counter is 0 afterwards in every world, that
    is, whatever the mail server does; with a complete mail configuration,
    a failure of the mail server (while connecting, during STARTTLS, the
    login or the sending, or when the session is closed) is logged as an
    error after the alert's warning and no mail is recorded as sent, while a
    success records the mail; the counters are the same in both cases. *)
Theorem alert_reset_despite_sink_failure
    (rt : Runtime) (cfg : WeatherConfig) :
  unit_supported cfg ->
  (forall w r m, snd (check_temperature_alert rt cfg w r m) = Ok tt) /\
  (forall w r m,
     breaching cfg r = true ->
     consecutive_alerts cfg <= counter m (city r) + 1 ->
     let m' := fst (check_temperature_alert rt cfg w r m) in
     fired m' = S (fired m) /\
     counter m' (city r) = 0 /\
     alert_counter m' = <[counter_key (city r) := 0]> (alert_counter m) /\
     (forall w',
        alert_counter (fst (check_temperature_alert rt cfg w' r m))
        = alert_counter m') /\
     (forall (ms : MailSettings cfg),
      exists message,
        let mail := alert_mail ms message in
        match sink_failure w ms mail with
        | Some e =>
            log m' =
            (log m ++ [(WARNING, "ALERT: " +:+ message);
                       (ERROR, "Failed to send email alert: " +:+ str_exn e)])%list
            /\ sent m' = sent m
        | None =>
            log m' = (log m ++ [(WARNING, "ALERT: " +:+ message)])%list
            /\ sent m' = (sent m ++ [mail])%list
        end)).
Proof.
intros Hu. split; [intros; now apply check_never_fails|].
intros w r m Hb Hge m'. subst m'.
destruct (unit_supported_letter rt cfg Hu) as (letter & E).
assert (Hac : forall w0,
  alert_counter (fst (check_temperature_alert rt cfg w0 r m))
  = <[counter_key (city r) := 0]> (alert_counter m)).
{ intros w0.
  destruct (check_hot_fire rt cfg w0 r m letter Hb Hge E) as (errs & mails & ->).
  reflexivity. }
split.
{ destruct (check_hot_fire rt cfg w r m letter Hb Hge E) as (errs & mails & ->).
  unfold fired. simpl. rewrite List.filter_app, length_app. simpl. lia. }
split.
{ unfold counter. now rewrite Hac, lookup_insert_eq. }
split; [apply Hac|].
split; [intros w'; now rewrite !Hac|].
intros ms. exists (alert_message rt r letter).
rewrite (check_hot_fire_trigger rt cfg w r m letter Hb Hge E).
rewrite (trigger_alert_settings cfg w ms). simpl.
destruct (sink_failure w ms _) as [e|]; simpl;
  rewrite <- ?app_assoc; split; reflexivity.
Qed.

(** The mail server of the sample world refuses the connection: the second
    breaching reading of Delhi still fires and resets the counter, and the
    failure is logged. *)
Lemma alert_reset_despite_sink_failure_witness :
  let m :=
    fst (check_temperature_alert Sample.runtime Sample.mail_config Sample.world
           Sample.hot init) in
  let m' :=
    fst (check_temperature_alert Sample.runtime Sample.mail_config Sample.world
           Sample.hot m) in
  fired m' = S (fired m) /\
  counter m' "Delhi" = 0 /\
  exists message,
    log m' =
    (log m ++ [(WARNING, "ALERT: " +:+ message);
               (ERROR, "Failed to send email alert: Connection refused")])%list
    /\ sent m' = sent m.
Proof.
destruct (alert_reset_despite_sink_failure Sample.runtime Sample.mail_config
            (or_introl eq_refl)) as [_ H].
specialize (H Sample.world Sample.hot
              (fst (check_temperature_alert Sample.runtime Sample.mail_config
                      Sample.world Sample.hot init))
              eq_refl ltac:(vm_compute; discriminate)).
destruct H as (Hf & Hc & _ & _ & Hs).
split; [exact Hf|]. split; [exact Hc|].
destruct (Hs Sample.mail_settings) as [message Hm].
exists message. exact Hm.
Defined.

(* ===================================================================== *)
(** * One pass of the loop: what is called *)
(* ===================================================================== *)

Section Pass.

Variable rt : Runtime.
Variable cfg : WeatherConfig.
Variable w : World.

Lemma sample_city_failure c e m :
  request cfg w c = Raise e ->
  sample_city rt cfg w c m =
  (set_log (fun l => (l ++ [fetch_error c e])%list)
     (set_calls (fun l => (l ++ [CallFetch c])%list) m), Ok tt).
Proof.
unfold request. intros H. unfold sample_city, get_weather_data.
unfold_monad. simpl. rewrite H. reflexivity.
Qed.

Lemma storable_sqlite r : storable r <-> sqlite_integer (timestamp r) = true.
Proof.
unfold storable, sqlite_integer. rewrite andb_true_iff, Z.leb_le, Z.ltb_lt.
reflexivity.
Qed.

(** The row [store_weather_data] adds for a reading. *)
Lemma store_weather_data_some r m :
  storable r ->
  store_weather_data (Some r) m =
  (set_weather_data
     (fun t => (t ++ [{| wr_id := Z.of_nat (length t) + 1;
                         wr_city := city r;
                         wr_temperature := sqlite_real (temperature r);
                         wr_feels_like := sqlite_real (feels_like r);
                         wr_main_condition := main_condition r;
                         wr_timestamp := timestamp r |}])%list)
     (set_calls (fun l => (l ++ [CallStore r])%list) m), Ok tt).
Proof.
intros H. apply storable_sqlite in H. unfold store_weather_data.
rewrite H. reflexivity.
Qed.

(** A timestamp that does not fit in 64 bits: the INSERT raises and
    writes nothing. *)
Lemma store_weather_data_overflow r m :
  ~ storable r ->
  store_weather_data (Some r) m =
  (set_calls (fun l => (l ++ [CallStore r])%list) m,
   Raise (OverflowError "Python int too large to convert to SQLite INTEGER")).
Proof.
intros H. unfold store_weather_data.
destruct (sqlite_integer (timestamp r)) eqn:E; [|reflexivity].
now apply storable_sqlite in E.
Qed.

Lemma sample_city_answer c p m :
  request cfg w c = Ok p ->
  sample_city rt cfg w c m =
  (store_weather_data (Some (reading_of cfg c p));;
   check_temperature_alert rt cfg w (reading_of cfg c p))
    (set_calls (fun l => (l ++ [CallFetch c])%list) m).
Proof.
unfold request. intros H. unfold sample_city, get_weather_data.
rewrite bind_run. unfold_monad. simpl. rewrite H. reflexivity.
Qed.

Lemma sample_city_success c p m :
  request cfg w c = Ok p ->
  storable (reading_of cfg c p) ->
  sample_city rt cfg w c m =
  check_temperature_alert rt cfg w (reading_of cfg c p)
    (set_weather_data
       (fun t => (t ++ [{| wr_id := Z.of_nat (length t) + 1;
                           wr_city := c;
                           wr_temperature :=
                             sqlite_real (convert_temperature cfg (p_temp p));
                           wr_feels_like :=
                             sqlite_real
                               (convert_temperature cfg (p_feels_like p));
                           wr_main_condition := p_main p;
                           wr_timestamp := p_dt p |}])%list)
       (set_calls
          (fun l => (l ++ [CallFetch c; CallStore (reading_of cfg c p)])%list)
          m)).
Proof.
intros H Hs. rewrite (sample_city_answer c p m H), bind_run.
rewrite (store_weather_data_some _ _ Hs).
unfold set_calls, set_weather_data, reading_of. simpl.
rewrite <- app_assoc. reflexivity.
Qed.

(** An answer whose timestamp does not fit in 64 bits: the reading is
    handed to [store_weather_data], which raises; it is never checked. *)
Lemma sample_city_overflow c p m :
  request cfg w c = Ok p ->
  ~ storable (reading_of cfg c p) ->
  sample_city rt cfg w c m =
  (set_calls
     (fun l => (l ++ [CallFetch c; CallStore (reading_of cfg c p)])%list) m,
   Raise (OverflowError "Python int too large to convert to SQLite INTEGER")).
Proof.
intros H Hs. rewrite (sample_city_answer c p m H), bind_run.
rewrite (store_weather_data_overflow _ _ Hs).
unfold set_calls. simpl. rewrite <- app_assoc. reflexivity.
Qed.

(** A check adds its own call and, when it fires, the call of
    [trigger_alert]; it leaves the tables alone. *)
Lemma check_calls r m :
  exists extra,
    calls (fst (check_temperature_alert rt cfg w r m))
    = (calls m ++ CallCheck r :: extra)%list /\
    Forall (fun c => is_trigger c = true) extra /\
    weather_data (fst (check_temperature_alert rt cfg w r m)) = weather_data m /\
    daily_summaries (fst (check_temperature_alert rt cfg w r m))
    = daily_summaries m.
Proof.
destruct (breaching cfg r) eqn:Hb.
2:{ rewrite check_cool by exact Hb. exists []. repeat split. constructor. }
destruct (Z.lt_ge_cases (counter m (city r) + 1) (consecutive_alerts cfg))
  as [Hlt|Hge].
{ rewrite check_hot_quiet by assumption. exists []. repeat split. constructor. }
destruct (first_upper rt (temp_unit cfg)) as [letter|] eqn:Hu.
2:{ rewrite check_hot_no_unit
      by (try assumption; now apply (first_upper_none rt)).
    exists []. repeat split. constructor. }
destruct (check_hot_fire rt cfg w r m letter Hb Hge Hu) as (errs & mails & ->).
eexists [_]. simpl. repeat split. repeat constructor.
Qed.

Lemma flat_map_triggers {A} (f : Call -> list A) extra :
  (forall msg, f (CallTrigger msg) = []) ->
  Forall (fun c => is_trigger c = true) extra ->
  flat_map f extra = [].
Proof.
intros Hf. induction 1 as [|c extra Hc _ IH]; simpl; [reflexivity|].
destruct c; try discriminate Hc. now rewrite Hf, IH.
Qed.

(** One location of the fetch loop, with a documented unit name and an
    answer that the table can take. *)
Lemma sample_city_calls c m :
  unit_supported cfg ->
  Forall storable (readings cfg w [c]) ->
  let m' := fst (sample_city rt cfg w c m) in
  snd (sample_city rt cfg w c m) = Ok tt /\
  fetched m' = (fetched m ++ [c])%list /\
  stored m' = (stored m ++ readings cfg w [c])%list /\
  checked m' = (checked m ++ readings cfg w [c])%list /\
  summarised m' = summarised m /\
  map row_reading (weather_data m')
  = (map row_reading (weather_data m) ++ map kept (readings cfg w [c]))%list /\
  daily_summaries m' = daily_summaries m.
Proof.
intros Hu Hst m'. subst m'. revert Hst. unfold readings. simpl.
destruct (request cfg w c) as [p|e] eqn:E.
- intros Hst. apply List.Forall_cons_iff in Hst as [Hst _].
  rewrite (sample_city_success c p m E Hst).
  rewrite (check_never_fails rt cfg w _ _ Hu).
  match goal with
  | |- context [check_temperature_alert rt cfg w ?r ?m1] =>
      destruct (check_calls r m1) as (extra & Hc & Ht & Hw & Hd)
  end.
  unfold fetched, stored, checked, summarised.
  rewrite Hc, Hw, Hd. simpl.
  rewrite !flat_map_app. simpl.
  rewrite !(flat_map_triggers _ extra) by (intros; reflexivity || exact Ht).
  rewrite !app_nil_r, map_app. simpl. repeat split; reflexivity.
- intros _. rewrite (sample_city_failure c e m E).
  unfold fetched, stored, checked, summarised. simpl.
  rewrite !flat_map_app. simpl. rewrite !app_nil_r. repeat split.
Qed.

Lemma readings_cons c l :
  readings cfg w (c :: l) = (readings cfg w [c] ++ readings cfg w l)%list.
Proof. unfold readings. simpl. now rewrite app_nil_r. Qed.

(** The fetch loop over a list of locations. *)
Lemma fetch_loop_calls l : forall m,
  unit_supported cfg ->
  Forall storable (readings cfg w l) ->
  let m' := fst (for_each l (sample_city rt cfg w) m) in
  snd (for_each l (sample_city rt cfg w) m) = Ok tt /\
  fetched m' = (fetched m ++ l)%list /\
  stored m' = (stored m ++ readings cfg w l)%list /\
  checked m' = (checked m ++ readings cfg w l)%list /\
  summarised m' = summarised m /\
  map row_reading (weather_data m')
  = (map row_reading (weather_data m) ++ map kept (readings cfg w l))%list /\
  daily_summaries m' = daily_summaries m.
Proof.
induction l as [|c l IH]; intros m Hu Hst.
- simpl. rewrite !app_nil_r. repeat split.
- rewrite readings_cons in Hst. apply Forall_app in Hst as [Hst1 Hst2].
  destruct (sample_city_calls c m Hu Hst1) as (Ho & Hf & Hs & Hc & Hy & Hw & Hd).
  rewrite for_each_cons.
  destruct (sample_city rt cfg w c m) as [m1 o]. cbn [fst snd] in *. subst o.
  destruct (IH m1 Hu Hst2) as (Ho' & Hf' & Hs' & Hc' & Hy' & Hw' & Hd').
  rewrite readings_cons.
  rewrite Ho', Hf', Hs', Hc', Hy', Hw', Hd', Hf, Hs, Hc, Hy, Hw, Hd.
  rewrite map_app, <- !app_assoc. repeat split.
Qed.

(** The fetch loop never asks for a summary and never writes one, however
    it ends. *)
Lemma fetch_loop_summaries l : forall m,
  let m' := fst (for_each l (sample_city rt cfg w) m) in
  summarised m' = summarised m /\ daily_summaries m' = daily_summaries m.
Proof.
induction l as [|c l IH]; intros m; [split; reflexivity|].
rewrite for_each_cons.
assert (H : summarised (fst (sample_city rt cfg w c m)) = summarised m /\
            daily_summaries (fst (sample_city rt cfg w c m))
            = daily_summaries m).
{ destruct (request cfg w c) as [p|e] eqn:E.
  - destruct (sqlite_integer (timestamp (reading_of cfg c p))) eqn:Hs.
    + apply storable_sqlite in Hs.
      rewrite (sample_city_success c p m E Hs).
      match goal with
      | |- context [check_temperature_alert rt cfg w ?r ?m1] =>
          destruct (check_calls r m1) as (extra & Hc & Ht & _ & Hd)
      end.
      unfold summarised. rewrite Hc, Hd. simpl.
      rewrite !flat_map_app. simpl.
      rewrite (flat_map_triggers _ extra (fun _ => eq_refl) Ht).
      now rewrite !app_nil_r.
    + assert (Hn : ~ storable (reading_of cfg c p)).
      { intros Hst. apply storable_sqlite in Hst. congruence. }
      rewrite (sample_city_overflow c p m E Hn).
      unfold summarised. simpl. rewrite flat_map_app. simpl.
      now rewrite app_nil_r.
  - rewrite (sample_city_failure c e m E).
    unfold summarised. simpl. rewrite flat_map_app. simpl.
    now rewrite app_nil_r. }
destruct (sample_city rt cfg w c m) as [m1 [[]|e]]; cbn [fst snd] in *.
- destruct (IH m1) as [Hy Hd]. destruct H as [Hy1 Hd1].
  split; congruence.
- exact H.
Qed.

(** The summaries of the previous day. *)
Lemma summary_loop_calls d l : forall m,
  let k := for_each l (fun c => _ ← calculate_daily_summary rt c d; ret tt) in
  snd (k m) = Ok tt /\
  summarised (fst (k m)) = (summarised m ++ map (fun c => (c, d)) l)%list /\
  fetched (fst (k m)) = fetched m /\
  stored (fst (k m)) = stored m /\
  checked (fst (k m)) = checked m /\
  weather_data (fst (k m)) = weather_data m.
Proof.
induction l as [|c l IH]; intros m k; subst k.
- simpl. rewrite app_nil_r. repeat split.
- rewrite for_each_cons_ignore.
  assert (Hcalc : exists res,
    calculate_daily_summary rt c d m =
    (fst (calculate_daily_summary rt c d m), Ok res) /\
    calls (fst (calculate_daily_summary rt c d m))
    = (calls m ++ [CallSummary c d])%list /\
    weather_data (fst (calculate_daily_summary rt c d m)) = weather_data m).
  { destruct (day_frame rt c d m) as [|x df] eqn:E.
    - rewrite calculate_empty by exact E. eexists. repeat split.
    - destruct (calculate_some rt c d m) as (dom & rest & _ & ->);
        [rewrite E; discriminate|]. eexists. repeat split. }
  destruct Hcalc as (res & Hres & Hcalls & Hw). rewrite Hres.
  destruct (IH (fst (calculate_daily_summary rt c d m)))
    as (Ho & Hy & Hf & Hs & Hc & Hw').
  rewrite Ho, Hy, Hf, Hs, Hc, Hw', Hw.
  unfold summarised, fetched, stored, checked. rewrite Hcalls.
  rewrite !flat_map_app. simpl. rewrite !app_nil_r, <- app_assoc.
  repeat split.
Qed.

Lemma summarise_yesterday_calls m :
  snd (summarise_yesterday rt cfg w m) = Ok tt /\
  summarised (fst (summarise_yesterday rt cfg w m))
  = (summarised m ++ due cfg w)%list /\
  fetched (fst (summarise_yesterday rt cfg w m)) = fetched m /\
  stored (fst (summarise_yesterday rt cfg w m)) = stored m /\
  checked (fst (summarise_yesterday rt cfg w m)) = checked m.
Proof.
unfold summarise_yesterday, due, midnight.
destruct ((hour (now w) =? 0) && (minute (now w) =? 0)).
- destruct (summary_loop_calls (dt_date (now w) - 1) (cities cfg) m)
    as (Ho & Hy & Hf & Hs & Hc & _).
  repeat split; assumption.
- simpl. rewrite app_nil_r. repeat split.
Qed.

(** The pause: what it leaves behind and how it ends. *)
Lemma sleep_fields seconds m :
  weather_data (fst (sleep w seconds m)) = weather_data m /\
  daily_summaries (fst (sleep w seconds m)) = daily_summaries m /\
  alert_counter (fst (sleep w seconds m)) = alert_counter m /\
  log (fst (sleep w seconds m)) = log m /\
  sent (fst (sleep w seconds m)) = sent m /\
  ((snd (sleep w seconds m) = Ok tt /\
    calls (fst (sleep w seconds m)) = (calls m ++ [CallSleep seconds])%list) \/
   ((exists e, snd (sleep w seconds m) = Raise e) /\
    calls (fst (sleep w seconds m)) = calls m)).
Proof.
unfold sleep.
destruct ((seconds <? - time_limit) || (time_limit <? seconds)).
{ repeat split. right. split; [now eexists|reflexivity]. }
destruct (seconds <? 0).
{ repeat split. right. split; [now eexists|reflexivity]. }
rewrite bind_run. destruct (pause w seconds) as [e|]; simpl.
- repeat split. right. split; [now eexists|reflexivity].
- repeat split. left. split; reflexivity.
Qed.

Lemma sleep_granted seconds m :
  0 <= seconds <= time_limit -> pause w seconds = None ->
  sleep w seconds m
  = (set_calls (fun l => (l ++ [CallSleep seconds])%list) m, Ok tt).
Proof.
intros [H0 H1] Hp. unfold sleep.
destruct (Z.ltb_spec seconds (- time_limit));
  [unfold time_limit in *; lia|].
destruct (Z.ltb_spec time_limit seconds); [lia|].
destruct (Z.ltb_spec seconds 0); [lia|].
simpl. rewrite bind_run, Hp. reflexivity.
Qed.

Lemma sleep_calls seconds m :
  summarised (fst (sleep w seconds m)) = summarised m /\
  fetched (fst (sleep w seconds m)) = fetched m /\
  stored (fst (sleep w seconds m)) = stored m /\
  checked (fst (sleep w seconds m)) = checked m.
Proof.
destruct (sleep_fields seconds m) as (_ & _ & _ & _ & _ & [[_ Hc]|[_ Hc]]);
  unfold summarised, fetched, stored, checked; rewrite Hc;
  rewrite ?flat_map_app; simpl; rewrite ?app_nil_r; repeat split.
Qed.

(** One pass of the loop, with a documented unit name and answers that
    the table can take. *)
Lemma cycle_calls m :
  unit_supported cfg ->
  Forall storable (readings cfg w (cities cfg)) ->
  let m' := fst (cycle rt cfg w m) in
  fetched m' = (fetched m ++ cities cfg)%list /\
  stored m' = (stored m ++ readings cfg w (cities cfg))%list /\
  checked m' = (checked m ++ readings cfg w (cities cfg))%list /\
  summarised m' = (summarised m ++ due cfg w)%list /\
  (pause_granted cfg w -> snd (cycle rt cfg w m) = Ok tt).
Proof.
intros Hu Hst m'. subst m'. unfold cycle. rewrite !bind_run.
destruct (fetch_loop_calls (cities cfg) m Hu Hst)
  as (Ho & Hf & Hs & Hc & Hy & _).
destruct (for_each (cities cfg) (sample_city rt cfg w) m) as [m1 o1].
cbn [fst snd] in *. subst o1. rewrite bind_run.
destruct (summarise_yesterday_calls m1) as (Ho2 & Hy2 & Hf2 & Hs2 & Hc2).
destruct (summarise_yesterday rt cfg w m1) as [m2 o2].
cbn [fst snd] in *. subst o2.
destruct (sleep_calls (interval cfg) m2) as (Hy3 & Hf3 & Hs3 & Hc3).
rewrite Hy3, Hf3, Hs3, Hc3, Hy2, Hf2, Hs2, Hc2, Hy, Hf, Hs, Hc.
repeat split. intros [Hi Hp]. now rewrite (sleep_granted _ _ Hi Hp).
Qed.

(** Whatever the answers, a pass asks for the summaries that are due or
    for none: for none when it ends in the fetch loop. *)
Lemma cycle_summaries m :
  let m' := fst (cycle rt cfg w m) in
  summarised m' = (summarised m ++ due cfg w)%list \/
  (summarised m' = summarised m /\ daily_summaries m' = daily_summaries m).
Proof.
intros m'. subst m'. unfold cycle. rewrite !bind_run.
destruct (fetch_loop_summaries (cities cfg) m) as [Hy Hd].
destruct (for_each (cities cfg) (sample_city rt cfg w) m) as [m1 [[]|e]];
  cbn [fst snd] in *; [|right; split; assumption].
rewrite bind_run.
destruct (summarise_yesterday_calls m1) as (Ho2 & Hy2 & _).
destruct (summarise_yesterday rt cfg w m1) as [m2 o2].
cbn [fst snd] in *. subst o2.
destruct (sleep_calls (interval cfg) m2) as (Hy3 & _).
left. now rewrite Hy3, Hy2, Hy.
Qed.

End Pass.

Lemma iterate_calls rt cfg ws n : forall i m,
  unit_supported cfg -> runs_on cfg ws i n ->
  snd (iterate rt cfg ws i n m) = Ok tt /\
  summarised (fst (iterate rt cfg ws i n m))
  = (summarised m ++ flat_map (fun j => due cfg (ws j)) (seq i n))%list.
Proof.
induction n as [|n IH]; intros i m Hu Hr.
- simpl. rewrite app_nil_r. split; reflexivity.
- simpl iterate. rewrite bind_run.
  destruct (Hr i ltac:(lia)) as [Hst Hp].
  destruct (cycle_calls rt cfg (ws i) m Hu Hst) as (_ & _ & _ & Hy & Ho).
  specialize (Ho Hp).
  destruct (cycle rt cfg (ws i) m) as [m1 o1]. cbn [fst snd] in *. subst o1.
  destruct (IH (S i) m1 Hu) as [Ho' Hy'].
  { intros j Hj. apply Hr. lia. }
  rewrite Ho', Hy', Hy. simpl. now rewrite <- app_assoc.
Qed.

(** C9: a pass of the loop reads the clock once, after the fetch loop, and
    compares its hour and minute with 0 (whatever the seconds). When the
    comparison succeeds the aggregator is invoked for the previous date,
    once for each configured location, in order; when it fails the
    aggregator is not invoked at all and no summary is written. Nothing in
    [run] catches what [store_weather_data] raises, so the clock is reached
    when every answer of the pass can be stored (timestamps of 64 bits) and
    the unit name is a documented one; in any case a pass invokes the
    aggregator as said or not at all. Over the first [n] passes of [run],
    when also each pause is granted, the invocations are those of each pass
    in turn. *)
Theorem daily_aggregation_trigger (rt : Runtime) (cfg : WeatherConfig) :
  unit_supported cfg ->
  (forall w m,
     let m' := fst (cycle rt cfg w m) in
     (Forall storable (readings cfg w (cities cfg)) ->
      hour (now w) = 0 /\ minute (now w) = 0 ->
      summarised m'
      = (summarised m
         ++ map (fun c => (c, dt_date (now w) - 1)) (cities cfg))%list) /\
     (~ (hour (now w) = 0 /\ minute (now w) = 0) ->
      summarised m' = summarised m /\
      daily_summaries m' = daily_summaries m) /\
     (summarised m' = summarised m \/
      (hour (now w) = 0 /\ minute (now w) = 0 /\
       summarised m'
       = (summarised m
          ++ map (fun c => (c, dt_date (now w) - 1)) (cities cfg))%list))) /\
  (forall ws n m,
     runs_on cfg ws 0 n ->
     summarised (fst (run rt cfg ws n m))
     = (summarised m ++ flat_map (fun i => due cfg (ws i)) (seq 0 n))%list).
Proof.
intros Hu. split.
2:{ intros ws n m Hr. unfold run. rewrite bind_run. unfold logger, modify.
    cbv beta iota.
    now rewrite (proj2 (iterate_calls rt cfg ws n 0%nat _ Hu Hr)). }
intros w m m'. subst m'. split; [|split].
- intros Hst [H0 H1].
  destruct (cycle_calls rt cfg w m Hu Hst) as (_ & _ & _ & Hy & _).
  rewrite Hy. unfold due. now rewrite H0, H1.
- intros Hn.
  assert (E : (hour (now w) =? 0) && (minute (now w) =? 0) = false).
  { apply andb_false_iff.
    destruct (Z.eqb_spec (hour (now w)) 0), (Z.eqb_spec (minute (now w)) 0);
      auto. tauto. }
  unfold cycle, summarise_yesterday, midnight. rewrite E, !bind_run.
  destruct (fetch_loop_summaries rt cfg w (cities cfg) m) as [Hy Hd].
  destruct (for_each (cities cfg) (sample_city rt cfg w) m) as [m1 [[]|e]];
    cbn [fst snd] in *; [|split; assumption].
  rewrite bind_run. unfold mret, M_ret, ret.
  destruct (sleep_calls w (interval cfg) m1) as (Hy3 & _).
  destruct (sleep_fields w (interval cfg) m1) as (_ & Hd3 & _).
  split; congruence.
- destruct (cycle_summaries rt cfg w m) as [Hy|[Hy _]]; [|now left].
  unfold due in Hy.
  destruct (Z.eqb_spec (hour (now w)) 0) as [H0|H0];
    [destruct (Z.eqb_spec (minute (now w)) 0) as [H1|H1]|];
    simpl in Hy; rewrite ?app_nil_r in Hy; try (now left).
  right. repeat split; assumption.
Qed.

(** At 00:00:00 of day 739000 both cities are summarised for day 738999;
    at 12:15 none is. *)
Lemma daily_aggregation_trigger_witness :
  summarised
    (fst (cycle Sample.runtime Sample.config
            (Sample.at_time 0 0 Sample.world) init))
  = [("Delhi", 738999); ("Mumbai", 738999)] /\
  summarised (fst (cycle Sample.runtime Sample.config Sample.world init)) = [].
Proof.
destruct (daily_aggregation_trigger Sample.runtime Sample.config
            (or_introl eq_refl)) as [H _].
split.
- refine (proj1 (H (Sample.at_time 0 0 Sample.world) init) _
            (conj eq_refl eq_refl)).
  repeat constructor; vm_compute; discriminate.
- refine (proj1 (proj1 (proj2 (H Sample.world init)) _)).
  intros [E _]. discriminate E.
Defined.

(* ===================================================================== *)
(** * Fetch isolation *)
(* ===================================================================== *)

(** ** The methods only append to the log and to the history

    [prepend L C m] is [m] with [L] before its log and [C] before its
    history of calls. A computation is framed when running it after
    [prepend] is running it and then prepending: it never reads the log
    or the history. *)

Lemma framed_ret {A} (a : A) : framed (mret a).
Proof. intros L C m. reflexivity. Qed.

Lemma framed_raise {A} (e : Exn) : framed (@raise A e).
Proof. intros L C m. reflexivity. Qed.

Lemma framed_bind {A B} (c : M A) (k : A -> M B) :
  framed c -> (forall a, framed (k a)) -> framed (c ≫= k).
Proof.
intros Hc Hk L C m. rewrite !bind_run, Hc.
destruct (c m) as [m' [a|e]]; simpl; [apply Hk|reflexivity].
Qed.

Lemma framed_try_except {A} (c : M A) (h : Exn -> M A) :
  framed c -> (forall e, framed (h e)) -> framed (try_except c h).
Proof.
intros Hc Hh L C m. unfold try_except. rewrite Hc.
destruct (c m) as [m' [a|e]]; simpl; [reflexivity|apply Hh].
Qed.

Lemma framed_modify (f : Monitor -> Monitor) :
  (forall L C m, f (prepend L C m) = prepend L C (f m)) -> framed (modify f).
Proof. intros H L C m. unfold modify. simpl. now rewrite H. Qed.

Lemma framed_logger lvl msg : framed (logger lvl msg).
Proof.
apply framed_modify. intros L C m. unfold prepend, set_log. simpl.
now rewrite app_assoc.
Qed.

Lemma framed_record c : framed (record c).
Proof.
apply framed_modify. intros L C m. unfold prepend, set_calls. simpl.
now rewrite app_assoc.
Qed.

Lemma framed_answer {A} (o : outcome A) : framed (answer o).
Proof. destruct o; [apply framed_ret|apply framed_raise]. Qed.

Lemma framed_attempt o : framed (attempt o).
Proof. destruct o; [apply framed_raise|apply framed_ret]. Qed.

Lemma framed_dict_item d k : framed (dict_item d k).
Proof. unfold dict_item. destruct (d !! k); [apply framed_ret|apply framed_raise]. Qed.

Lemma framed_counter_item k : framed (counter_item k).
Proof.
intros L C m. unfold counter_item. rewrite !bind_run. unfold get. simpl.
destruct (alert_counter m !! k); reflexivity.
Qed.

Lemma framed_for_each {A} (body : A -> M unit) xs :
  (forall x, framed (body x)) -> framed (for_each xs body).
Proof.
intros H. induction xs as [|x xs IH]; simpl.
- apply framed_ret.
- apply framed_bind; [apply H|intros _; exact IH].
Qed.

Create HintDb framed.
#[local] Hint Resolve framed_ret framed_raise framed_logger framed_record
  framed_answer framed_attempt framed_dict_item framed_counter_item : framed.

Ltac framed_step :=
  first [ apply framed_bind; [|intros ?]
        | apply framed_try_except; [|intros ?]
        | apply framed_modify; intros ? ? ?; reflexivity
        | solve [auto with framed] ].

Section Framed.

Variable rt : Runtime.
Variable cfg : WeatherConfig.
Variable w : World.

Lemma framed_smtp_session {A} (body : M A) :
  framed body -> framed (smtp_session w body).
Proof.
intros Hb L C m. unfold smtp_session. rewrite Hb.
destruct (body m) as [m' o], (smtp_quit w); reflexivity.
Qed.

Lemma framed_send_email_alert message : framed (send_email_alert cfg w message).
Proof.
unfold send_email_alert. destruct (email_enabled cfg); [|apply framed_ret].
repeat first [apply framed_smtp_session | framed_step].
Qed.

Lemma framed_trigger_alert message : framed (trigger_alert cfg w message).
Proof.
unfold trigger_alert. repeat framed_step.
destruct (email_enabled cfg); [apply framed_send_email_alert|apply framed_ret].
Qed.

Lemma framed_unit_letter : framed (unit_letter rt cfg).
Proof.
unfold unit_letter.
destruct (first_upper rt (temp_unit cfg)); [apply framed_ret|apply framed_raise].
Qed.

Lemma framed_check_temperature_alert r :
  framed (check_temperature_alert rt cfg w r).
Proof.
unfold check_temperature_alert. apply framed_bind; [apply framed_record|].
intros _. destruct (F64.gt _ _).
- apply framed_bind; [framed_step|]. intros _.
  apply framed_bind; [apply framed_counter_item|]. intros n.
  destruct (consecutive_alerts cfg <=? n); [|apply framed_ret].
  apply framed_bind; [apply framed_unit_letter|]. intros letter.
  apply framed_bind; [apply framed_trigger_alert|]. intros _.
  framed_step.
- framed_step.
Qed.

Lemma framed_get_weather_data c : framed (get_weather_data cfg w c).
Proof. unfold get_weather_data. repeat framed_step. Qed.

Lemma framed_store_weather_data data : framed (store_weather_data data).
Proof.
unfold store_weather_data. destruct data as [r|]; [|apply framed_ret].
apply framed_bind; [apply framed_record|]. intros _.
destruct (sqlite_integer (timestamp r)); repeat framed_step.
Qed.

Lemma framed_sample_city c : framed (sample_city rt cfg w c).
Proof.
unfold sample_city. apply framed_bind; [apply framed_get_weather_data|].
intros [r|]; [|apply framed_ret].
apply framed_bind; [apply framed_store_weather_data|].
intros _. apply framed_check_temperature_alert.
Qed.

End Framed.

(** ** Forgetting the failed fetch *)

Lemma prepend_strip m : prepend (log m) (calls m) (strip m) = m.
Proof. destruct m. unfold prepend, strip. simpl. now rewrite !app_nil_r. Qed.

Lemma forget_strip c entry m1 m2 :
  forget c entry m1 = forget c entry m2 -> strip m1 = strip m2.
Proof.
destruct m1, m2. unfold forget, strip. simpl. intros [= -> -> -> _ -> _].
reflexivity.
Qed.

Lemma forget_prepend c entry L1 C1 L2 C2 m :
  List.filter (not_entry entry) L1 = List.filter (not_entry entry) L2 ->
  List.filter (not_fetch c) C1 = List.filter (not_fetch c) C2 ->
  forget c entry (prepend L1 C1 m) = forget c entry (prepend L2 C2 m).
Proof.
intros HL HC. unfold forget, prepend, set_log, set_calls. simpl.
now rewrite !List.filter_app, HL, HC.
Qed.

(** A framed computation cannot tell two monitors apart that differ in
    forgotten records only. *)
Lemma framed_forget {A} (k : M A) c entry m1 m2 :
  framed k ->
  forget c entry m1 = forget c entry m2 ->
  snd (k m1) = snd (k m2) /\
  forget c entry (fst (k m1)) = forget c entry (fst (k m2)).
Proof.
intros Hk H. pose proof (forget_strip _ _ _ _ H) as Hs.
rewrite <- (prepend_strip m1), <- (prepend_strip m2), !Hk, Hs. simpl.
split; [reflexivity|].
apply forget_prepend.
- apply (f_equal log) in H. exact H.
- apply (f_equal calls) in H. exact H.
Qed.

Lemma not_entry_self entry : not_entry entry entry = false.
Proof.
destruct entry as [[] msg]; unfold not_entry; simpl;
  now rewrite String.eqb_refl.
Qed.

(** The fetch loop with and without a location whose fetch fails. *)
Lemma fetch_loop_without rt cfg w c e l : forall m1 m2,
  request cfg w c = Raise e ->
  forget c (fetch_error c e) m1 = forget c (fetch_error c e) m2 ->
  snd (for_each l (sample_city rt cfg w) m1)
  = snd (for_each (without c l) (sample_city rt cfg w) m2) /\
  forget c (fetch_error c e) (fst (for_each l (sample_city rt cfg w) m1))
  = forget c (fetch_error c e)
      (fst (for_each (without c l) (sample_city rt cfg w) m2)).
Proof.
induction l as [|c' l IH]; intros m1 m2 He H.
- simpl. split; [reflexivity|exact H].
- rewrite for_each_cons. unfold without. simpl List.filter.
  fold (without c l).
  destruct (String.eqb_spec c' c) as [->|Hne]; simpl negb; cbv iota.
  + rewrite (sample_city_failure rt cfg w c e m1 He).
    apply IH; [exact He|]. rewrite <- H.
    unfold forget, set_log, set_calls. simpl.
    rewrite !List.filter_app. simpl.
    rewrite not_entry_self, String.eqb_refl. simpl.
    now rewrite !app_nil_r.
  + rewrite for_each_cons.
    destruct (framed_forget (sample_city rt cfg w c') c (fetch_error c e) m1 m2
                (framed_sample_city rt cfg w c') H) as [Ho Hf].
    destruct (sample_city rt cfg w c' m1) as [m1' o1],
             (sample_city rt cfg w c' m2) as [m2' o2].
    cbn [fst snd] in *. subst o2.
    destruct o1 as [[]|e']; [now apply IH|]. split; [reflexivity|exact Hf].
Qed.

Lemma readings_without cfg w c e l :
  request cfg w c = Raise e ->
  readings cfg w (without c l) = readings cfg w l.
Proof.
intros He. unfold readings, without.
induction l as [|c' l IH]; simpl; [reflexivity|].
destruct (String.eqb_spec c' c) as [->|Hne]; simpl.
- now rewrite He, IH.
- now rewrite IH.
Qed.

(** C6: when the fetch of location [c] fails, the fetch loop of a pass ends
    as it would without [c] in the list of locations, and it leaves the
    monitor it would leave without [c], the record of the failed fetch
    apart: the same counters, readings, summaries and mails, and the same
    log and history once the error record and the calls [CallFetch c] are
    removed. This holds in every world: the failed fetch itself never ends
    the loop. When nothing else ends it either (the unit name is a
    documented one, so that no check raises, and the answers of the other
    locations have timestamps of 64 bits, so that no INSERT raises), the
    loop ends normally, every configured location is fetched, in order, and
    the readings of the locations whose fetch succeeds are stored and
    checked, in order: each adds one row with its location, condition and
    timestamp. *)
Theorem fetch_failure_isolated
    (rt : Runtime) (cfg : WeatherConfig) (w : World) (c : string) (e : Exn)
    (m : Monitor) :
  request cfg w c = Raise e ->
  let all := for_each (cities cfg) (sample_city rt cfg w) m in
  let others := for_each (without c (cities cfg)) (sample_city rt cfg w) m in
  snd all = snd others /\
  forget c (fetch_error c e) (fst all) = forget c (fetch_error c e) (fst others) /\
  alert_counter (fst all) = alert_counter (fst others) /\
  weather_data (fst all) = weather_data (fst others) /\
  daily_summaries (fst all) = daily_summaries (fst others) /\
  sent (fst all) = sent (fst others) /\
  (unit_supported cfg ->
   Forall storable (readings cfg w (without c (cities cfg))) ->
   snd all = Ok tt /\
   fetched (fst all) = (fetched m ++ cities cfg)%list /\
   stored (fst all)
   = (stored m ++ readings cfg w (without c (cities cfg)))%list /\
   checked (fst all)
   = (checked m ++ readings cfg w (without c (cities cfg)))%list /\
   map (fun row => (wr_city row, wr_main_condition row, wr_timestamp row))
       (weather_data (fst all))
   = (map (fun row => (wr_city row, wr_main_condition row, wr_timestamp row))
          (weather_data m)
      ++ map (fun r => (city r, main_condition r, timestamp r))
             (readings cfg w (without c (cities cfg))))%list).
Proof.
intros He all others. subst all others.
destruct (fetch_loop_without rt cfg w c e (cities cfg) m m He eq_refl)
  as [Ho Hf].
split; [exact Ho|]. split; [exact Hf|].
split; [exact (f_equal alert_counter Hf)|].
split; [exact (f_equal weather_data Hf)|].
split; [exact (f_equal daily_summaries Hf)|].
split; [exact (f_equal sent Hf)|].
intros Hu. rewrite (readings_without cfg w c e _ He). intros Hst.
destruct (fetch_loop_calls rt cfg w (cities cfg) m Hu Hst)
  as (H1 & H2 & H3 & H4 & _ & H5 & _).
repeat split; try assumption.
apply (f_equal (map (fun r => (city r, main_condition r, timestamp r)))) in H5.
rewrite map_app, !List.map_map in H5. exact H5.
Qed.

(** In the sample world the fetch for Mumbai fails and Delhi is stored and
    checked all the same. *)
Lemma fetch_failure_isolated_witness :
  let all :=
    for_each ["Delhi"; "Mumbai"]
      (sample_city Sample.runtime Sample.config Sample.world) init in
  let others :=
    for_each ["Delhi"]
      (sample_city Sample.runtime Sample.config Sample.world) init in
  snd all = Ok tt /\
  weather_data (fst all) = weather_data (fst others) /\
  alert_counter (fst all) = alert_counter (fst others) /\
  fetched (fst all) = ["Delhi"; "Mumbai"] /\
  checked (fst all)
  = [reading_of Sample.config "Delhi" (Sample.payload 310 "Clear" 1000)].
Proof.
destruct (fetch_failure_isolated Sample.runtime Sample.config Sample.world
            "Mumbai" (OtherError "404 Client Error") init eq_refl)
  as (_ & _ & Hac & Hw & _ & _ & H).
destruct (H (or_introl eq_refl)) as (Ho & Hf & _ & Hc & _).
{ repeat constructor; vm_compute; discriminate. }
split; [exact Ho|]. split; [exact Hw|]. split; [exact Hac|].
split; [exact Hf|exact Hc].
Defined.

(* ===================================================================== *)
(** * The alert engine for any required count *)
(* ===================================================================== *)

(** One check, with a documented unit name: it returns normally, the
    location's counter moves by [next_count] and an alert fires exactly
    when the count is reached. *)
Lemma check_next_count rt cfg w r m :
  unit_supported cfg ->
  snd (check_temperature_alert rt cfg w r m) = Ok tt /\
  counter (fst (check_temperature_alert rt cfg w r m)) (city r)
  = next_count cfg (breaching cfg r) (counter m (city r)) /\
  fired (fst (check_temperature_alert rt cfg w r m))
  = (fired m
     + if breaching cfg r
          && (consecutive_alerts cfg <=? counter m (city r) + 1)%Z
       then 1 else 0)%nat.
Proof.
intros Hu. split; [now apply check_never_fails|].
pose proof (check_never_fails rt cfg w r m Hu) as Hok.
unfold next_count.
destruct (check_cases rt cfg w r m)
  as [(Hb & E)|[(Hb & Hlt & E)|[(Hb & Hge & E)|(Hb & Hge & m' & E & Hac & Hf)]]];
  rewrite E in *; rewrite Hb; simpl.
- rewrite counter_set_same, fired_set_alert_counter, fired_app. simpl.
  split; [reflexivity|lia].
- rewrite counter_set_same, fired_set_alert_counter, fired_app. simpl.
  destruct (Z.leb_spec (consecutive_alerts cfg) (counter m (city r) + 1));
    [lia|]. split; [reflexivity|lia].
- discriminate Hok.
- destruct (Z.leb_spec (consecutive_alerts cfg) (counter m (city r) + 1));
    [|lia].
  unfold counter at 1. rewrite Hac, lookup_insert_eq. simpl.
  split; [reflexivity|lia].
Qed.

Lemma feed_hot_run rt cfg w c rs : forall m,
  unit_supported cfg ->
  1 <= consecutive_alerts cfg ->
  Forall (fun r => city r = c /\ breaching cfg r = true) rs ->
  0 <= counter m c < consecutive_alerts cfg ->
  snd (feed rt cfg w rs m) = Ok tt /\
  counter (fst (feed rt cfg w rs m)) c
  = (counter m c + Z.of_nat (length rs)) mod consecutive_alerts cfg /\
  Z.of_nat (fired (fst (feed rt cfg w rs m)))
  = Z.of_nat (fired m)
    + (counter m c + Z.of_nat (length rs)) / consecutive_alerts cfg.
Proof.
induction rs as [|r rs IH]; intros m Hu Hk Hall Hn.
- simpl. rewrite Z.add_0_r, Z.mod_small, Z.div_small by lia.
  repeat split; lia.
- apply List.Forall_cons_iff in Hall as [[Hc Hb] Hall].
  destruct (check_next_count rt cfg w r m Hu) as (Ho & Hcnt & Hf).
  rewrite Hc, Hb in Hcnt, Hf. unfold next_count in Hcnt. simpl in Hf.
  destruct (check_temperature_alert rt cfg w r m) as [m1 o1] eqn:E.
  cbn [fst snd] in *. subst o1.
  rewrite (feed_cons _ _ _ _ _ _ _ E).
  assert (Hlen : Z.of_nat (length (r :: rs)) = 1 + Z.of_nat (length rs))
    by (simpl length; lia).
  rewrite Hlen.
  destruct (Z.leb_spec (consecutive_alerts cfg) (counter m c + 1)) as [Hge|Hlt].
  + assert (Ek : counter m c + 1 = consecutive_alerts cfg) by lia.
    destruct (IH m1 Hu Hk Hall ltac:(lia)) as (Ho' & Hc' & Hf').
    rewrite Ho', Hc', Hf', Hcnt, Hf.
    replace (counter m c + (1 + Z.of_nat (length rs)))
      with (1 * consecutive_alerts cfg + Z.of_nat (length rs)) by lia.
    rewrite Z.add_0_l.
    rewrite Z.add_comm, Z.mod_add, Z.div_add by lia.
    repeat split; lia.
  + destruct (IH m1 Hu Hk Hall ltac:(lia)) as (Ho' & Hc' & Hf').
    rewrite Ho', Hc', Hf', Hcnt, Hf.
    replace (counter m c + 1 + Z.of_nat (length rs))
      with (counter m c + (1 + Z.of_nat (length rs))) by lia.
    repeat split; lia.
Qed.

(** X1: for any required count [k >= 1] (and a documented unit name), [j]
    breaching readings in a row for one location, starting from a counter
    of 0, fire [j / k] alerts and leave the counter at [j mod k]. *)
Theorem hysteresis_any_count
    (rt : Runtime) (cfg : WeatherConfig) (w : World) (c : string)
    (rs : list Reading) (m : Monitor) :
  unit_supported cfg ->
  1 <= consecutive_alerts cfg ->
  Forall (fun r => city r = c /\ breaching cfg r = true) rs ->
  counter m c = 0 ->
  snd (feed rt cfg w rs m) = Ok tt /\
  counter (fst (feed rt cfg w rs m)) c
  = Z.of_nat (length rs) mod consecutive_alerts cfg /\
  Z.of_nat (fired (fst (feed rt cfg w rs m)))
  = Z.of_nat (fired m) + Z.of_nat (length rs) / consecutive_alerts cfg.
Proof.
intros Hu Hk Hall H0.
destruct (feed_hot_run rt cfg w c rs m Hu Hk Hall ltac:(lia)) as (Ho & Hc & Hf).
rewrite H0, Z.add_0_l in Hc, Hf. auto.
Qed.

(** Seven hot readings of Delhi with a required count of 3: two alerts, and
    one breach counted towards the third. *)
Lemma hysteresis_any_count_witness :
  let m :=
    fst (feed Sample.runtime (Shipped.with_count 3 Sample.config) Sample.world
           (List.repeat Sample.hot 7) init) in
  counter m "Delhi" = 1 /\ fired m = 2%nat.
Proof.
destruct (hysteresis_any_count Sample.runtime
            (Shipped.with_count 3 Sample.config) Sample.world "Delhi"
            (List.repeat Sample.hot 7) init)
  as (_ & Hc & Hf).
- left; reflexivity.
- simpl; lia.
- repeat constructor.
- reflexivity.
- split; [exact Hc|]. apply Nat2Z.inj. rewrite Hf. reflexivity.
Defined.

(** X2: with a required count of 1 or less (0 and negative counts
    included) every breaching reading fires an alert and leaves the
    location's counter at 0, in every state the engine reaches. *)
Theorem low_count_fires_on_every_breach
    (rt : Runtime) (cfg : WeatherConfig) (w : World) (r : Reading)
    (m : Monitor) :
  unit_supported cfg ->
  consecutive_alerts cfg <= 1 ->
  reachable rt cfg m ->
  breaching cfg r = true ->
  snd (check_temperature_alert rt cfg w r m) = Ok tt /\
  fired (fst (check_temperature_alert rt cfg w r m)) = S (fired m) /\
  counter (fst (check_temperature_alert rt cfg w r m)) (city r) = 0.
Proof.
intros Hu Hk Hr Hb.
pose proof (counters_nonneg_counter m (city r) (reachable_nonneg rt cfg m Hr))
  as Hn.
destruct (check_next_count rt cfg w r m Hu) as (Ho & Hc & Hf).
rewrite Hb in Hc, Hf. unfold next_count in Hc. simpl in Hf.
destruct (Z.leb_spec (consecutive_alerts cfg) (counter m (city r) + 1));
  [|lia].
repeat split; [exact Ho|lia|exact Hc].
Qed.

(** A required count of 0: the first hot reading of Delhi fires. *)
Lemma low_count_fires_on_every_breach_witness :
  let m' :=
    fst (check_temperature_alert Sample.runtime
           (Shipped.with_count 0 Sample.config) Sample.world Sample.hot init) in
  fired m' = 1%nat /\ counter m' "Delhi" = 0.
Proof.
destruct (low_count_fires_on_every_breach Sample.runtime
            (Shipped.with_count 0 Sample.config) Sample.world Sample.hot init)
  as (_ & Hf & Hc).
- left; reflexivity.
- simpl; lia.
- constructor.
- reflexivity.
- split; [exact Hf|exact Hc].
Defined.

(** X3: with a required count [k >= 1] and a documented unit name, every
    counter the engine ever holds is at least 0 and below [k]. *)
Theorem counters_below_required_count
    (rt : Runtime) (cfg : WeatherConfig) (m : Monitor) :
  unit_supported cfg ->
  1 <= consecutive_alerts cfg ->
  reachable rt cfg m ->
  forall key v, alert_counter m !! key = Some v ->
                0 <= v < consecutive_alerts cfg.
Proof.
intros Hu Hk. induction 1 as [|m w r Hr IH]; intros key v.
- simpl. rewrite lookup_empty. discriminate.
- destruct (decide (key = counter_key (city r))) as [->|Hne].
  + destruct (check_next_count rt cfg w r m Hu) as (_ & Hc & _).
    unfold counter in Hc at 1. intros E. rewrite E in Hc. simpl in Hc.
    assert (Hn : 0 <= counter m (city r) < consecutive_alerts cfg).
    { unfold counter.
      destruct (alert_counter m !! counter_key (city r)) as [n|] eqn:En;
        simpl; [exact (IH _ _ En)|lia]. }
    rewrite Hc. unfold next_count.
    destruct (breaching cfg r); [|lia].
    destruct (Z.leb_spec (consecutive_alerts cfg) (counter m (city r) + 1));
      lia.
  + rewrite check_other_counters by exact Hne. apply IH.
Qed.

(** After one hot reading of Delhi the counter is 1, below 2. *)
Lemma counters_below_required_count_witness :
  exists v,
    alert_counter
      (fst (check_temperature_alert Sample.runtime Sample.config Sample.world
              Sample.hot init)) !! "Delhi_high_temp" = Some v /\
    0 <= v < 2.
Proof.
exists 1. split; [reflexivity|].
exact (counters_below_required_count Sample.runtime Sample.config _
         (or_introl eq_refl) ltac:(simpl; lia)
         (reachable_check _ _ _ Sample.world Sample.hot (reachable_init _ _))
         "Delhi_high_temp" 1 eq_refl).
Defined.

Lemma feed_never_fires_gen rt cfg w rs : forall m,
  (forall r m0, fired (fst (check_temperature_alert rt cfg w r m0)) = fired m0) ->
  fired (fst (feed rt cfg w rs m)) = fired m.
Proof.
induction rs as [|r rs IH]; intros m H; [reflexivity|].
unfold feed. rewrite for_each_cons. specialize (H r m) as Hr.
destruct (check_temperature_alert rt cfg w r m) as [m1 [[]|e]];
  cbn [fst] in *; [|exact Hr].
fold (feed rt cfg w rs m1). now rewrite IH.
Qed.

(** X4: with an empty unit name no alert ever fires. A breaching reading
    that reaches the required count raises [IndexError] while the message
    is built: nothing is logged or sent, and the counter keeps the count
    it reached instead of returning to 0, so the next breaching reading
    raises again. *)
Theorem empty_unit_never_alerts (rt : Runtime) (cfg : WeatherConfig) :
  temp_unit cfg = "" ->
  (forall w r m,
     fired (fst (check_temperature_alert rt cfg w r m)) = fired m) /\
  (forall w rs m, fired (fst (feed rt cfg w rs m)) = fired m) /\
  (forall w r m,
     breaching cfg r = true ->
     consecutive_alerts cfg <= counter m (city r) + 1 ->
     let m' := fst (check_temperature_alert rt cfg w r m) in
     snd (check_temperature_alert rt cfg w r m)
     = Raise (IndexError "string index out of range") /\
     counter m' (city r) = counter m (city r) + 1 /\
     consecutive_alerts cfg <= counter m' (city r) + 1 /\
     log m' = log m /\
     sent m' = sent m).
Proof.
intros Hu.
assert (H1 : forall w r m,
  fired (fst (check_temperature_alert rt cfg w r m)) = fired m).
{ intros w r m.
  destruct (breaching cfg r) eqn:Hb.
  2:{ rewrite check_cool by exact Hb. simpl.
      rewrite fired_set_alert_counter, fired_app. simpl. lia. }
  destruct (Z.lt_ge_cases (counter m (city r) + 1) (consecutive_alerts cfg)).
  - rewrite check_hot_quiet by assumption. simpl.
    rewrite fired_set_alert_counter, fired_app. simpl. lia.
  - rewrite check_hot_no_unit by assumption. simpl.
    rewrite fired_set_alert_counter, fired_app. simpl. lia. }
split; [exact H1|].
split; [intros w rs m; apply feed_never_fires_gen; intros; apply H1|].
intros w r m Hb Hge m'. subst m'.
rewrite check_hot_no_unit by assumption. simpl.
rewrite counter_set_same. repeat split. lia.
Qed.

(** Two hot readings of Delhi with an empty unit name: the second raises,
    and the counter stays at 2. *)
Lemma empty_unit_never_alerts_witness :
  let cfg := Sample.with_unit "" Sample.config in
  let m := fst (check_temperature_alert Sample.runtime cfg Sample.world
                  Sample.hot init) in
  snd (check_temperature_alert Sample.runtime cfg Sample.world Sample.hot m)
  = Raise (IndexError "string index out of range") /\
  counter (fst (check_temperature_alert Sample.runtime cfg Sample.world
                  Sample.hot m)) "Delhi" = 2.
Proof.
destruct (empty_unit_never_alerts Sample.runtime
            (Sample.with_unit "" Sample.config) eq_refl) as (_ & _ & H).
destruct (H Sample.world Sample.hot
            (fst (check_temperature_alert Sample.runtime
                    (Sample.with_unit "" Sample.config) Sample.world
                    Sample.hot init))
            eq_refl ltac:(vm_compute; discriminate)) as (Ho & Hc & _).
split; [exact Ho|exact Hc].
Defined.

Lemma feed_other_locations rt cfg w c rs : forall m1 m2,
  unit_supported cfg ->
  counter m1 c = counter m2 c ->
  counter (fst (feed rt cfg w rs m1)) c
  = counter (fst (feed rt cfg w (List.filter (of_city c) rs) m2)) c.
Proof.
induction rs as [|r rs IH]; intros m1 m2 Hu Hc; [exact Hc|].
destruct (check_next_count rt cfg w r m1 Hu) as (Ho1 & Hn1 & _).
destruct (check_temperature_alert rt cfg w r m1) as [m1' o1] eqn:E1.
cbn [fst snd] in *. subst o1.
rewrite (feed_cons _ _ _ _ _ _ _ E1).
simpl List.filter. unfold of_city at 1.
destruct (String.eqb_spec (city r) c) as [Hr|Hr].
- destruct (check_next_count rt cfg w r m2 Hu) as (Ho2 & Hn2 & _).
  destruct (check_temperature_alert rt cfg w r m2) as [m2' o2] eqn:E2.
  cbn [fst snd] in *. subst o2.
  rewrite (feed_cons _ _ _ _ _ _ _ E2).
  apply IH; [exact Hu|]. rewrite Hr in Hn1, Hn2. now rewrite Hn1, Hn2, Hc.
- apply IH; [exact Hu|]. rewrite <- Hc.
  pose proof (check_other_counters rt cfg w r m1 (counter_key c)) as H.
  rewrite E1 in H. cbn [fst] in H. unfold counter. rewrite H; [reflexivity|].
  intros Ek. apply Hr. symmetry. now apply counter_key_inj.
Qed.

(** X5: the counter of a location depends on that location's readings
    only: after any sequence of readings of any locations it is what it
    would be had the readings of the other locations never been checked.
    Two different locations never share a counter. *)
Theorem counter_depends_on_own_readings
    (rt : Runtime) (cfg : WeatherConfig) (w : World) (c : string)
    (rs : list Reading) (m : Monitor) :
  unit_supported cfg ->
  counter (fst (feed rt cfg w rs m)) c
  = counter (fst (feed rt cfg w (List.filter (of_city c) rs) m)) c /\
  (forall c', counter_key c = counter_key c' -> c = c').
Proof.
intros Hu. split.
- now apply feed_other_locations.
- intros c'. apply counter_key_inj.
Qed.

(** A hot reading of Mumbai between two hot readings of Delhi does not
    interrupt Delhi's run: Delhi's counter is back at 0 (the alert fired). *)
Lemma counter_depends_on_own_readings_witness :
  counter
    (fst (feed Sample.runtime Sample.config Sample.world
            [Sample.hot; Sample.reading "Mumbai" 40 "Clear" 1000; Sample.hot]
            init)) "Delhi"
  = counter
      (fst (feed Sample.runtime Sample.config Sample.world
              [Sample.hot; Sample.hot] init)) "Delhi".
Proof.
exact (proj1 (counter_depends_on_own_readings Sample.runtime Sample.config
                Sample.world "Delhi"
                [Sample.hot; Sample.reading "Mumbai" 40 "Clear" 1000;
                 Sample.hot]
                init (or_introl eq_refl))).
Defined.

(* ===================================================================== *)
(** * NaN and unit names *)
(* ===================================================================== *)

Lemma is_nan_Prim2SF x :
  PrimFloat.is_nan x = true -> Prim2SF x = S754_nan.
Proof.
unfold PrimFloat.is_nan. rewrite FloatAxioms.eqb_spec. unfold SFeqb.
intros H. destruct (Prim2SF x) as [s|s| |s mx ex] eqn:E; [| |reflexivity|].
- destruct s; discriminate H.
- destruct s; discriminate H.
- rewrite (F64Order.SFcompare_refl (S754_finite s mx ex)) in H by discriminate.
  discriminate H.
Qed.

Lemma Prim2SF_is_nan x :
  Prim2SF x = S754_nan -> PrimFloat.is_nan x = true.
Proof.
unfold PrimFloat.is_nan. rewrite FloatAxioms.eqb_spec. now intros ->.
Qed.

Lemma sub_nan x y : PrimFloat.is_nan x = true -> PrimFloat.is_nan (x - y) = true.
Proof.
intros H. apply Prim2SF_is_nan.
now rewrite FloatAxioms.sub_spec, (is_nan_Prim2SF x H).
Qed.

Lemma mul_nan x y : PrimFloat.is_nan x = true -> PrimFloat.is_nan (x * y) = true.
Proof.
intros H. apply Prim2SF_is_nan.
now rewrite FloatAxioms.mul_spec, (is_nan_Prim2SF x H).
Qed.

Lemma div_nan x y : PrimFloat.is_nan x = true -> PrimFloat.is_nan (x / y) = true.
Proof.
intros H. apply Prim2SF_is_nan.
now rewrite FloatAxioms.div_spec, (is_nan_Prim2SF x H).
Qed.

Lemma add_nan x y : PrimFloat.is_nan x = true -> PrimFloat.is_nan (x + y) = true.
Proof.
intros H. apply Prim2SF_is_nan.
now rewrite FloatAxioms.add_spec, (is_nan_Prim2SF x H).
Qed.

Lemma nan_never_breaches cfg r :
  PrimFloat.is_nan (temperature r) = true
  \/ PrimFloat.is_nan (high_temp_threshold cfg) = true ->
  breaching cfg r = false.
Proof.
unfold breaching, F64.gt. rewrite FloatAxioms.ltb_spec. unfold SFltb.
intros [H|H]; rewrite (is_nan_Prim2SF _ H).
- now destruct (Prim2SF (high_temp_threshold cfg)).
- reflexivity.
Qed.

(** X6: NaN passes through the conversion in both units, and a NaN never
    breaches: a reading whose temperature is NaN fires nothing and sets
    its location's counter to 0 like a reading below the threshold, and
    with a NaN threshold no reading ever fires an alert. *)
Theorem nan_resets_and_never_alerts :
  (forall cfg k,
     PrimFloat.is_nan k = true ->
     PrimFloat.is_nan (convert_temperature cfg k) = true) /\
  (forall rt cfg w r m,
     PrimFloat.is_nan (temperature r) = true
     \/ PrimFloat.is_nan (high_temp_threshold cfg) = true ->
     snd (check_temperature_alert rt cfg w r m) = Ok tt /\
     fired (fst (check_temperature_alert rt cfg w r m)) = fired m /\
     counter (fst (check_temperature_alert rt cfg w r m)) (city r) = 0) /\
  (forall rt cfg w rs m,
     PrimFloat.is_nan (high_temp_threshold cfg) = true ->
     fired (fst (feed rt cfg w rs m)) = fired m).
Proof.
assert (H2 : forall rt cfg w r m,
  PrimFloat.is_nan (temperature r) = true
  \/ PrimFloat.is_nan (high_temp_threshold cfg) = true ->
  snd (check_temperature_alert rt cfg w r m) = Ok tt /\
  fired (fst (check_temperature_alert rt cfg w r m)) = fired m /\
  counter (fst (check_temperature_alert rt cfg w r m)) (city r) = 0).
{ intros rt cfg w r m H.
  rewrite (check_cool rt cfg w r m (nan_never_breaches cfg r H)). simpl.
  rewrite fired_set_alert_counter, fired_app, counter_set_same. simpl.
  repeat split. lia. }
split.
- intros cfg k H. unfold convert_temperature, kelvin_to_fahrenheit,
    kelvin_to_celsius.
  destruct (String.eqb (temp_unit cfg) "celsius").
  + now apply sub_nan.
  + now apply add_nan, div_nan, mul_nan, sub_nan.
- split; [exact H2|].
  intros rt cfg w rs m H. apply feed_never_fires_gen.
  intros r m0. apply (H2 rt cfg w r m0). now right.
Qed.

(** A NaN from the service for Delhi, after one breaching reading. *)
Lemma nan_resets_and_never_alerts_witness :
  let m := fst (check_temperature_alert Sample.runtime Sample.config
                  Sample.world Sample.hot init) in
  let r := Sample.reading "Delhi" PrimFloat.nan "Clear" 1 in
  PrimFloat.is_nan (convert_temperature Sample.config PrimFloat.nan) = true /\
  counter m "Delhi" = 1 /\
  counter (fst (check_temperature_alert Sample.runtime Sample.config
                  Sample.world r m)) "Delhi" = 0.
Proof.
intros m r.
destruct nan_resets_and_never_alerts as (H1 & H2 & _).
split; [apply H1; reflexivity|]. split; [vm_compute; reflexivity|].
apply (H2 Sample.runtime Sample.config Sample.world r m). now left.
Defined.

(** X7: a unit name other than exactly "celsius" gives Fahrenheit values,
    while the letter in the alert message is the upper case of the name's
    first character. For a name that begins with an ASCII character of code
    [n], the message ends with the character of code [n - 32] when the
    character is one of the lower-case letters (codes 97 to 122), and with
    the character itself otherwise: with "kelvin" or "Celsius" the message
    shows a Fahrenheit value followed by K or C. *)
Theorem unit_name_and_alert_letter
    (rt : Runtime) (cfg : WeatherConfig) (a : ascii) (u : string) :
  temp_unit cfg = String a u ->
  String a u <> "celsius" ->
  (nat_of_ascii a < 128)%nat ->
  (forall k,
     convert_temperature cfg k = ((k - 273.15) * 9 / 5 + 32)%float) /\
  (forall w r m,
     breaching cfg r = true ->
     consecutive_alerts cfg <= counter m (city r) + 1 ->
     exists letter errs,
       log (fst (check_temperature_alert rt cfg w r m))
       = (log m
          ++ (WARNING,
              "ALERT: High temperature alert for " +:+ city r +:+ ": "
              +:+ format_1f rt (temperature r) +:+ "Â°"
              +:+ String letter "") :: errs)%list /\
       ((97 <= nat_of_ascii a <= 122)%nat ->
        letter = ascii_of_nat (nat_of_ascii a - 32)) /\
       (~ (97 <= nat_of_ascii a <= 122)%nat -> letter = a)).
Proof.
intros Hu Hne Hascii. split.
- intros k. apply convert_temperature_other. now rewrite Hu.
- intros w r m Hb Hge.
  assert (E : first_upper rt (temp_unit cfg) = Some (String (upper a) "")).
  { rewrite Hu. unfold first_upper.
    destruct (Nat.ltb_spec (nat_of_ascii a) 128); [reflexivity|lia]. }
  destruct (check_hot_fire rt cfg w r m _ Hb Hge E) as (errs & mails & ->).
  exists (upper a), errs. split; [reflexivity|]. unfold upper.
  destruct (Nat.leb_spec 97 (nat_of_ascii a)),
           (Nat.leb_spec (nat_of_ascii a) 122); simpl; split;
    intros; try reflexivity; lia.
Qed.

(** With the unit name "kelvin", 300 K becomes 80.33 and the alert says
    degrees K. *)
Lemma unit_name_and_alert_letter_witness :
  let cfg := Sample.with_unit "kelvin" Sample.config in
  F64.within (convert_temperature cfg 300) (8033 # 100) (1 # 200) /\
  exists errs,
    log (fst (check_temperature_alert Sample.runtime cfg Sample.world
                (Sample.reading "Delhi" 97 "Clear" 1000)
                (fst (check_temperature_alert Sample.runtime cfg Sample.world
                        (Sample.reading "Delhi" 97 "Clear" 1000) init))))
    = ((WARNING, "ALERT: High temperature alert for Delhi: 36.0Â°K")
       :: errs)%list.
Proof.
destruct (unit_name_and_alert_letter Sample.runtime
            (Sample.with_unit "kelvin" Sample.config) "k" "elvin"
            eq_refl ltac:(discriminate) ltac:(vm_compute; lia)) as [Hc Hl].
cbv zeta. split.
- rewrite Hc. vm_compute. split; discriminate.
- destruct (Hl Sample.world (Sample.reading "Delhi" 97 "Clear" 1000)
              (fst (check_temperature_alert Sample.runtime
                      (Sample.with_unit "kelvin" Sample.config) Sample.world
                      (Sample.reading "Delhi" 97 "Clear" 1000) init))
              eq_refl ltac:(vm_compute; discriminate))
    as (letter & errs & Hlog & Hup & _).
  exists errs. rewrite Hlog, Hup by (vm_compute; lia). reflexivity.
Defined.

(* ===================================================================== *)
(** * Storing and summarising *)
(* ===================================================================== *)

(** What SQLite keeps of a REAL: everything but the sign of zero. *)
Lemma sqlite_real_neg_zero : sqlite_real PrimFloat.neg_zero = 0%float.
Proof. reflexivity. Qed.

Lemma sqlite_real_other x : x <> PrimFloat.neg_zero -> sqlite_real x = x.
Proof.
intros Hx. unfold sqlite_real. destruct (PrimFloat.eqb x 0) eqn:E; [|reflexivity].
rewrite FloatAxioms.eqb_spec in E. unfold SFeqb in E.
change (Prim2SF 0) with (S754_zero false) in E.
destruct (Prim2SF x) as [[]|s| |s mx ex] eqn:Ex; simpl in E;
  try discriminate E.
- exfalso. apply Hx. apply Prim2SF_inj. now rewrite Ex.
- symmetry. apply Prim2SF_inj. now rewrite Ex.
- destruct s; discriminate E.
- destruct s; discriminate E.
Qed.

Lemma day_frame_store rt c d r m :
  storable r ->
  day_frame rt c d (fst (store_weather_data (Some r) m))
  = (day_frame rt c d m
     ++ if String.eqb (city r) c
           && (start_of_day rt d <=? timestamp r)
           && (timestamp r <=? end_of_day rt d)
        then [(sqlite_real (temperature r), main_condition r)] else [])%list.
Proof.
intros Hs. rewrite (store_weather_data_some r m Hs).
unfold day_frame, read_sql_query. simpl.
rewrite List.filter_app, map_app. simpl. unfold in_range at 2. simpl.
destruct (String.eqb (city r) c && (start_of_day rt d <=? timestamp r)
          && (timestamp r <=? end_of_day rt d)); reflexivity.
Qed.

(** The aggregator's result is a function of the frame it reads. *)
Lemma calculate_result_frame rt c d m1 m2 :
  day_frame rt c d m1 = day_frame rt c d m2 ->
  snd (calculate_daily_summary rt c d m1)
  = snd (calculate_daily_summary rt c d m2).
Proof.
intros H. destruct (day_frame rt c d m2) as [|x df] eqn:E.
- now rewrite !calculate_empty by congruence.
- destruct (calculate_some rt c d m1) as (d1 & r1 & Hm1 & ->); [congruence|].
  destruct (calculate_some rt c d m2) as (d2 & r2 & Hm2 & ->); [congruence|].
  simpl. rewrite H, E in *. rewrite Hm1 in Hm2. now injection Hm2 as -> _.
Qed.

(** X8: storing a reading whose timestamp fits in 64 bits adds one row
    after the others, under the next id, with the reading's location,
    condition and timestamp; a temperature that is a number is kept as it
    is, except that the negative zero is kept as 0.0. The day's query finds
    the row again exactly when it is of the queried location and its
    timestamp lies between the day's first and last second, both included:
    it is then the last row of the frame and the aggregator returns a
    summary; otherwise the frame and the aggregator's result are what they
    were. A timestamp that does not fit makes the INSERT raise
    [OverflowError] and leaves the table as it was. Storing [None] changes
    nothing. *)
Theorem stored_reading_in_day_frame
    (rt : Runtime) (c : string) (d : Date) (r : Reading) (m : Monitor) :
  let m1 := fst (store_weather_data (Some r) m) in
  (- 2 ^ 63 <= timestamp r < 2 ^ 63 ->
   snd (store_weather_data (Some r) m) = Ok tt /\
   (exists row,
      weather_data m1 = (weather_data m ++ [row])%list /\
      wr_id row = Z.of_nat (length (weather_data m)) + 1 /\
      wr_city row = city r /\
      wr_main_condition row = main_condition r /\
      wr_timestamp row = timestamp r /\
      (temperature r = PrimFloat.neg_zero -> wr_temperature row = 0%float) /\
      (temperature r <> PrimFloat.neg_zero ->
       PrimFloat.is_nan (temperature r) = false ->
       wr_temperature row = temperature r)) /\
   (city r = c /\ start_of_day rt d <= timestamp r <= end_of_day rt d ->
    (exists t,
       day_frame rt c d m1
       = (day_frame rt c d m ++ [(t, main_condition r)])%list /\
       (temperature r = PrimFloat.neg_zero -> t = 0%float) /\
       (temperature r <> PrimFloat.neg_zero ->
        PrimFloat.is_nan (temperature r) = false -> t = temperature r)) /\
    exists summary,
      snd (calculate_daily_summary rt c d m1) = Ok (Some summary)) /\
   (city r <> c \/ timestamp r < start_of_day rt d
    \/ end_of_day rt d < timestamp r ->
    day_frame rt c d m1 = day_frame rt c d m /\
    snd (calculate_daily_summary rt c d m1)
    = snd (calculate_daily_summary rt c d m))) /\
  (~ - 2 ^ 63 <= timestamp r < 2 ^ 63 ->
   (exists msg, snd (store_weather_data (Some r) m) = Raise (OverflowError msg)) /\
   weather_data m1 = weather_data m) /\
  store_weather_data None m = (m, Ok tt).
Proof.
intros m1. subst m1. split; [|split; [|reflexivity]].
2:{ intros Hn. rewrite (store_weather_data_overflow r m Hn).
    split; [now eexists|reflexivity]. }
intros Hs. change (storable r) in Hs.
assert (Ht : forall x,
  (x = PrimFloat.neg_zero -> sqlite_real x = 0%float) /\
  (x <> PrimFloat.neg_zero -> PrimFloat.is_nan x = false -> sqlite_real x = x)).
{ intros x. split; [intros ->; apply sqlite_real_neg_zero
                   |intros Hx _; now apply sqlite_real_other]. }
split; [now rewrite (store_weather_data_some r m Hs)|].
split; [|split].
- rewrite (store_weather_data_some r m Hs). eexists. simpl.
  split; [reflexivity|]. simpl. repeat split; apply Ht.
- intros (Hc & Hlo & Hhi).
  assert (E : day_frame rt c d (fst (store_weather_data (Some r) m))
              = (day_frame rt c d m
                 ++ [(sqlite_real (temperature r), main_condition r)])%list).
  { rewrite (day_frame_store rt c d r m Hs).
    rewrite (proj2 (String.eqb_eq _ _) Hc), (proj2 (Z.leb_le _ _) Hlo),
      (proj2 (Z.leb_le _ _) Hhi). reflexivity. }
  split; [exists (sqlite_real (temperature r)); split; [exact E|apply Ht]|].
  destruct (calculate_some rt c d (fst (store_weather_data (Some r) m)))
    as (dom & rest & _ & ->).
  + rewrite E. now destruct (day_frame rt c d m).
  + now eexists.
- intros H.
  assert (E : day_frame rt c d (fst (store_weather_data (Some r) m))
              = day_frame rt c d m).
  { rewrite (day_frame_store rt c d r m Hs).
    destruct (String.eqb_spec (city r) c) as [Hc|Hc];
      destruct (Z.leb_spec (start_of_day rt d) (timestamp r));
      destruct (Z.leb_spec (timestamp r) (end_of_day rt d));
      simpl; rewrite ?app_nil_r; try reflexivity.
    exfalso. destruct H as [H|[H|H]]; [contradiction|lia|lia]. }
  split; [exact E|]. now apply calculate_result_frame.
Qed.

(** A reading of Delhi stamped with the last second of the sample day is
    in that day's frame; its temperature, the negative zero, comes back
    as 0.0. *)
Lemma stored_reading_in_day_frame_witness :
  let r := Sample.reading "Delhi" PrimFloat.neg_zero "Haze"
             (Sample.day * 86400 + 86399) in
  day_frame Sample.runtime "Delhi" Sample.day
    (fst (store_weather_data (Some r) Sample.stored))
  = (day_frame Sample.runtime "Delhi" Sample.day Sample.stored
     ++ [(0%float, "Haze")])%list.
Proof.
intros r.
destruct (stored_reading_in_day_frame Sample.runtime "Delhi" Sample.day r
            Sample.stored) as [H _].
assert (Hs : - 2 ^ 63 <= timestamp r < 2 ^ 63)
  by (vm_compute; split; [discriminate|reflexivity]).
destruct (H Hs) as (_ & _ & Hin & _).
assert (Hd : city r = "Delhi" /\
             start_of_day Sample.runtime Sample.day <= timestamp r
             <= end_of_day Sample.runtime Sample.day)
  by (split; [reflexivity|vm_compute; split; discriminate]).
destruct (Hin Hd) as [(t & E & Hz & _) _].
now rewrite E, (Hz eq_refl).
Defined.

(** ** The dominant condition does not depend on the order of the rows *)

Lemma unique_NoDup l : List.NoDup (Series.unique l).
Proof.
induction l as [|x l IH]; simpl; constructor.
- rewrite List.filter_In. intros [_ H]. now rewrite String.eqb_refl in H.
- now apply List.NoDup_filter.
Qed.

Lemma insert_sorted_NoDup x l :
  List.NoDup l -> ~ In x l -> List.NoDup (Series.insert_sorted x l).
Proof.
induction 1 as [|y l Hy Hl IH]; intros Hx; simpl.
- repeat constructor. intros [].
- destruct (String.leb x y).
  + constructor; [exact Hx|now constructor].
  + constructor.
    * rewrite SeriesFacts.insert_sorted_In. intros [->|H]; [|contradiction].
      apply Hx. now left.
    * apply IH. intros H. apply Hx. now right.
Qed.

Lemma sort_NoDup l : List.NoDup l -> List.NoDup (Series.sort l).
Proof.
induction 1 as [|x l Hx Hl IH]; simpl; [constructor|].
apply insert_sorted_NoDup; [exact IH|]. now rewrite SeriesFacts.sort_In.
Qed.

(** Two duplicate-free ascending lists with the same elements are equal. *)
Lemma sorted_same_elements l1 : forall l2,
  StronglySorted Series.sle l1 -> StronglySorted Series.sle l2 ->
  List.NoDup l1 -> List.NoDup l2 ->
  (forall x, In x l1 <-> In x l2) ->
  l1 = l2.
Proof.
induction l1 as [|a l1 IH]; intros [|b l2] S1 S2 N1 N2 H.
- reflexivity.
- exfalso. apply (proj2 (H b)). now left.
- exfalso. apply (proj1 (H a)). now left.
- apply StronglySorted_inv in S1 as [S1 A1].
  apply StronglySorted_inv in S2 as [S2 A2].
  rewrite List.Forall_forall in A1, A2.
  apply List.NoDup_cons_iff in N1 as [Na N1].
  apply List.NoDup_cons_iff in N2 as [Nb N2].
  assert (E : a = b).
  { destruct (proj1 (H a) ltac:(now left)) as [E|Ha]; [now symmetry|].
    destruct (proj2 (H b) ltac:(now left)) as [E|Hb]; [exact E|].
    apply String.leb_antisym; [now apply A1|now apply A2]. }
  subst b. f_equal. apply IH; try assumption.
  intros x. split; intros Hx.
  + destruct (proj1 (H x) ltac:(now right)) as [->|H']; [contradiction|exact H'].
  + destruct (proj2 (H x) ltac:(now right)) as [->|H']; [contradiction|exact H'].
Qed.

Lemma count_permutation x l l' :
  Permutation l l' -> Series.count x l = Series.count x l'.
Proof.
unfold Series.count. induction 1 as [|y l l' _ IH|y z l|l l' l'' _ IH1 _ IH2];
  simpl.
- reflexivity.
- now rewrite IH.
- destruct (string_dec z x), (string_dec y x); reflexivity.
- congruence.
Qed.

Lemma max_count_permutation l l' :
  Permutation l l' -> Series.max_count l = Series.max_count l'.
Proof.
intros H. destruct l as [|a l].
- apply Permutation_nil in H. now subst.
- assert (Hne' : l' <> []).
  { intros ->. apply Permutation_sym, Permutation_nil in H. discriminate H. }
  destruct (SeriesFacts.max_count_attained (a :: l) ltac:(discriminate))
    as (x & Hx & Ex).
  destruct (SeriesFacts.max_count_attained l' Hne') as (y & Hy & Ey).
  apply Nat.le_antisymm.
  + rewrite <- Ex, (count_permutation x _ _ H).
    apply SeriesFacts.max_count_ge. now apply (Permutation_in _ H).
  + rewrite <- Ey, <- (count_permutation y _ _ H).
    apply SeriesFacts.max_count_ge.
    now apply (Permutation_in _ (Permutation_sym H)).
Qed.

Lemma mode_NoDup l : List.NoDup (Series.mode l).
Proof.
unfold Series.mode. apply sort_NoDup, List.NoDup_filter, unique_NoDup.
Qed.

Lemma mode_permutation l l' :
  Permutation l l' -> Series.mode l = Series.mode l'.
Proof.
intros H. apply sorted_same_elements.
- apply SeriesFacts.sort_sorted.
- apply SeriesFacts.sort_sorted.
- apply mode_NoDup.
- apply mode_NoDup.
- intros x. rewrite !SeriesFacts.mode_In.
  rewrite (count_permutation x _ _ H), (max_count_permutation _ _ H).
  split; intros [Hin Hc]; (split; [|exact Hc]).
  + now apply (Permutation_in _ H).
  + now apply (Permutation_in _ (Permutation_sym H)).
Qed.

(** X9: the dominant condition of a summary does not depend on the order
    in which the day's readings were stored: two tables whose conditions
    in range are the same up to order give the same dominant condition
    (and both give no summary when there is none). *)
Theorem dominant_condition_order_independent
    (rt : Runtime) (c : string) (d : Date) (m1 m2 : Monitor) :
  Permutation (map snd (day_frame rt c d m1)) (map snd (day_frame rt c d m2)) ->
  match snd (calculate_daily_summary rt c d m1),
        snd (calculate_daily_summary rt c d m2) with
  | Ok (Some s1), Ok (Some s2) => dominant_condition s1 = dominant_condition s2
  | Ok None, Ok None => day_frame rt c d m1 = [] /\ day_frame rt c d m2 = []
  | _, _ => False
  end.
Proof.
intros H.
destruct (day_frame rt c d m1) as [|x1 df1] eqn:E1.
- apply Permutation_nil in H.
  destruct (day_frame rt c d m2) as [|x2 df2] eqn:E2; [|discriminate H].
  rewrite !calculate_empty by assumption. simpl. split; reflexivity.
- destruct (day_frame rt c d m2) as [|x2 df2] eqn:E2.
  { apply Permutation_sym, Permutation_nil in H. discriminate H. }
  destruct (calculate_some rt c d m1) as (d1 & r1 & Hm1 & ->); [congruence|].
  destruct (calculate_some rt c d m2) as (d2 & r2 & Hm2 & ->); [congruence|].
  simpl. rewrite E1 in Hm1. rewrite E2 in Hm2.
  rewrite (mode_permutation _ _ H), Hm2 in Hm1. now injection Hm1 as -> _.
Qed.

(** The test suite's readings stored in the opposite order give the same
    dominant condition. *)
Lemma dominant_condition_order_independent_witness :
  let reversed :=
    fst (for_each
           [Sample.reading "Delhi" 28 "Clouds" (Sample.day * 86400 + 82800);
            Sample.reading "Delhi" 30 "Clear" (Sample.day * 86400 + 43200);
            Sample.reading "Delhi" 25 "Clear" (Sample.day * 86400 + 3600)]
           (fun r => store_weather_data (Some r)) init) in
  match snd (calculate_daily_summary Sample.runtime "Delhi" Sample.day
               Sample.stored),
        snd (calculate_daily_summary Sample.runtime "Delhi" Sample.day
               reversed) with
  | Ok (Some s1), Ok (Some s2) => dominant_condition s1 = dominant_condition s2
  | Ok None, Ok None =>
      day_frame Sample.runtime "Delhi" Sample.day Sample.stored = [] /\
      day_frame Sample.runtime "Delhi" Sample.day reversed = []
  | _, _ => False
  end.
Proof.
apply (dominant_condition_order_independent Sample.runtime "Delhi" Sample.day
         Sample.stored).
vm_compute. apply Permutation_rev with (l := ["Clear"; "Clear"; "Clouds"]).
Defined.

Lemma mode_singleton x : Series.mode [x] = [x].
Proof.
destruct (Series.mode [x]) as [|d rest] eqn:E.
- exfalso. now apply (SeriesFacts.mode_nonempty [x]).
- assert (Hd : forall y, In y (d :: rest) -> y = x).
  { intros y Hy. rewrite <- E in Hy. apply SeriesFacts.mode_In in Hy.
    destruct Hy as [[->|[]] _]. reflexivity. }
  pose proof (mode_NoDup [x]) as Hn. rewrite E in Hn.
  destruct rest as [|d' rest].
  + now rewrite (Hd d (or_introl eq_refl)).
  + exfalso. apply List.NoDup_cons_iff in Hn as [Hn _]. apply Hn.
    rewrite (Hd d (or_introl eq_refl)), (Hd d' (or_intror (or_introl eq_refl))).
    now left.
Qed.

(** X10: in a summary of temperatures that are numbers the minimum is at
    most the maximum; for a day with a single reading the maximum and the
    minimum are that reading's temperature and the dominant condition its
    condition. *)
Theorem summary_min_le_max
    (rt : Runtime) (c : string) (d : Date) (m : Monitor) :
  day_frame rt c d m <> [] ->
  Series.numbers (map fst (day_frame rt c d m)) ->
  exists summary,
    snd (calculate_daily_summary rt c d m) = Ok (Some summary) /\
    F64.le (min_temp summary) (max_temp summary) = true /\
    (forall t cond,
       day_frame rt c d m = [(t, cond)] ->
       max_temp summary = t /\ min_temp summary = t /\
       dominant_condition summary = cond).
Proof.
intros Hne Hnum.
destruct (calculate_some rt c d m Hne) as (dom & rest & Hmode & ->).
eexists. split; [reflexivity|]. simpl.
assert (Hne' : map fst (day_frame rt c d m) <> []).
{ destruct (day_frame rt c d m); [congruence|discriminate]. }
destruct (SeriesFacts.max_numbers _ Hne' Hnum) as [Hmi Hml].
destruct (SeriesFacts.min_numbers _ Hne' Hnum) as [Hni Hnl].
split; [now apply Hnl|].
intros t cond E. rewrite E in *. simpl in *.
destruct Hmi as [<-|[]]. destruct Hni as [<-|[]].
rewrite mode_singleton in Hmode. injection Hmode as <- _. auto.
Qed.

(** The test suite's day: 25.0 is at most 30.0. *)
Lemma summary_min_le_max_witness :
  exists summary,
    snd (calculate_daily_summary Sample.runtime "Delhi" Sample.day Sample.stored)
    = Ok (Some summary) /\
    F64.le (min_temp summary) (max_temp summary) = true.
Proof.
destruct (summary_min_le_max Sample.runtime "Delhi" Sample.day Sample.stored)
  as (summary & Hs & Hle & _).
- vm_compute. discriminate.
- vm_compute. repeat constructor.
- exists summary. split; [exact Hs|exact Hle].
Defined.

(* ===================================================================== *)
(** * Passes of the loop: outages, order, tables *)
(* ===================================================================== *)

Lemma calculate_fields rt c d m :
  weather_data (fst (calculate_daily_summary rt c d m)) = weather_data m /\
  alert_counter (fst (calculate_daily_summary rt c d m)) = alert_counter m /\
  log (fst (calculate_daily_summary rt c d m)) = log m /\
  sent (fst (calculate_daily_summary rt c d m)) = sent m /\
  calls (fst (calculate_daily_summary rt c d m))
  = (calls m ++ [CallSummary c d])%list /\
  exists res, snd (calculate_daily_summary rt c d m) = Ok res.
Proof.
destruct (day_frame rt c d m) as [|x df] eqn:E.
- rewrite calculate_empty by exact E. simpl. repeat split. now eexists.
- destruct (calculate_some rt c d m) as (dom & rest & _ & ->);
    [rewrite E; discriminate|].
  simpl. repeat split. now eexists.
Qed.

Lemma summary_loop_fields rt d l : forall m,
  let k := for_each l (fun c => _ ← calculate_daily_summary rt c d; ret tt) in
  weather_data (fst (k m)) = weather_data m /\
  alert_counter (fst (k m)) = alert_counter m /\
  log (fst (k m)) = log m /\
  sent (fst (k m)) = sent m /\
  calls (fst (k m)) = (calls m ++ map (fun c => CallSummary c d) l)%list /\
  snd (k m) = Ok tt.
Proof.
induction l as [|c l IH]; intros m k; subst k.
- simpl. rewrite app_nil_r. repeat split.
- rewrite for_each_cons_ignore.
  destruct (calculate_fields rt c d m) as (Hw & Ha & Hl & Hs & Hc & res & Ho).
  destruct (calculate_daily_summary rt c d m) as [m1 o1].
  cbn [fst snd] in *. subst o1.
  destruct (IH m1) as (Hw' & Ha' & Hl' & Hs' & Hc' & Ho').
  rewrite Hw', Ha', Hl', Hs', Hc', Ho', Hw, Ha, Hl, Hs, Hc.
  simpl. rewrite <- app_assoc. repeat split.
Qed.

Lemma summarise_yesterday_fields rt cfg w m :
  weather_data (fst (summarise_yesterday rt cfg w m)) = weather_data m /\
  alert_counter (fst (summarise_yesterday rt cfg w m)) = alert_counter m /\
  log (fst (summarise_yesterday rt cfg w m)) = log m /\
  sent (fst (summarise_yesterday rt cfg w m)) = sent m /\
  calls (fst (summarise_yesterday rt cfg w m))
  = (calls m ++ map (fun x => CallSummary (fst x) (snd x)) (due cfg w))%list /\
  snd (summarise_yesterday rt cfg w m) = Ok tt.
Proof.
unfold summarise_yesterday, due, midnight.
destruct ((hour (now w) =? 0) && (minute (now w) =? 0)).
- destruct (summary_loop_fields rt (dt_date (now w) - 1) (cities cfg) m)
    as (Hw & Ha & Hl & Hs & Hc & Ho).
  rewrite List.map_map. simpl. repeat split; assumption.
- simpl. rewrite app_nil_r. repeat split.
Qed.

Lemma flat_map_summaries {A} (f : Call -> list A) (l : list (string * Date)) :
  (forall x d, f (CallSummary x d) = []) ->
  flat_map f (map (fun x => CallSummary (fst x) (snd x)) l) = [].
Proof.
intros Hf. induction l as [|x l IH]; simpl; [reflexivity|].
now rewrite Hf, IH.
Qed.

Lemma flat_map_fetches {A} (f : Call -> list A) (l : list string) :
  (forall x, f (CallFetch x) = []) -> flat_map f (map CallFetch l) = [].
Proof.
intros Hf. induction l as [|x l IH]; simpl; [reflexivity|].
now rewrite Hf, IH.
Qed.

Lemma fetched_fetches (l : list string) :
  flat_map (fun c => match c with CallFetch x => [x] | _ => [] end)
           (map CallFetch l) = l.
Proof. induction l as [|x l IH]; simpl; [reflexivity|]. now rewrite IH. Qed.

(** The fetch loop when every request fails. *)
Lemma outage_loop rt cfg w l : forall m,
  Forall (fun c => exists e, request cfg w c = Raise e) l ->
  for_each l (sample_city rt cfg w) m =
  (set_log (fun t => (t ++ fetch_errors cfg w l)%list)
     (set_calls (fun t => (t ++ map CallFetch l)%list) m), Ok tt).
Proof.
induction l as [|c l IH]; intros m Hall.
- simpl. unfold set_log, set_calls. simpl. rewrite !app_nil_r.
  now destruct m.
- apply List.Forall_cons_iff in Hall as [[e He] Hall].
  rewrite for_each_cons, (sample_city_failure rt cfg w c e m He), (IH _ Hall).
  unfold fetch_errors, set_log, set_calls. simpl. rewrite He. simpl.
  now rewrite <- !app_assoc.
Qed.

Lemma fetch_errors_length cfg w l :
  Forall (fun c => exists e, request cfg w c = Raise e) l ->
  length (fetch_errors cfg w l) = length l.
Proof.
unfold fetch_errors. induction 1 as [|c l [e He] _ IH]; simpl;
  [reflexivity|].
rewrite He. simpl. now rewrite IH.
Qed.

(** X12: a pass in which every request fails stores nothing, checks
    nothing and leaves every counter and the mails as they were; it logs
    one error for each configured location, in order, and nothing else,
    whatever the unit name. It ends normally when the pause is granted:
    the interval lies between 0 and the 9223372036 seconds that
    [time.sleep] can convert, and the operating system accepts it. *)
Theorem outage_pass
    (rt : Runtime) (cfg : WeatherConfig) (w : World) (m : Monitor) :
  Forall (fun c => exists e, request cfg w c = Raise e) (cities cfg) ->
  let m' := fst (cycle rt cfg w m) in
  weather_data m' = weather_data m /\
  alert_counter m' = alert_counter m /\
  sent m' = sent m /\
  stored m' = stored m /\
  checked m' = checked m /\
  fetched m' = (fetched m ++ cities cfg)%list /\
  log m' = (log m ++ fetch_errors cfg w (cities cfg))%list /\
  length (fetch_errors cfg w (cities cfg)) = length (cities cfg) /\
  (0 <= interval cfg <= 9223372036 -> pause w (interval cfg) = None ->
   snd (cycle rt cfg w m) = Ok tt).
Proof.
intros Hall m'. subst m'. unfold cycle. rewrite bind_run.
rewrite (outage_loop rt cfg w (cities cfg) m Hall). rewrite bind_run.
match goal with
| |- context [summarise_yesterday rt cfg w ?m1] =>
    destruct (summarise_yesterday_fields rt cfg w m1)
      as (Hw & Ha & Hl & Hs & _ & Ho);
    destruct (summarise_yesterday_calls rt cfg w m1)
      as (_ & _ & Hf2 & Hs2 & Hc2);
    destruct (summarise_yesterday rt cfg w m1) as [m2 o2]
end.
cbn [fst snd] in *. subst o2.
destruct (sleep_fields w (interval cfg) m2) as (Hw' & _ & Ha' & Hl' & Hs' & _).
destruct (sleep_calls w (interval cfg) m2) as (_ & Hf3 & Hs3 & Hc3).
rewrite Hw', Ha', Hl', Hs', Hw, Ha, Hl, Hs, Hf3, Hs3, Hc3, Hf2, Hs2, Hc2.
unfold stored, checked, fetched. simpl.
rewrite !flat_map_app, !flat_map_fetches by reflexivity.
rewrite !app_nil_r.
repeat split.
- now rewrite fetched_fetches.
- now apply fetch_errors_length.
- intros Hi Hp. now rewrite (sleep_granted w _ _ Hi Hp).
Qed.

(** The shipped configuration while the weather service is down. *)
Lemma outage_pass_witness :
  let m' := fst (cycle Sample.runtime Shipped.config Shipped.outage init) in
  weather_data m' = [] /\
  alert_counter m' = ∅ /\
  length (log m') = 6%nat /\
  snd (cycle Sample.runtime Shipped.config Shipped.outage init) = Ok tt.
Proof.
destruct (outage_pass Sample.runtime Shipped.config Shipped.outage init)
  as (Hw & Ha & _ & _ & _ & _ & Hl & Hn & Ho).
- repeat constructor; eexists; reflexivity.
- cbv zeta. split; [exact Hw|]. split; [exact Ha|].
  split; [rewrite Hl; exact Hn|].
  apply Ho; [vm_compute; split; discriminate|reflexivity].
Defined.

(** ** The tables only grow *)

Lemma extends_refl m : extends m m.
Proof. split; exists []; now rewrite app_nil_r. Qed.

Lemma extends_trans m1 m2 m3 : extends m1 m2 -> extends m2 m3 -> extends m1 m3.
Proof.
intros [[a Ha] [b Hb]] [[a' Ha'] [b' Hb']]. split.
- exists (a ++ a')%list. now rewrite Ha', Ha, app_assoc.
- exists (b ++ b')%list. now rewrite Hb', Hb, app_assoc.
Qed.

Lemma extends_same m m' :
  weather_data m' = weather_data m ->
  daily_summaries m' = daily_summaries m ->
  extends m m'.
Proof. intros Hw Hd. split; exists []; now rewrite app_nil_r. Qed.

Lemma append_only_ret {A} (a : A) : append_only (mret a).
Proof. intros m. apply extends_refl. Qed.

Lemma append_only_bind {A B} (c : M A) (k : A -> M B) :
  append_only c -> (forall a, append_only (k a)) -> append_only (c ≫= k).
Proof.
intros Hc Hk m. rewrite bind_run. specialize (Hc m).
destruct (c m) as [m1 [a|e]]; cbn [fst] in *; [|exact Hc].
eapply extends_trans; [exact Hc|apply Hk].
Qed.

Lemma append_only_for_each {A} (body : A -> M unit) xs :
  (forall x, append_only (body x)) -> append_only (for_each xs body).
Proof.
intros H. induction xs as [|x xs IH]; simpl.
- apply append_only_ret.
- apply append_only_bind; [apply H|intros _; exact IH].
Qed.

Lemma append_only_sample_city rt cfg w c : append_only (sample_city rt cfg w c).
Proof.
intros m. destruct (request cfg w c) as [p|e] eqn:E.
- destruct (sqlite_integer (timestamp (reading_of cfg c p))) eqn:Hs.
  + apply storable_sqlite in Hs.
    rewrite (sample_city_success rt cfg w c p m E Hs).
    match goal with
    | |- context [check_temperature_alert rt cfg w ?r ?m1] =>
        destruct (check_calls rt cfg w r m1) as (extra & _ & _ & Hw & Hd)
    end.
    split.
    * eexists. rewrite Hw. reflexivity.
    * exists []. rewrite Hd. simpl. now rewrite app_nil_r.
  + assert (Hn : ~ storable (reading_of cfg c p)).
    { intros Hst. apply storable_sqlite in Hst. congruence. }
    rewrite (sample_city_overflow rt cfg w c p m E Hn). now apply extends_same.
- rewrite (sample_city_failure rt cfg w c e m E). now apply extends_same.
Qed.

Lemma append_only_calculate rt c d :
  append_only (calculate_daily_summary rt c d).
Proof.
intros m. destruct (day_frame rt c d m) as [|x df] eqn:E.
- rewrite calculate_empty by exact E. now apply extends_same.
- destruct (calculate_some rt c d m) as (dom & rest & _ & ->);
    [rewrite E; discriminate|].
  split; [exists []; simpl; now rewrite app_nil_r|eexists; reflexivity].
Qed.

Lemma append_only_cycle rt cfg w : append_only (cycle rt cfg w).
Proof.
unfold cycle. apply append_only_bind.
- apply append_only_for_each. intros c. apply append_only_sample_city.
- intros _. apply append_only_bind.
  + unfold summarise_yesterday. destruct (midnight (now w)).
    * apply append_only_for_each. intros c.
      apply append_only_bind; [apply append_only_calculate|].
      intros _. apply append_only_ret.
    * apply append_only_ret.
  + intros _ m. destruct (sleep_fields w (interval cfg) m) as (Hw & Hd & _).
    now apply extends_same.
Qed.

Lemma append_only_iterate rt cfg ws n : forall i,
  append_only (iterate rt cfg ws i n).
Proof.
induction n as [|n IH]; intros i; simpl.
- apply append_only_ret.
- apply append_only_bind; [apply append_only_cycle|intros _; apply IH].
Qed.

(** X13: the loop never removes or changes a stored row: after any number
    of passes, in any worlds and with any configuration, and however the
    run ended, both tables still begin with the rows they held, in the
    same order. *)
Theorem run_only_appends
    (rt : Runtime) (cfg : WeatherConfig) (ws : nat -> World) (n : nat)
    (m : Monitor) :
  (exists rows,
     weather_data (fst (run rt cfg ws n m)) = (weather_data m ++ rows)%list) /\
  (exists rows,
     daily_summaries (fst (run rt cfg ws n m))
     = (daily_summaries m ++ rows)%list).
Proof.
assert (H : append_only (run rt cfg ws n)).
{ unfold run. apply append_only_bind.
  - intros m0. now apply extends_same.
  - intros _. apply append_only_iterate. }
exact (H m).
Qed.

(** ** Stored, then checked *)

Lemma stores_and_checks_triggers extra :
  Forall (fun c => is_trigger c = true) extra ->
  List.filter is_store_or_check extra = [].
Proof.
induction 1 as [|c extra Hc _ IH]; simpl; [reflexivity|].
destruct c; try discriminate Hc. exact IH.
Qed.

Lemma sample_city_order rt cfg w c m :
  Forall storable (readings cfg w [c]) ->
  stores_and_checks (fst (sample_city rt cfg w c m))
  = (stores_and_checks m
     ++ flat_map (fun r => [CallStore r; CallCheck r])
          (readings cfg w [c]))%list.
Proof.
unfold readings. simpl. destruct (request cfg w c) as [p|e] eqn:E.
- intros Hst. apply List.Forall_cons_iff in Hst as [Hst _].
  rewrite (sample_city_success rt cfg w c p m E Hst).
  match goal with
  | |- context [check_temperature_alert rt cfg w ?r ?m1] =>
      destruct (check_calls rt cfg w r m1) as (extra & Hc & Ht & _)
  end.
  unfold stores_and_checks. rewrite Hc. simpl.
  rewrite !List.filter_app. simpl.
  rewrite (stores_and_checks_triggers extra Ht).
  now rewrite <- app_assoc.
- intros _. rewrite (sample_city_failure rt cfg w c e m E).
  unfold stores_and_checks. simpl. rewrite List.filter_app. reflexivity.
Qed.

Lemma fetch_loop_order rt cfg w l : forall m,
  unit_supported cfg ->
  Forall storable (readings cfg w l) ->
  stores_and_checks (fst (for_each l (sample_city rt cfg w) m))
  = (stores_and_checks m
     ++ flat_map (fun r => [CallStore r; CallCheck r]) (readings cfg w l))%list.
Proof.
induction l as [|c l IH]; intros m Hu Hst.
- simpl. now rewrite app_nil_r.
- rewrite readings_cons in Hst. apply Forall_app in Hst as [Hst1 Hst2].
  rewrite for_each_cons, readings_cons, flat_map_app.
  destruct (sample_city_calls rt cfg w c m Hu Hst1) as (Ho & _).
  pose proof (sample_city_order rt cfg w c m Hst1) as Hc.
  destruct (sample_city rt cfg w c m) as [m1 o1].
  cbn [fst snd] in *. subst o1.
  rewrite (IH m1 Hu Hst2), Hc. now rewrite <- app_assoc.
Qed.

(** X14: in the fetch loop of a pass (with a documented unit name and
    answers whose timestamps fit in 64 bits) every reading is handed to
    [store_weather_data] before it is checked, and it is checked before the
    next location's reading is stored: the stores and checks of the pass
    are store, check, store, check, ... over the readings of the locations
    whose fetch succeeds, in the configured order. *)
Theorem readings_stored_then_checked
    (rt : Runtime) (cfg : WeatherConfig) (w : World) (m : Monitor) :
  unit_supported cfg ->
  Forall (fun r => - 2 ^ 63 <= timestamp r < 2 ^ 63)
         (readings cfg w (cities cfg)) ->
  stores_and_checks (fst (for_each (cities cfg) (sample_city rt cfg w) m))
  = (stores_and_checks m
     ++ flat_map (fun r => [CallStore r; CallCheck r])
          (readings cfg w (cities cfg)))%list.
Proof. intros Hu Hst. now apply fetch_loop_order. Qed.

(** In the sample world only Delhi answers: its reading is stored, then
    checked. *)
Lemma readings_stored_then_checked_witness :
  let r := reading_of Sample.config "Delhi" (Sample.payload 310 "Clear" 1000) in
  stores_and_checks
    (fst (for_each ["Delhi"; "Mumbai"]
            (sample_city Sample.runtime Sample.config Sample.world) init))
  = [CallStore r; CallCheck r].
Proof.
refine (readings_stored_then_checked Sample.runtime Sample.config Sample.world
          init (or_introl eq_refl) _).
repeat constructor; vm_compute; discriminate.
Defined.

(** ** The pause between passes *)

Lemma sample_city_slept rt cfg w c m :
  slept (fst (sample_city rt cfg w c m)) = slept m.
Proof.
destruct (request cfg w c) as [p|e] eqn:E.
- destruct (sqlite_integer (timestamp (reading_of cfg c p))) eqn:Hs.
  + apply storable_sqlite in Hs.
    rewrite (sample_city_success rt cfg w c p m E Hs).
    match goal with
    | |- context [check_temperature_alert rt cfg w ?r ?m1] =>
        destruct (check_calls rt cfg w r m1) as (extra & Hc & Ht & _)
    end.
    unfold slept. rewrite Hc. simpl. rewrite !flat_map_app. simpl.
    rewrite (flat_map_triggers _ extra (fun _ => eq_refl) Ht).
    now rewrite !app_nil_r.
  + assert (Hn : ~ storable (reading_of cfg c p)).
    { intros Hst. apply storable_sqlite in Hst. congruence. }
    rewrite (sample_city_overflow rt cfg w c p m E Hn).
    unfold slept. simpl. rewrite flat_map_app. simpl. now rewrite app_nil_r.
- rewrite (sample_city_failure rt cfg w c e m E).
  unfold slept. simpl. rewrite flat_map_app. simpl. now rewrite app_nil_r.
Qed.

Lemma fetch_loop_slept rt cfg w l : forall m,
  slept (fst (for_each l (sample_city rt cfg w) m)) = slept m.
Proof.
induction l as [|c l IH]; intros m; [reflexivity|].
rewrite for_each_cons. pose proof (sample_city_slept rt cfg w c m) as H.
destruct (sample_city rt cfg w c m) as [m1 [[]|e]]; cbn [fst] in *.
- now rewrite IH.
- exact H.
Qed.

(** One pass whose fetch loop goes through: the pause, and how the pass
    ends. *)
Lemma cycle_sleeps rt cfg w m :
  unit_supported cfg ->
  Forall storable (readings cfg w (cities cfg)) ->
  cycle rt cfg w m
  = sleep w (interval cfg)
      (fst (summarise_yesterday rt cfg w
              (fst (for_each (cities cfg) (sample_city rt cfg w) m)))) /\
  slept (fst (summarise_yesterday rt cfg w
                (fst (for_each (cities cfg) (sample_city rt cfg w) m))))
  = slept m.
Proof.
intros Hu Hst. unfold cycle. rewrite bind_run.
destruct (fetch_loop_calls rt cfg w (cities cfg) m Hu Hst) as (Ho & _).
pose proof (fetch_loop_slept rt cfg w (cities cfg) m) as Hs.
destruct (for_each (cities cfg) (sample_city rt cfg w) m) as [m1 o1].
cbn [fst snd] in *. subst o1. rewrite bind_run.
destruct (summarise_yesterday_fields rt cfg w m1) as (_ & _ & _ & _ & Hc2 & Ho2).
destruct (summarise_yesterday rt cfg w m1) as [m2 o2].
cbn [fst snd] in *. subst o2. split; [reflexivity|].
unfold slept in *. rewrite Hc2, flat_map_app.
now rewrite (flat_map_summaries _ (due cfg w) (fun _ _ => eq_refl)), app_nil_r.
Qed.

Lemma iterate_sleeps rt cfg ws n : forall i m,
  unit_supported cfg -> runs_on cfg ws i n ->
  snd (iterate rt cfg ws i n m) = Ok tt /\
  fetched (fst (iterate rt cfg ws i n m))
  = (fetched m ++ concat (repeat (cities cfg) n))%list /\
  slept (fst (iterate rt cfg ws i n m))
  = (slept m ++ repeat (interval cfg) n)%list.
Proof.
induction n as [|n IH]; intros i m Hu Hr.
- simpl. rewrite !app_nil_r. repeat split.
- simpl iterate. rewrite bind_run.
  destruct (Hr i ltac:(lia)) as [Hst [Hi Hp]].
  destruct (cycle_calls rt cfg (ws i) m Hu Hst) as (Hf & _).
  destruct (cycle_sleeps rt cfg (ws i) m Hu Hst) as (Hc & Hs).
  rewrite Hc in *. rewrite (sleep_granted (ws i) _ _ Hi Hp) in *.
  cbn [fst snd] in *.
  match goal with
  | |- context [iterate rt cfg ws (S i) n ?m1] =>
      destruct (IH (S i) m1 Hu) as (Ho' & Hf' & Hs')
  end.
  { intros j Hj. apply Hr. lia. }
  rewrite Ho', Hf', Hs'. unfold fetched in Hf |- *. unfold slept in Hs |- *.
  cbn [calls set_calls] in *. rewrite !flat_map_app, Hs. simpl.
  rewrite flat_map_app in Hf. simpl in Hf. rewrite app_nil_r in Hf.
  rewrite Hf, !app_nil_r, <- !app_assoc. repeat split.
Qed.

(** X15: the loop goes on as long as nothing but a fetch fails: with a
    documented unit name, answers whose timestamps fit in 64 bits and a
    pause that is granted in each pass (an interval between 0 and
    9223372036 seconds that the operating system accepts), the first [n]
    passes never end in an exception, each requests every configured
    location once, in the configured order, and each ends with one pause
    of [interval] seconds. *)
Theorem run_keeps_going
    (rt : Runtime) (cfg : WeatherConfig) (ws : nat -> World) (n : nat)
    (m : Monitor) :
  unit_supported cfg ->
  0 <= interval cfg <= 9223372036 ->
  (forall i, (i < n)%nat ->
     pause (ws i) (interval cfg) = None /\
     Forall (fun r => - 2 ^ 63 <= timestamp r < 2 ^ 63)
            (readings cfg (ws i) (cities cfg))) ->
  snd (run rt cfg ws n m) = Ok tt /\
  fetched (fst (run rt cfg ws n m))
  = (fetched m ++ concat (repeat (cities cfg) n))%list /\
  slept (fst (run rt cfg ws n m))
  = (slept m ++ repeat (interval cfg) n)%list.
Proof.
intros Hu Hi Hw. unfold run. unfold logger. rewrite bind_run.
unfold modify. cbv beta iota.
assert (Hr : runs_on cfg ws 0 n).
{ intros j Hj. destruct (Hw j ltac:(lia)) as [Hp Hst].
  split; [exact Hst|split; assumption]. }
match goal with
| |- context [iterate rt cfg ws 0 n ?m0] =>
    destruct (iterate_sleeps rt cfg ws n 0%nat m0 Hu Hr) as (Ho & Hf & Hs)
end.
rewrite Ho, Hf, Hs. repeat split.
Qed.

(** Three passes of the shipped configuration while every location reports
    36.85 degrees. *)
Lemma run_keeps_going_witness :
  snd (run Sample.runtime Shipped.config (fun _ => Shipped.heat) 3 init) = Ok tt /\
  length (fetched (fst (run Sample.runtime Shipped.config
                          (fun _ => Shipped.heat) 3 init))) = 18%nat /\
  slept (fst (run Sample.runtime Shipped.config (fun _ => Shipped.heat) 3 init))
  = [300; 300; 300].
Proof.
destruct (run_keeps_going Sample.runtime Shipped.config (fun _ => Shipped.heat)
            3 init (or_introl eq_refl))
  as (Ho & Hf & Hs).
- vm_compute. split; discriminate.
- intros i _. split; [reflexivity|].
  repeat constructor; vm_compute; discriminate.
- split; [exact Ho|]. split; [now rewrite Hf|exact Hs].
Defined.

(** X16: an interval that [time.sleep] refuses ends the program in its
    first pass. The locations are requested and the due summaries computed
    as usual (documented unit name, timestamps of 64 bits); then the pause
    raises, [ValueError] for a negative interval down to -9223372036
    seconds and [OverflowError] beyond 9223372036 seconds either way, and
    since nothing in [run] catches it no second pass begins. *)
Theorem refused_interval_stops_after_one_pass
    (rt : Runtime) (cfg : WeatherConfig) (ws : nat -> World) (n : nat)
    (m : Monitor) :
  unit_supported cfg ->
  Forall (fun r => - 2 ^ 63 <= timestamp r < 2 ^ 63)
         (readings cfg (ws 0%nat) (cities cfg)) ->
  interval cfg < 0 \/ 9223372036 < interval cfg ->
  (exists e,
     snd (run rt cfg ws (S n) m) = Raise e /\
     (- 9223372036 <= interval cfg < 0 ->
      e = ValueError "sleep length must be non-negative") /\
     (interval cfg < - 9223372036 \/ 9223372036 < interval cfg ->
      exists msg, e = OverflowError msg)) /\
  fetched (fst (run rt cfg ws (S n) m)) = (fetched m ++ cities cfg)%list /\
  summarised (fst (run rt cfg ws (S n) m))
  = (summarised m ++ due cfg (ws 0%nat))%list /\
  slept (fst (run rt cfg ws (S n) m)) = slept m.
Proof.
intros Hu Hst Hi. unfold run. unfold logger. rewrite bind_run.
unfold modify. cbv beta iota. simpl iterate. rewrite bind_run.
match goal with
| |- context [cycle rt cfg (ws 0%nat) ?m0] =>
    destruct (cycle_calls rt cfg (ws 0%nat) m0 Hu Hst) as (Hf & _ & _ & Hy & _);
    destruct (cycle_sleeps rt cfg (ws 0%nat) m0 Hu Hst) as (Hc & Hs);
    rewrite Hc in *;
    set (m2 := fst (summarise_yesterday rt cfg (ws 0%nat)
                      (fst (for_each (cities cfg)
                              (sample_city rt cfg (ws 0%nat)) m0)))) in *
end.
assert (E : exists e,
  sleep (ws 0%nat) (interval cfg) m2 = (m2, Raise e) /\
  (- 9223372036 <= interval cfg < 0 ->
   e = ValueError "sleep length must be non-negative") /\
  (interval cfg < - 9223372036 \/ 9223372036 < interval cfg ->
   exists msg, e = OverflowError msg)).
{ unfold sleep.
  destruct (Z.ltb_spec (interval cfg) (- time_limit)) as [H1|H1];
    [|destruct (Z.ltb_spec time_limit (interval cfg)) as [H2|H2]];
    unfold time_limit in *; simpl.
  - eexists. split; [reflexivity|]. split; [lia|]. intros _. now eexists.
  - eexists. split; [reflexivity|]. split; [lia|]. intros _. now eexists.
  - destruct (Z.ltb_spec (interval cfg) 0); [|lia].
    eexists. split; [reflexivity|]. split; [reflexivity|]. lia. }
destruct E as (e & E & Hv & Ho). rewrite E in *. cbn [fst snd] in *.
split; [exists e; repeat split; assumption|].
repeat split; assumption.
Qed.

(** The shipped configuration with an interval of -1 second. *)
Lemma refused_interval_stops_after_one_pass_witness :
  let cfg := Shipped.with_interval (-1) Shipped.config in
  snd (run Sample.runtime cfg (fun _ => Shipped.heat) 5 init)
  = Raise (ValueError "sleep length must be non-negative") /\
  fetched (fst (run Sample.runtime cfg (fun _ => Shipped.heat) 5 init))
  = cities Shipped.config.
Proof.
destruct (refused_interval_stops_after_one_pass Sample.runtime
            (Shipped.with_interval (-1) Shipped.config)
            (fun _ => Shipped.heat) 4 init (or_introl eq_refl))
  as ((e & Ho & Hv & _) & Hf & _).
- repeat constructor; vm_compute; discriminate.
- left. reflexivity.
- cbv zeta. rewrite Ho, Hv by (vm_compute; split; [discriminate|reflexivity]).
  split; [reflexivity|exact Hf].
Defined.

(** ** A reading that the table cannot take *)

(** X20: an answer whose timestamp does not fit in 64 bits ends the pass.
    The reading is handed to [store_weather_data], whose INSERT raises
    [OverflowError]; nothing in [run] catches it, so the reading is written
    to no table and never checked, its location's counter stays as it was,
    and the locations after it are not requested. *)
Theorem unstorable_reading_ends_pass
    (rt : Runtime) (cfg : WeatherConfig) (w : World) (m : Monitor)
    (before after : list string) (c : string) (p : Payload) :
  unit_supported cfg ->
  cities cfg = (before ++ c :: after)%list ->
  Forall (fun r => - 2 ^ 63 <= timestamp r < 2 ^ 63) (readings cfg w before) ->
  request cfg w c = Ok p ->
  ~ - 2 ^ 63 <= p_dt p < 2 ^ 63 ->
  let m' := fst (cycle rt cfg w m) in
  (exists msg, snd (cycle rt cfg w m) = Raise (OverflowError msg)) /\
  fetched m' = (fetched m ++ before ++ [c])%list /\
  stored m'
  = (stored m ++ readings cfg w before ++ [reading_of cfg c p])%list /\
  checked m' = (checked m ++ readings cfg w before)%list /\
  length (weather_data m')
  = (length (weather_data m) + length (readings cfg w before))%nat /\
  summarised m' = summarised m /\
  slept m' = slept m.
Proof.
intros Hu Hc Hst He Hn m'. subst m'. unfold cycle. rewrite Hc, bind_run.
assert (Hloop : forall l m0,
  Forall storable (readings cfg w l) ->
  for_each (l ++ c :: after) (sample_city rt cfg w) m0
  = sample_city rt cfg w c (fst (for_each l (sample_city rt cfg w) m0))).
{ induction l as [|x l IH]; intros m0 Hl.
  - simpl. rewrite bind_run.
    rewrite (sample_city_overflow rt cfg w c p m0 He Hn). reflexivity.
  - rewrite readings_cons in Hl. apply Forall_app in Hl as [Hl1 Hl2].
    rewrite <- app_comm_cons, !for_each_cons.
    destruct (sample_city_calls rt cfg w x m0 Hu Hl1) as (Ho & _).
    destruct (sample_city rt cfg w x m0) as [m1 o1].
    cbn [fst snd] in *. subst o1. now apply IH. }
rewrite (Hloop before m Hst).
destruct (fetch_loop_calls rt cfg w before m Hu Hst)
  as (_ & Hf & Hs & Hk & Hy & Hw & _).
pose proof (fetch_loop_slept rt cfg w before m) as Hz.
set (m1 := fst (for_each before (sample_city rt cfg w) m)) in *.
rewrite (sample_city_overflow rt cfg w c p m1 He Hn). cbn [fst snd].
unfold fetched, stored, checked, summarised, slept in *. simpl.
rewrite !flat_map_app. simpl. rewrite !app_nil_r, Hf, Hs, Hk, Hy, Hz.
rewrite <- !app_assoc.
split; [now eexists|]. repeat split.
apply (f_equal (@length Reading)) in Hw.
rewrite length_app, !length_map in Hw. exact Hw.
Qed.

(** Delhi is answered with a timestamp of 2^63: Mumbai is never
    requested. *)
Lemma unstorable_reading_ends_pass_witness :
  let m' := fst (cycle Sample.runtime Sample.config Shipped.far_future init) in
  fetched m' = ["Delhi"] /\ checked m' = [] /\ weather_data m' = [].
Proof.
destruct (unstorable_reading_ends_pass Sample.runtime Sample.config
            Shipped.far_future init [] ["Mumbai"] "Delhi"
            (Sample.payload 310 "Clear" 9223372036854775808)
            (or_introl eq_refl) eq_refl (List.Forall_nil _) eq_refl)
  as (_ & Hf & _ & Hk & Hw & _).
- vm_compute. intros [_ H]. discriminate H.
- cbv zeta. split; [exact Hf|]. split; [exact Hk|].
  destruct (weather_data
              (fst (cycle Sample.runtime Sample.config Shipped.far_future init)));
    [reflexivity|discriminate Hw].
Defined.

(** ** The mail alert, whatever the settings *)

Lemma send_email_alert_cases cfg w message m :
  (send_email_alert cfg w message m = (m, Ok tt) \/
   exists mail,
     mail_subject mail = "Weather Alert" /\ mail_body mail = message /\
     send_email_alert cfg w message m
     = (set_sent (fun l => (l ++ [mail])%list) m, Ok tt)) \/
  (exists e,
     send_email_alert cfg w message m
     = (set_log (fun l =>
          (l ++ [(ERROR, "Failed to send email alert: " +:+ str_exn e)])%list) m,
        Ok tt)).
Proof.
unfold send_email_alert. destruct (email_enabled cfg) as [d|];
  [|left; now left].
unfold_monad.
destruct (d !! "from") as [from|]; [|right; now eexists].
destruct (d !! "to") as [to|]; [|right; now eexists].
destruct (d !! "smtp_server") as [server|]; [|right; now eexists].
cbv beta iota.
destruct (smtp_connect w server 587) as [e|]; [right; now eexists|].
destruct (smtp_quit w) as [q|], (smtp_starttls w) as [e1|];
  try (right; now eexists);
  destruct (d !! "username") as [username|]; try (right; now eexists);
  destruct (d !! "password") as [password|]; try (right; now eexists);
  cbv beta iota;
  destruct (smtp_login w username password) as [e2|];
  try (right; now eexists);
  destruct (smtp_send_message w _) as [e3|]; try (right; now eexists).
left. right.
exists {| mail_subject := "Weather Alert"; mail_from := from; mail_to := to;
          mail_body := message |}.
repeat split.
Qed.

(** X17: sending the mail never raises, whatever the settings and whatever
    the mail server does at any step, the closing of the session
    included; it leaves the counters, the tables and the call history
    alone. It logs nothing or one ERROR record that begins "Failed to send
    email alert: ", and it records no mail or one mail, with the subject
    "Weather Alert" and the message as its body. *)
Theorem send_email_alert_never_raises
    (cfg : WeatherConfig) (w : World) (message : string) (m : Monitor) :
  let m' := fst (send_email_alert cfg w message m) in
  snd (send_email_alert cfg w message m) = Ok tt /\
  alert_counter m' = alert_counter m /\
  weather_data m' = weather_data m /\
  daily_summaries m' = daily_summaries m /\
  calls m' = calls m /\
  (log m' = log m \/
   exists e,
     log m' = (log m ++ [(ERROR, "Failed to send email alert: "
                                   +:+ str_exn e)])%list) /\
  (sent m' = sent m \/
   exists mail,
     mail_subject mail = "Weather Alert" /\ mail_body mail = message /\
     sent m' = (sent m ++ [mail])%list).
Proof.
intros m'. subst m'.
destruct (send_email_alert_cases cfg w message m)
  as [[->|(mail & Hs & Hb & ->)]|(e & ->)]; simpl; repeat split.
- now left.
- now left.
- now left.
- right. now exists mail.
- right. now exists e.
- now left.
Qed.

(** X18: [None] and the empty dict both count as no mail settings: an alert
    is then only logged as a WARNING "ALERT: ..." record, no mail server is
    contacted, and nothing else is logged. *)
Theorem no_mail_settings_only_warns
    (cfg : WeatherConfig) (w : World) (message : string) (m : Monitor) :
  email_config cfg = None \/ email_config cfg = Some ∅ ->
  send_email_alert cfg w message m = (m, Ok tt) /\
  trigger_alert cfg w message m
  = (set_log (fun l => (l ++ [(WARNING, "ALERT: " +:+ message)])%list)
       (set_calls (fun l => (l ++ [CallTrigger message])%list) m), Ok tt).
Proof.
intros H.
assert (E : email_enabled cfg = None).
{ unfold email_enabled. destruct H as [->| ->]; [reflexivity|].
  now destruct (decide ((∅ : gmap string string) = ∅)). }
unfold trigger_alert, send_email_alert. rewrite E. split; reflexivity.
Qed.

Lemma no_mail_settings_only_warns_witness :
  log (fst (trigger_alert Sample.config Sample.world "hot" init))
  = [(WARNING, "ALERT: hot")] /\
  sent (fst (trigger_alert Sample.config Sample.world "hot" init)) = [].
Proof.
destruct (no_mail_settings_only_warns Sample.config Sample.world "hot" init
            (or_introl eq_refl)) as [_ H].
rewrite H. split; reflexivity.
Defined.

(** X19: mail settings that lack "from", "to" or "smtp_server" never reach
    the mail server: whatever the world, the lookup fails before the
    connection is opened, nothing is sent, and the log gets one ERROR
    record that names a missing key between quotes. *)
Theorem missing_mail_key_logged
    (cfg : WeatherConfig) (d : gmap string string) (w : World)
    (message : string) (m : Monitor) :
  email_config cfg = Some d -> d <> ∅ ->
  (exists key, In key ["from"; "to"; "smtp_server"] /\ d !! key = None) ->
  exists key,
    In key ["from"; "to"; "smtp_server"] /\ d !! key = None /\
    send_email_alert cfg w message m
    = (set_log (fun l =>
         (l ++ [(ERROR, "Failed to send email alert: '" +:+ key +:+ "'")])%list)
         m, Ok tt).
Proof.
intros Hc Hd (key & Hin & Hk).
assert (E : email_enabled cfg = Some d).
{ unfold email_enabled. rewrite Hc. now destruct (decide (d = ∅)). }
unfold send_email_alert. rewrite E. unfold_monad.
destruct (d !! "from") as [from|] eqn:Hfrom.
2:{ exists "from". repeat split; [now left|exact Hfrom]. }
destruct (d !! "to") as [to|] eqn:Hto.
2:{ exists "to". repeat split; [right; now left|exact Hto]. }
destruct (d !! "smtp_server") as [server|] eqn:Hserver.
2:{ exists "smtp_server". repeat split; [right; right; now left|exact Hserver]. }
exfalso. simpl in Hin. destruct Hin as [<-|[<-|[<-|[]]]]; congruence.
Qed.

(** The shipped settings without their "to" entry. *)
Lemma missing_mail_key_logged_witness :
  let d := delete "to" Shipped.email in
  let cfg := {| api_key := "k"; interval := 300; cities := ["Delhi"];
                temp_unit := "celsius"; high_temp_threshold := 35%float;
                consecutive_alerts := 2; db_path := "weather_data.db";
                email_config := Some d |} in
  exists key,
    In key ["from"; "to"; "smtp_server"] /\ d !! key = None /\
    send_email_alert cfg Shipped.heat "hot" init
    = (set_log (fun l =>
         (l ++ [(ERROR, "Failed to send email alert: '" +:+ key +:+ "'")])%list)
         init, Ok tt).
Proof.
intros d cfg.
apply (missing_mail_key_logged cfg d Shipped.heat "hot" init eq_refl).
- intros E. assert (H : d !! "from" = Some "sender@gmail.com")
    by (vm_compute; reflexivity).
  rewrite E, lookup_empty in H. discriminate H.
- exists "to". split; [right; now left|vm_compute; reflexivity].
Defined.
